(** * Connection management service: a shallow embedding

    The development follows [ConnectionManagementService]
    (sql/workbench/services/connection/browser/connectionManagementService.ts):
    the connect life cycle ([connect], [tryConnect], [connectWithOptions],
    [createNewConnection], [handleConnectionError]), the Azure token
    resolver [fillInOrClearAzureToken], the group operations
    ([hasRegisteredServers], [deleteConnectionGroup]) and the profile
    queries; further on, the deletion of a connection, the list of known
    connections ([getConnections]) and the controller of the server group
    dialog ([ServerGroupController]).

    JavaScript objects that the service mutates in place (connection
    profiles) live in a store of objects addressed by references; promises
    are run to their settlement, an [await] or [then] being sequential
    composition and a rejection an exceptional outcome. *)

From Stdlib Require Import ZArith.
From stdpp Require Import base option list gmap strings fin_maps.

Open Scope string_scope.
Open Scope nat_scope.
Open Scope list_scope.

(** ** JavaScript values as the service uses them *)

(** A string-valued expression that may be [undefined]; [""] and
    [undefined] are the falsy ones. *)
Definition truthy_str (v : option string) : bool :=
  match v with
  | Some s => negb (String.eqb s "")
  | None => false
  end.

(** A number that may be [undefined]; [0] and [undefined] are falsy. *)
Definition truthy_num (v : option Z) : bool :=
  match v with
  | Some n => negb (Z.eqb n 0)
  | None => false
  end.

(** A boolean field that may be absent. *)
Definition truthy_bool (v : option bool) : bool :=
  match v with
  | Some b => b
  | None => false
  end.

(** [a && b] where [a] is an object or [undefined] and [b] a boolean read
    off that object: the value is [undefined] (here [None]) when [a] is. *)
Definition js_and_obj {A : Type} (a : option A) (b : A → bool) : option bool :=
  match a with
  | Some x => Some (b x)
  | None => None
  end.

(** ** Data model *)

(** References to profile objects. *)
Definition loc := nat.

(** The option bag [{ [name: string]: any }]: a key may be present with
    the value [undefined]. *)
Abbreviation OptionBag := (gmap string (option string)).

(** [bag[key]]: [undefined] both for a missing key and for a key holding
    [undefined]. *)
Definition bag_get (bag : OptionBag) (key : string) : option string :=
  match bag !! key with
  | Some v => v
  | None => None
  end.

(** interfaces.IConnectionProfile. The class behind the interface is not in
    the sources at hand: [password] is kept as the field the interface
    declares, apart from the entry "password" of the option bag. *)
Record ConnectionProfile := mkProfile {
  providerName : string;
  serverName : string;
  authenticationType : string;
  userName : string;
  password : option string;
  databaseName : option string;
  groupId : option string;
  azureTenantId : option string;
  savePassword : bool;
  saveProfile : bool;
  options : OptionBag
}.

Definition set_option (key : string) (v : option string) (p : ConnectionProfile)
  : ConnectionProfile :=
  mkProfile (providerName p) (serverName p) (authenticationType p) (userName p)
            (password p) (databaseName p) (groupId p) (azureTenantId p)
            (savePassword p) (saveProfile p) (<[key := v]> (options p)).

Definition set_password (v : option string) (p : ConnectionProfile)
  : ConnectionProfile :=
  mkProfile (providerName p) (serverName p) (authenticationType p) (userName p)
            v (databaseName p) (groupId p) (azureTenantId p)
            (savePassword p) (saveProfile p) (options p).

Definition set_saveProfile (b : bool) (p : ConnectionProfile)
  : ConnectionProfile :=
  mkProfile (providerName p) (serverName p) (authenticationType p) (userName p)
            (password p) (databaseName p) (groupId p) (azureTenantId p)
            (savePassword p) b (options p).

(** The arguments a connect handler is called with:
    [(connectResult, errorMessage, errorCode, callStack)]. *)
Record Completion := mkCompletion {
  connectResult : bool;
  c_errorMessage : option string;
  c_errorCode : option Z;
  c_callStack : option string
}.

(** IConnectionResult *)
Record IConnectionResult := mkResult {
  connected : bool;
  errorMessage : option string;
  errorCode : option Z;
  callStack : option string;
  errorHandled : option bool;
  connectionProfile : option loc
}.

Definition set_errorHandled (b : bool) (r : IConnectionResult) : IConnectionResult :=
  mkResult (connected r) (errorMessage r) (errorCode r) (callStack r) (Some b)
           (connectionProfile r).

(** IConnectionCallbacks / IConnectableInput: which of the optional
    callbacks are defined. A call of a defined callback is an event of the
    trace. *)
Record IConnectionCallbacks := mkCallbacks {
  onConnectReject : bool;
  onConnectStart : bool;
  onConnectSuccess : bool;
  onDisconnect : bool;
  onConnectCanceled : bool
}.

Record IConnectableInput := mkInput {
  input_uri : option string;
  input_callbacks : IConnectionCallbacks
}.

(** INewConnectionParams, as far as the service reads it. *)
Record INewConnectionParams := mkParams {
  params_input : option IConnectableInput
}.

(** IConnectionCompletionOptions *)
Record IConnectionCompletionOptions := mkOptions {
  saveTheConnection : bool;
  showDialogOnError : bool;   (* showConnectionDialogOnError *)
  showDashboard : bool;
  params : option INewConnectionParams;
  showFirewallRuleOnError : bool
}.

Definition set_showFirewallRuleOnError (b : bool) (o : IConnectionCompletionOptions)
  : IConnectionCompletionOptions :=
  mkOptions (saveTheConnection o) (showDialogOnError o) (showDashboard o)
            (params o) b.

(** The purpose a URI is generated for:
    ['dashboard' | 'insights' | 'connection' | 'notebook']. *)
Inductive Purpose := forDashboard | forInsights | forConnection | forNotebook.

(** What a promise of the service is rejected with. *)
Inductive Thrown :=
| AuthTokenError
    (* new Error("Failed to get Azure account token for connection") *)
| Message (m : option string)
    (* a thrown or reported string, possibly undefined *)
| TypeError
    (* a property read off undefined *)
| DuplicateAttempt
| CollaboratorError (m : string).

Definition connectionNotAcceptedError : Thrown := Message (Some "Connection Not Accepted").

(** ** The connection status registry *)

(** The closure installed as [connectHandler] by [createNewConnection]:
    it captures [uri] and [connection] (and the promise's [resolve]). *)
Record Handler := mkHandler {
  h_uri : string;
  h_connection : loc
}.

(** ConnectionManagementInfo, as far as the service reads it. *)
Record ConnectionManagementInfo := mkInfo {
  info_connectionProfile : loc;
  connecting : bool;
  deleted : bool;
  connectHandler : option Handler
}.

Abbreviation Registry := (gmap string ConnectionManagementInfo).

Module ConnectionStatusManager.

(** Modelled from the spec: the class ConnectionStatusManager is not part
    of the sources at hand. [findConnection(uri) -> AttemptRecord|absent]. *)
Definition findConnection (reg : Registry) (uri : string)
  : option ConnectionManagementInfo := reg !! uri.

(** Modelled from the spec: [isConnecting(uri) -> bool]; the attempt of
    the record is still in flight. *)
Definition isConnecting (reg : Registry) (uri : string) : bool :=
  match reg !! uri with
  | Some r => connecting r
  | None => false
  end.

(** Modelled from the spec: [isConnected(uri) -> bool]; a record exists
    whose attempt is no longer in flight. *)
Definition isConnected (reg : Registry) (uri : string) : bool :=
  match reg !! uri with
  | Some r => negb (connecting r)
  | None => false
  end.

(** Modelled from the spec: [addConnection(descriptor, uri)] fails with
    [DuplicateAttempt] if a non-deleted record already exists for [uri];
    otherwise creates and returns a new record in state connecting. *)
Definition addConnection (reg : Registry) (profile : loc)
    (uri : string) : option (Registry * ConnectionManagementInfo) :=
  let fresh := mkInfo profile true false None in
  match reg !! uri with
  | Some r => if deleted r then Some (<[uri := fresh]> reg, fresh) else None
  | None => Some (<[uri := fresh]> reg, fresh)
  end.

(** Modelled from the spec: [deleteConnection(uri)] removes the record;
    if called while an attempt is in flight, the record is instead marked
    deleted so the in-flight completion can still resolve safely. *)
Definition deleteConnection (reg : Registry) (uri : string) : Registry :=
  match reg !! uri with
  | Some r =>
      if connecting r
      then <[uri := mkInfo (info_connectionProfile r)
                           (connecting r) true (connectHandler r)]> reg
      else delete uri reg
  | None => reg
  end.

(** [connectionInfo.connectHandler = ...] on the record of [uri]. *)
Definition setConnectHandler (reg : Registry) (uri : string) (h : Handler)
  : Registry :=
  alter (λ r, mkInfo (info_connectionProfile r)
                     (connecting r) (deleted r) (Some h)) uri reg.

(** Modelled from the spec: the provider's completion signal ends the
    attempt of [uri]; its record is no longer in flight when the
    completion callback is called. *)
Definition onConnectionComplete (reg : Registry) (uri : string) : Registry :=
  alter (λ r, mkInfo (info_connectionProfile r)
                     false (deleted r) (connectHandler r)) uri reg.

End ConnectionStatusManager.

(** ** Connection groups *)

(** ConnectionProfileGroup, as far as the service reads it: [connections]
    and [children] may each be [undefined]. *)
#[warnings="-register-all"]
Inductive ConnectionProfileGroup :=
  mkGroup (group_name : string)
          (group_connections : option (list ConnectionProfile))
          (group_children : option (list ConnectionProfileGroup)).

Definition connections_of (g : ConnectionProfileGroup) : option (list ConnectionProfile) :=
  match g with mkGroup _ cs _ => cs end.

Definition children_of (g : ConnectionProfileGroup) : option (list ConnectionProfileGroup) :=
  match g with mkGroup _ _ ch => ch end.

(** [item.connections && item.connections.length > 0] *)
Definition has_connections (g : ConnectionProfileGroup) : bool :=
  match connections_of g with
  | Some (_ :: _) => true
  | _ => false
  end.

(** ** The world the service runs in *)

Inductive Event :=
| ConnectRequest (uri : string) (profile : loc)   (* a provider dispatch *)
| DisconnectRequest (uri : string)
| OnConnectStart
| OnConnectSuccess
| OnConnectReject (e : Thrown)
| AddConnectionProfileFired
| DeleteConnectionProfileFired
| ConnectionDialogShown
| DashboardShown
| RecentConnectionAdded
| PasswordSaved
| ConnectionDeletedFromConfiguration (p : ConnectionProfile)
| GroupDeletedFromConfiguration (g : ConnectionProfileGroup)
| Warned.

Record World := mkWorld {
  heap : gmap loc ConnectionProfile;
  connections : Registry;     (* this._connectionStatusManager *)
  trace : list Event
}.

Definition is_dispatch (e : Event) : bool :=
  match e with ConnectRequest _ _ => true | _ => false end.

(** Number of provider dispatches recorded in a trace. *)
Definition dispatches (t : list Event) : nat := length (filter (λ e, is_dispatch e = true) t).

(** ** Promises run to settlement *)

Inductive Outcome (A : Type) :=
| Fulfilled (a : A)
| Rejected (e : Thrown)
| OutOfFuel.
Arguments Fulfilled {A} a.
Arguments Rejected {A} e.
Arguments OutOfFuel {A}.

Definition Async (A : Type) : Type := World → Outcome A * World.

Definition resolve {A : Type} (a : A) : Async A := λ w, (Fulfilled a, w).
Definition throw {A : Type} (e : Thrown) : Async A := λ w, (Rejected e, w).
Definition out_of_fuel {A : Type} : Async A := λ w, (OutOfFuel, w).

Definition bind {A B : Type} (m : Async A) (k : A → Async B) : Async B :=
  λ w, match m w with
       | (Fulfilled a, w') => k a w'
       | (Rejected e, w') => (Rejected e, w')
       | (OutOfFuel, w') => (OutOfFuel, w')
       end.

(** [m.catch(h)] *)
Definition catch {A : Type} (m : Async A) (h : Thrown → Async A) : Async A :=
  λ w, match m w with
       | (Rejected e, w') => h e w'
       | r => r
       end.

#[global] Instance Async_ret : MRet Async := @resolve.
#[global] Instance Async_bind : MBind Async := λ A B k m, bind m k.

Definition get_world : Async World := λ w, (Fulfilled w, w).
Definition emit (e : Event) : Async unit :=
  λ w, (Fulfilled tt, mkWorld (heap w) (connections w) (trace w ++ [e])).
Definition set_connections (reg : Registry) : Async unit :=
  λ w, (Fulfilled tt, mkWorld (heap w) reg (trace w)).
Definition set_heap (h : gmap loc ConnectionProfile) : Async unit :=
  λ w, (Fulfilled tt, mkWorld h (connections w) (trace w)).

Definition with_heap (w : World) (h : gmap loc ConnectionProfile) : World :=
  mkWorld h (connections w) (trace w).
Definition with_connections (w : World) (reg : Registry) : World :=
  mkWorld (heap w) reg (trace w).

(** Reading a profile through its reference. *)
Definition deref (l : loc) : Async ConnectionProfile :=
  λ w, match heap w !! l with
       | Some p => (Fulfilled p, w)
       | None => (Rejected TypeError, w)
       end.

(** An in-place update of the object [l] refers to. *)
Definition update (l : loc) (f : ConnectionProfile → ConnectionProfile) : Async unit :=
  λ w, match heap w !! l with
       | Some p => (Fulfilled tt, mkWorld (<[l := f p]> (heap w)) (connections w) (trace w))
       | None => (Rejected TypeError, w)
       end.

(** [if (cb) { cb(...) }] for an optional callback. *)
Definition call_if (defined : bool) (e : Event) : Async unit :=
  if defined then emit e else resolve tt.

(** ** Collaborators *)

(** azdata.Account, as far as the service reads it. *)
Record Account := mkAccount {
  accountId : string;      (* account.key.accountId *)
  isStale : bool
}.

(** IAccountManagementService. [refreshAccount] throws ([None]) if the user
    cancels the dialog. The token set is a plain object keyed by tenant:
    its own entries, each with its [token], in the order [Object.values]
    enumerates them. *)
Class IAccountManagementService := {
  getAccountsForProvider : string → option (list Account);
  refreshAccount : Account → option Account;
  getSecurityToken : Account → list (string * string)
}.

Record FirewallResponse := mkFirewallResponse {
  canHandleFirewallRule : bool;
  ipAddress : string;
  resourceProviderId : string
}.

(** IResourceProviderService *)
Class IResourceProviderService := {
  handleFirewallRule : option Z → option string → string → FirewallResponse;
  showFirewallRuleDialog : ConnectionProfile → string → string → bool
}.

(** ConnectionStore. [addSavedPassword] is given the store of objects and
    the profile; it resolves with the store of objects as it leaves it, the
    profile to connect with (a copy or the profile itself) and whether a
    saved credential was found, or rejects ([None]); [saveProfile]
    ([store_saveProfile]), [savePassword] ([store_savePassword]),
    [deleteConnectionFromConfiguration] and [deleteGroupFromConfiguration]
    resolve ([true]) or reject; [addRecentConnection] resolves ([None]) or
    rejects with an error. *)
Class ConnectionStore := {
  addSavedPassword :
    gmap loc ConnectionProfile → loc → option (gmap loc ConnectionProfile * loc * bool);
  isPasswordRequired : ConnectionProfile → bool;
  store_saveProfile : ConnectionProfile → bool;
  store_savePassword : ConnectionProfile → bool;
  addRecentConnection : ConnectionProfile → option string;
  getConnectionProfileGroups : list ConnectionProfileGroup;
  deleteConnectionFromConfiguration : ConnectionProfile → bool;
  deleteGroupFromConfiguration : ConnectionProfileGroup → bool
}.

(** How a disconnect promise settles. *)
Inductive Settled := FulfilledWith (b : bool) | RejectedWith (e : Thrown).

(** The provider layer and what else happens while an attempt is in flight.
    The [n]-th dispatch (counting from 0) is answered by
    [connectionComplete n]; [inFlightDeletes n] lists the owner URIs whose
    deletion is requested from the registry before that answer arrives. *)
Class ConnectionProvider := {
  connectionComplete : nat → string → Completion;
  inFlightDeletes : nat → list string;
  disconnectSettles : string → Settled
}.

(** Constants, Utils and the parts of the registry and of the dialog service
    that are taken as given. *)
Class Platform := {
  azureMFA : string;                                            (* Constants.azureMFA *)
  generateUri : ConnectionProfile → option Purpose → string;    (* Utils.generateUri *)
  getOriginalOwnerUri : Registry → string → string;
  updateConnectionProfile : Registry → loc → string → Registry * string;
  showDialog : option string → bool   (* the dialog opens, or showDialog rejects *)
}.

(** ** The service *)

Section ConnectionManagementService.

Context {accounts : IAccountManagementService}
        {resources : IResourceProviderService}
        {store : ConnectionStore}
        {provider : ConnectionProvider}
        {platform : Platform}.

Import ConnectionStatusManager.

(** *** Federated token resolution *)

(** The token set is a plain object, so [tokensByTenant[key]] answers its
    own keys and, for want of one, the properties every object inherits
    from [Object.prototype]. Each of these is a function or an object,
    hence truthy, and has no [token]. *)
Definition inheritedKeys : list string :=
  ["constructor"; "hasOwnProperty"; "isPrototypeOf"; "propertyIsEnumerable";
   "toLocaleString"; "toString"; "valueOf"; "__proto__"; "__defineGetter__";
   "__defineSetter__"; "__lookupGetter__"; "__lookupSetter__"].

(** The token chosen from [tokensByTenant]: [tokensByTenant[tenantId].token]
    when [tenantId && tokensByTenant[tenantId]], which is the token of an
    own entry and [undefined] for an inherited property; else the token of
    the first value of the set. The result is [None] when the set is empty
    and the tenant has chosen nothing ([return false]); the token chosen
    may be [undefined]. *)
Definition pickToken (tenantId : option string) (tokensByTenant : list (string * string))
  : option (option string) :=
  let first :=
    match tokensByTenant with
    | [] => None
    | (_, token) :: _ => Some (Some token)
    end in
  match tenantId with
  | Some t =>
      if truthy_str tenantId then
        match list_find (λ kv, fst kv = t) tokensByTenant with
        | Some (_, (_, token)) => Some (Some token)
        | None => if bool_decide (t ∈ inheritedKeys) then Some None else first
        end
      else first
  | None => first
  end.

Definition fillInOrClearAzureToken (connection : loc) : Async bool :=
  p ← deref connection;
  if negb (String.eqb (authenticationType p) azureMFA) then
    update connection (set_option "azureAccountToken" None);;
    resolve true
  else if truthy_str (bag_get (options p) "azureAccountToken") then
    resolve true
  else
    match getAccountsForProvider "azurePublicCloud" with
    | Some (a :: rest) =>
        match list_find (λ account, accountId account = userName p) (a :: rest) with
        | Some (_, account) =>
            match (if isStale account then refreshAccount account else Some account) with
            | None => resolve false
            | Some account' =>
                match pickToken (azureTenantId p) (getSecurityToken account') with
                | None => resolve false
                | Some token =>
                    update connection (set_option "azureAccountToken" token);;
                    update connection (set_option "password" (Some ""));;
                    resolve true
                end
            end
        | None => resolve false
        end
    | _ => resolve false
    end.

(** The token the account delegate yields for a profile, if any: what
    [fillInOrClearAzureToken] stores when it has to ask, which may be
    [undefined]. *)
Definition fetchToken (p : ConnectionProfile) : option (option string) :=
  match getAccountsForProvider "azurePublicCloud" with
  | Some (a :: rest) =>
      match list_find (λ account, accountId account = userName p) (a :: rest) with
      | Some (_, account) =>
          match (if isStale account then refreshAccount account else Some account) with
          | None => None
          | Some account' => pickToken (azureTenantId p) (getSecurityToken account')
          end
      | None => None
      end
  | _ => None
  end.

(** The account whose tokens are asked for: [a] itself, or what refreshing
    a stale [a] returns. *)
Definition refreshed (a a' : Account) : Prop :=
  (isStale a = false ∧ a' = a) ∨ (isStale a = true ∧ refreshAccount a = Some a').

(** *** The connecting life cycle *)

(** The body of the handler [createNewConnection] installs; the value is
    what the handler passes to [resolve]. *)
Definition callConnectHandler (h : Handler) (c : Completion) : Async IConnectionResult :=
  w ← get_world;
  let uri := h_uri h in
  match findConnection (connections w) uri with
  | Some (mkInfo _ _ true _) =>
      set_connections (deleteConnection (connections w) uri);;
      resolve (mkResult (connectResult c) None None None (Some true) (Some (h_connection h)))
  | _ =>
      if truthy_str (c_errorMessage c) then
        set_connections (deleteConnection (connections w) uri);;
        resolve (mkResult (connectResult c) (c_errorMessage c) (c_errorCode c)
                          (c_callStack c) None (Some (h_connection h)))
      else
        resolve (mkResult (connectResult c) (c_errorMessage c) (c_errorCode c)
                          (c_callStack c) None (Some (h_connection h)))
  end.

(** Modelled from the spec: [sendConnectRequest] is not part of the
    sources at hand; it issues the provider dispatch. *)
Definition sendConnectRequest (connection : loc) (uri : string) : Async unit :=
  emit (ConnectRequest uri connection).

Definition createNewConnection (uri : string) (connection : loc) : Async IConnectionResult :=
  w ← get_world;
  match addConnection (connections w) connection uri with
  | None => throw DuplicateAttempt
  | Some (reg, _) =>
      let handler := mkHandler uri connection in
      let n := dispatches (trace w) in
      set_connections (setConnectHandler reg uri handler);;
      sendConnectRequest connection uri;;
      (* the attempt is in flight *)
      w1 ← get_world;
      set_connections (foldl deleteConnection (connections w1) (inFlightDeletes n));;
      (* the provider's completion arrives and calls the handler *)
      w2 ← get_world;
      set_connections (onConnectionComplete (connections w2) uri);;
      callConnectHandler handler (connectionComplete n uri)
  end.

(** [connectionManagementInfo.connectHandler(...)] on a record that may
    be [undefined]; a call after the promise is settled changes the
    registry only. *)
Definition recallConnectHandler (info : option ConnectionManagementInfo) (c : Completion)
  : Async unit :=
  match info with
  | Some (mkInfo _ _ _ (Some h)) => callConnectHandler h c;; resolve tt
  | _ => throw TypeError
  end.

(** The MRU store's promise is taken to settle before the service's next
    step; what its callbacks throw is not observed. *)
Definition tryAddActiveConnection (connectionManagementInfo : option ConnectionManagementInfo)
    (newConnection : loc) (addToMru : bool) : Async unit :=
  if addToMru then
    p ← deref newConnection;
    match addRecentConnection p with
    | None =>
        emit RecentConnectionAdded;;
        catch (recallConnectHandler connectionManagementInfo (mkCompletion true None None None))
              (λ _, resolve tt)
    | Some err =>
        catch (recallConnectHandler connectionManagementInfo
                 (mkCompletion false (Some err) None None))
              (λ _, resolve tt)
    end
  else
    recallConnectHandler connectionManagementInfo (mkCompletion false None None None).

Definition saveToSettings (id : string) (connection : loc) : Async string :=
  p ← deref connection;
  if store_saveProfile p then
    w ← get_world;
    let '(reg, newId) := updateConnectionProfile (connections w) connection id in
    set_connections reg;;
    resolve newId
  else throw (CollaboratorError "saveProfile").

Definition doActionsAfterConnectionComplete (uri : string)
    (opts : IConnectionCompletionOptions) : Async unit :=
  w ← get_world;
  match findConnection (connections w) uri with
  | Some _ => call_if (showDashboard opts) DashboardShown
  | None => throw TypeError
  end.

Definition handleFirewallRuleError (connection : ConnectionProfile)
    (connectionResult : IConnectionResult) : bool * IConnectionResult :=
  let response := handleFirewallRule (errorCode connectionResult)
                    (errorMessage connectionResult) (providerName connection) in
  if canHandleFirewallRule response then
    (showFirewallRuleDialog connection (ipAddress response) (resourceProviderId response),
     set_errorHandled true connectionResult)
  else (false, connectionResult).

Definition defaultCallbacks : IConnectionCallbacks := mkCallbacks true true true true true.

Definition defaultOptions : IConnectionCompletionOptions :=
  mkOptions false false false None true.

(** [handleConnectionError] retries through [connectWithOptions], which
    is passed in as [retry]. *)
Definition handleConnectionError
    (retry : loc → option string → option IConnectionCompletionOptions →
             option IConnectionCallbacks → Async IConnectionResult)
    (connection : loc) (uri : string) (opts : IConnectionCompletionOptions)
    (callbacks : IConnectionCallbacks) (connectionResult : IConnectionResult)
    : Async IConnectionResult :=
  if showFirewallRuleOnError opts && truthy_num (errorCode connectionResult) then
    p ← deref connection;
    let '(success, connectionResult) := handleFirewallRuleError p connectionResult in
    if success then
      retry connection (Some uri) (Some (set_showFirewallRuleOnError false opts))
            (Some callbacks)
    else
      call_if (onConnectReject callbacks) (OnConnectReject connectionNotAcceptedError);;
      resolve connectionResult
  else
    call_if (onConnectReject callbacks) (OnConnectReject connectionNotAcceptedError);;
    resolve connectionResult.

(** What [connectWithOptions] does with a result that is connected. *)
Definition afterConnected (connection : loc) (uri : string)
    (opts : IConnectionCompletionOptions) (callbacks : IConnectionCallbacks)
    (connectionResult : IConnectionResult) : Async IConnectionResult :=
  w ← get_world;
  let connectionMgmtInfo := findConnection (connections w) uri in
  tryAddActiveConnection connectionMgmtInfo connection (saveTheConnection opts);;
  call_if (onConnectSuccess callbacks) OnConnectSuccess;;
  (if saveTheConnection opts then
     value ← saveToSettings uri connection;
     emit AddConnectionProfileFired;;
     doActionsAfterConnectionComplete value opts
   else
     update connection (set_saveProfile false);;
     doActionsAfterConnectionComplete uri opts);;
  p ← deref connection;
  if savePassword p then
    if store_savePassword p
    then emit PasswordSaved;; resolve connectionResult
    else throw (CollaboratorError "savePassword")
  else resolve connectionResult.

(** [connectWithOptions] from the token resolution on: the token is
    resolved, the connection is dispatched and its result is handled.
    [retry] is [connectWithOptions] itself. *)
Definition connectResolved
    (retry : loc → option string → option IConnectionCompletionOptions →
             option IConnectionCallbacks → Async IConnectionResult)
    (connection : loc) (uri : string) (opts : IConnectionCompletionOptions)
    (callbacks : IConnectionCallbacks) : Async IConnectionResult :=
  tokenFillSuccess ← fillInOrClearAzureToken connection;
  if negb tokenFillSuccess then throw AuthTokenError
  else
    catch
      (connectionResult ← createNewConnection uri connection;
       if connected connectionResult then
         afterConnected connection uri opts callbacks connectionResult
       else if truthy_str (errorMessage connectionResult) then
         catch
           (handleConnectionError retry connection uri opts callbacks connectionResult)
           (λ handleConnectionError,
              call_if (onConnectReject callbacks) (OnConnectReject handleConnectionError);;
              throw handleConnectionError)
       else
         call_if (onConnectReject callbacks) (OnConnectReject connectionNotAcceptedError);;
         resolve connectionResult)
      (λ err,
         call_if (onConnectReject callbacks) (OnConnectReject err);;
         throw err).

(** [connectWithOptions] and [handleConnectionError] call each other; the
    fuel bounds the nesting of these calls. *)
Fixpoint connectWithOptions (fuel : nat) (connection : loc) (uri : option string)
    (opts : option IConnectionCompletionOptions) (cbs : option IConnectionCallbacks)
    : Async IConnectionResult :=
  match fuel with
  | O => out_of_fuel
  | S fuel' =>
      p0 ← deref connection;
      update connection (set_option "groupId" (groupId p0));;
      update connection (set_option "databaseDisplayName" (databaseName p0));;
      p1 ← deref connection;
      w ← get_world;
      let uri := if truthy_str uri then default "" uri else generateUri p1 None in
      let uri := getOriginalOwnerUri (connections w) uri in
      let callbacks := default defaultCallbacks cbs in
      let opts := default defaultOptions opts in
      call_if (onConnectStart callbacks) OnConnectStart;;
      connectResolved (connectWithOptions fuel') connection uri opts callbacks
  end.

Definition connectAndSaveProfile (fuel : nat) (connection : loc) (uri : option string)
    (opts : option IConnectionCompletionOptions) (callbacks : option IConnectionCallbacks)
    : Async IConnectionResult :=
  let opts := match opts with
              | Some o => o
              | None => mkOptions true false false None true
              end in
  connectWithOptions fuel connection uri (Some opts) callbacks.

(** The dialog is an event of the trace; what the user does in it is not
    part of the call. *)
Definition showConnectionDialogOnError (connection : loc) (owner : IConnectableInput)
    (connectionResult : IConnectionResult) (opts : option IConnectionCompletionOptions)
    : Async IConnectionResult :=
  match opts with
  | Some o =>
      if showDialogOnError o then
        emit ConnectionDialogShown;;
        if showDialog (input_uri owner) then resolve connectionResult
        else throw (CollaboratorError "showDialog")
      else resolve connectionResult
  | None => resolve connectionResult
  end.

(** Modelled from the spec: [findConnectionProfile] of the registry is not
    part of the sources at hand; the record of a profile is the one of
    the URI generated for it. *)
Definition findConnectionProfile (reg : Registry) (p : ConnectionProfile)
  : option ConnectionManagementInfo :=
  findConnection reg (generateUri p None).

(** The continuation [async result => { ... }] of [tryConnect]:
    [newConnection] is [result.profile] and [savedCred] is
    [result.savedCred]. *)
Definition tryConnectWith (fuel : nat) (connection : loc) (owner : IConnectableInput)
    (opts : option IConnectionCompletionOptions) (newConnection : loc) (savedCred : bool)
    : Async IConnectionResult :=
  p ← deref newConnection;
  foundPassword ←
    (if negb savedCred && isPasswordRequired p then
       c ← deref connection;
       w ← get_world;
       match findConnectionProfile (connections w) c with
       | Some existingConnection =>
           (* existingConnection && existingConnection.connectionProfile *)
           match heap w !! info_connectionProfile existingConnection with
           | Some e =>
               update newConnection (set_password (password e));;
               resolve true
           | None => resolve savedCred
           end
       | None => resolve savedCred
       end
     else resolve savedCred);
  tokenFillSuccess ← fillInOrClearAzureToken newConnection;
  p ← deref newConnection;
  if (negb foundPassword && isPasswordRequired p && negb (truthy_str (password p)))
     || negb tokenFillSuccess
  then
    showConnectionDialogOnError connection owner
      (mkResult false None None None None None) opts
  else
    connectionResult ← connectWithOptions fuel newConnection (input_uri owner) opts
                         (Some (input_callbacks owner));
    if negb (connected connectionResult)
       && negb (truthy_bool (errorHandled connectionResult))
    then showConnectionDialogOnError connection owner connectionResult opts
    else resolve connectionResult.

Definition tryConnect (fuel : nat) (connection : loc) (owner : IConnectableInput)
    (opts : option IConnectionCompletionOptions) : Async IConnectionResult :=
  w ← get_world;
  match addSavedPassword (heap w) connection with
  | None => throw (CollaboratorError "addSavedPassword")
  | Some (h, newConnection, savedCred) =>
      set_heap h;;
      tryConnectWith fuel connection owner opts newConnection savedCred
  end.

Definition connect (fuel : nat) (connection : loc) (uri : option string)
    (opts : option IConnectionCompletionOptions) (callbacks : option IConnectionCallbacks)
    : Async IConnectionResult :=
  uri ← (if truthy_str uri then resolve (default "" uri)
         else p ← deref connection; resolve (generateUri p None));
  let input := match opts with
               | Some o => match params o with
                           | Some prm => params_input prm
                           | None => None
                           end
               | None => None
               end in
  let input :=
    match input with
    | Some i => i
    | None =>
        mkInput (Some uri)
          (match callbacks with
           | Some c => c
           | None => mkCallbacks false false false false false
           end)
    end in
  (if decide (Some uri = input_uri input) then resolve tt else emit Warned);;
  tryConnect fuel connection input opts.

Definition connectIfNotConnected (fuel : nat) (connection : loc) (purpose : option Purpose)
    (saveConnection : bool) : Async string :=
  p ← deref connection;
  let ownerUri := generateUri p purpose in
  w ← get_world;
  if isConnected (connections w) ownerUri then
    resolve (getOriginalOwnerUri (connections w) ownerUri)
  else
    let opts := mkOptions saveConnection true
                  (match purpose with Some forDashboard => true | _ => false end) None true in
    connectionResult ← connect fuel connection (Some ownerUri) (Some opts) None;
    if connected connectionResult then
      w ← get_world;
      resolve (getOriginalOwnerUri (connections w) ownerUri)
    else throw (Message (errorMessage connectionResult)).

(** The service's [addSavedPassword]. *)
Definition service_addSavedPassword (connectionProfile : loc) : Async loc :=
  fillInOrClearAzureToken connectionProfile;;
  w ← get_world;
  match addSavedPassword (heap w) connectionProfile with
  | Some (h, profile, _) => set_heap h;; resolve profile
  | None => throw (CollaboratorError "addSavedPassword")
  end.

(** *** Queries *)

Definition isProfileConnected (reg : Registry) (connectionProfile : ConnectionProfile)
  : option bool :=
  let connectionManagement := findConnectionProfile reg connectionProfile in
  js_and_obj connectionManagement (λ r, negb (connecting r)).

Definition isProfileConnecting (reg : Registry) (connectionProfile : ConnectionProfile)
  : option bool :=
  let connectionManagement := findConnectionProfile reg connectionProfile in
  js_and_obj connectionManagement (λ r, connecting r).

(** *** Token invariants *)

(** The object at [l] is a profile of authentication type [a]. *)
Definition HasAuth (l : loc) (a : string) (w : World) : Prop :=
  ∃ p, heap w !! l = Some p ∧ authenticationType p = a.

(** The object at [l] is a profile that is not federated and whose token
    option is [undefined]. *)
Definition Cleared (l : loc) (w : World) : Prop :=
  ∃ p, heap w !! l = Some p ∧ authenticationType p ≠ azureMFA
       ∧ bag_get (options p) "azureAccountToken" = None.

(** After a run, the profile at [l] still has the authentication type of
    [p], and no token unless that type is the federated one. *)
Definition TokenSettled (l : loc) (p : ConnectionProfile) (w : World) : Prop :=
  ∃ p', heap w !! l = Some p'
        ∧ authenticationType p' = authenticationType p
        ∧ (authenticationType p ≠ azureMFA
           → bag_get (options p') "azureAccountToken" = None).

(** Whether [fillInOrClearAzureToken] succeeds for a profile. *)
Definition fillSucceeds (p : ConnectionProfile) : bool :=
  if negb (String.eqb (authenticationType p) azureMFA) then true
  else if truthy_str (bag_get (options p) "azureAccountToken") then true
  else bool_decide (is_Some (fetchToken p)).

(** *** The recovery scenario *)

(** The provider answers every dispatch with an error message and an
    error code. *)
Definition alwaysFails : Prop :=
  ∀ n uri, connectResult (connectionComplete n uri) = false
           ∧ truthy_str (c_errorMessage (connectionComplete n uri)) = true
           ∧ truthy_num (c_errorCode (connectionComplete n uri)) = true.

(** No deletion is requested while an attempt is in flight. *)
Definition nothingInFlight : Prop := ∀ n, inFlightDeletes n = [].

(** The remediation delegate can handle every error, and its dialog
    succeeds. *)
Definition alwaysRemediates : Prop :=
  (∀ code message providerId,
     canHandleFirewallRule (handleFirewallRule code message providerId) = true)
  ∧ (∀ p ip rp, showFirewallRuleDialog p ip rp = true).

(** *** Groups *)

(** The loop of [doHasRegisteredServers],
    [for (let i = 0; root.length; ++i)] over a non-empty [root]: its
    condition stays true, and it is left through a [return] only. [rec]
    is the recursive call on [item.children]; [steps] bounds the number of
    iterations. *)
Fixpoint registeredLoop (rec : option (list ConnectionProfileGroup) → option bool)
    (root : list ConnectionProfileGroup) (steps : nat) (i : nat) : option bool :=
  match steps with
  | O => None
  | S steps' =>
      match root !! i with
      | None => Some false                      (* !item *)
      | Some item =>
          if has_connections item then Some true
          else
            match rec (children_of item) with
            | None => None
            | Some true => Some true
            | Some false => registeredLoop rec root steps' (S i)
            end
      end
  end.

(** The fuel bounds the nesting of the calls and the iterations of each
    loop. *)
Fixpoint doHasRegisteredServers (fuel : nat) (root : option (list ConnectionProfileGroup))
    : option bool :=
  match fuel with
  | O => None
  | S fuel' =>
      match root with
      | None | Some [] => Some false            (* !root || root.length === 0 *)
      | Some root => registeredLoop (doHasRegisteredServers fuel') root fuel' 0
      end
  end.

Definition hasRegisteredServers (fuel : nat) : option bool :=
  let groups := getConnectionProfileGroups in
  doHasRegisteredServers fuel (Some groups).

(** [getConnectionsInGroup]: the connections of a group and of the groups
    below it. *)
Fixpoint getConnectionsInGroup (group : ConnectionProfileGroup) : list ConnectionProfile :=
  match group with
  | mkGroup _ cs ch =>
      (match cs with
       | Some (c :: l) => c :: l
       | _ => []
       end) ++
      (match ch with
       | Some (c :: l) => flat_map getConnectionsInGroup (c :: l)
       | _ => []
       end)
  end.

(** Modelled from the spec: [doDisconnect] is not part of the sources at
    hand. [Provider.disconnect(uri) -> Promise<bool>]; the record of a
    disconnected URI is removed from the registry. *)
Definition doDisconnect (uri : string) : Async bool :=
  emit (DisconnectRequest uri);;
  match disconnectSettles uri with
  | FulfilledWith true =>
      w ← get_world;
      set_connections (deleteConnection (connections w) uri);;
      resolve true
  | FulfilledWith false => resolve false
  | RejectedWith e => throw e
  end.

(** [Promise.all]: the promises are all under way when it is called; it
    is fulfilled with their values when all are, and rejected when one
    is. *)
Fixpoint promise_all {A : Type} (ps : list (Async A)) : Async (list A) :=
  match ps with
  | [] => resolve []
  | p :: ps' =>
      λ w, match p w with
           | (Fulfilled a, w') =>
               match promise_all ps' w' with
               | (Fulfilled l, w'') => (Fulfilled (a :: l), w'')
               | r => r
               end
           | (Rejected e, w') => (Rejected e, snd (promise_all ps' w'))
           | (OutOfFuel, w') => (OutOfFuel, w')
           end
  end.

Definition deleteConnection (connection : ConnectionProfile) : Async bool :=
  let uri := generateUri connection None in
  w ← get_world;
  if isConnected (connections w) uri || isConnecting (connections w) uri then
    result ← doDisconnect uri;
    if (result : bool) then
      if deleteConnectionFromConfiguration connection then
        emit (ConnectionDeletedFromConfiguration connection);;
        emit DeleteConnectionProfileFired;;
        resolve true
      else throw (CollaboratorError "deleteConnectionFromConfiguration")
    else resolve false
  else
    if deleteConnectionFromConfiguration connection then
      emit (ConnectionDeletedFromConfiguration connection);;
      emit DeleteConnectionProfileFired;;
      resolve true
    else throw (CollaboratorError "deleteConnectionFromConfiguration").

(** [deleteConnectionGroup]. The static
    [ConnectionProfileGroup.getConnectionsInGroup] it calls is not part of
    the sources at hand. Modelled from the spec: it gives every descendant
    connection of the group, which is what the service's private method of
    the same name, [getConnectionsInGroup], computes; that method stands
    for it here. *)
Definition deleteConnectionGroup (group : ConnectionProfileGroup) : Async bool :=
  let connections_in_group := getConnectionsInGroup group in
  w ← get_world;
  let disconnected :=
    omap (λ con, let uri := generateUri con None in
                 if isConnected (connections w) uri then Some (doDisconnect uri)
                 else None)
         connections_in_group in
  catch
    (promise_all disconnected;;
     if deleteGroupFromConfiguration group then
       emit (GroupDeletedFromConfiguration group);;
       emit DeleteConnectionProfileFired;;
       resolve true
     else throw (CollaboratorError "deleteGroupFromConfiguration"))
    (λ _, resolve false).

End ConnectionManagementService.

(** *** Known connections *)

(** [ConnectionProfile.id], the active connections of the registry
    ([getActiveConnectionProfiles]) and the recently used connections of
    the store ([getRecentlyUsedConnections]). *)
Class ProfileSources := {
  profileId : ConnectionProfile → string;
  getActiveConnections : list ConnectionProfile;
  getRecentConnections : list ConnectionProfile
}.

Section KnownConnections.

Context {store : ConnectionStore} {sources : ProfileSources}.

(** [connections.find(existingConnection => existingConnection.id === conn.id)
    !== undefined] *)
Definition connectionExists (connections : list ConnectionProfile)
    (conn : ConnectionProfile) : bool :=
  match list_find (λ existingConnection, profileId existingConnection = profileId conn)
                  connections with
  | Some _ => true
  | None => false
  end.

(** [if (!connectionExists(connection)) { connections.push(connection); }]:
    [connectionExists] reads the array that is being pushed to. *)
Definition pushUnlessExists (connections : list ConnectionProfile)
    (connection : ConnectionProfile) : list ConnectionProfile :=
  if connectionExists connections connection then connections
  else connections ++ [connection].

Definition getConnections (activeConnectionsOnly : option bool)
  : list ConnectionProfile :=
  let connections := getActiveConnections in
  if negb (truthy_bool activeConnectionsOnly) then
    let connections := foldl pushUnlessExists connections getRecentConnections in
    let groups := getConnectionProfileGroups in
    match groups with
    | [] => connections                     (* groups && groups.length > 0 *)
    | _ :: _ =>
        foldl (λ connections group,
                 foldl pushUnlessExists connections (getConnectionsInGroup group))
              connections groups
    end
  else connections.

End KnownConnections.

(** ** The server group controller *)

Module ServerGroupController.

(** References to group objects: positions in the store of objects. *)
Definition gref := nat.

(** ConnectionProfileGroup, as far as the controller reads and writes it. *)
Record GroupFields := mkGroupFields {
  cpg_name : string;
  cpg_parent : option gref;
  cpg_id : option string;
  cpg_color : option string;
  cpg_description : option string
}.

(** ServerGroupViewModel: what the dialog holds. *)
Record ServerGroupViewModel := mkViewModel {
  groupName : string;
  groupColor : option string;
  groupDescription : option string
}.

(** What the controller does to the dialog, to the services and to its
    callbacks. *)
Inductive Effect :=
| DialogCreated
| DialogRendered
| DialogOpened
| DialogClosed
| EditGroupRequested (group : gref)
| SaveProfileGroupRequested (newGroup : GroupFields)
| OnAddGroupCalled
| OnCloseCalled
| ErrorShown (err : Thrown).

(** The controller, with the group objects it can reach. The dialog, once
    created, shows the view model of the controller. *)
Record Controller := mkController {
  objects : list GroupFields;
  _serverGroupDialog : bool;       (* the dialog has been created *)
  _callbacks : bool;               (* callbacks are defined *)
  _group : option gref;
  _viewModel : ServerGroupViewModel;
  effects : list Effect
}.

(** [new ServerGroupViewModel(group, colors)], and [editGroup] and
    [saveProfileGroup] of the connection management service, which
    resolve ([None]) or reject with an error. *)
Class GroupServices := {
  newViewModel : option GroupFields → ServerGroupViewModel;
  editGroup : GroupFields → option Thrown;
  saveProfileGroup : GroupFields → option Thrown
}.

Section Controller.

Context {services : GroupServices}.

Definition copyConnectionProfileGroup (group : GroupFields) : GroupFields :=
  mkGroupFields (cpg_name group) (cpg_parent group) (cpg_id group) (cpg_color group)
                (cpg_description group).

(** The handler of the dialog's [onAddServerGroup] event, run until the
    promise it starts is settled. A [then] callback that reads a property
    of a dialog that does not exist throws, which the [catch] that follows
    handles. *)
Definition handleOnAddServerGroup (c : Controller) : Controller :=
  let vm := _viewModel c in
  match _group c with
  | Some g =>
      match objects c !! g with
      | Some group =>
          let tempGroup := length (objects c) in
          let objs := objects c ++ [copyConnectionProfileGroup group] in
          let edited := mkGroupFields (groupName vm) (cpg_parent group) (cpg_id group)
                                      (groupColor vm) (groupDescription vm) in
          let objs := <[g := edited]> objs in
          let requested := effects c ++ [EditGroupRequested g] in
          let rolledBack err :=
            mkController objs (_serverGroupDialog c) (_callbacks c) (Some tempGroup) vm
                         (requested ++ [ErrorShown err]) in
          match editGroup edited with
          | None =>
              if _serverGroupDialog c then
                mkController objs true (_callbacks c) (Some g) vm
                             (requested ++ [DialogClosed])
              else rolledBack TypeError
          | Some err => rolledBack err
          end
      | None => c                       (* [_group] is an object or null *)
      end
  | None =>
      let newGroup := mkGroupFields (groupName vm) None None (groupColor vm)
                                    (groupDescription vm) in
      let requested := effects c ++ [SaveProfileGroupRequested newGroup] in
      let shown err :=
        mkController (objects c) (_serverGroupDialog c) (_callbacks c) None vm
                     (requested ++ [ErrorShown err]) in
      match saveProfileGroup newGroup with
      | None =>
          if _serverGroupDialog c then
            mkController (objects c) true (_callbacks c) None vm
                         (requested
                          ++ (if _callbacks c then [OnAddGroupCalled] else [])
                          ++ [DialogClosed])
          else shown TypeError
      | Some err => shown err
      end
  end.

Definition handleOnClose (c : Controller) : Controller :=
  if _callbacks c then
    mkController (objects c) (_serverGroupDialog c) (_callbacks c) (_group c)
                 (_viewModel c) (effects c ++ [OnCloseCalled])
  else c.

(** The promise [openServerGroupDialog] returns is never settled; its
    executor opens the dialog. *)
Definition openServerGroupDialog (c : Controller) : Controller :=
  if negb (_serverGroupDialog c) then
    mkController (objects c) true (_callbacks c) (_group c) (_viewModel c)
                 (effects c ++ [DialogCreated; DialogRendered; DialogOpened])
  else
    mkController (objects c) true (_callbacks c) (_group c) (_viewModel c)
                 (effects c ++ [DialogOpened]).

Definition showCreateGroupDialog (callbacks : bool) (c : Controller) : Controller :=
  openServerGroupDialog
    (mkController (objects c) (_serverGroupDialog c) callbacks None (newViewModel None)
                  (effects c)).

Definition showEditGroupDialog (group : gref) (c : Controller) : Controller :=
  openServerGroupDialog
    (mkController (objects c) (_serverGroupDialog c) (_callbacks c) (Some group)
                  (newViewModel (objects c !! group)) (effects c)).

(** What happens to a controller: its two public methods are called, the
    user changes what the dialog holds, and the dialog raises its events. *)
Inductive Call :=
| ShowCreateGroupDialog (callbacks : bool)
| ShowEditGroupDialog (group : gref)
| Input (vm : ServerGroupViewModel)
| AddServerGroup
| Close.

Definition call (c : Controller) (x : Call) : Controller :=
  match x with
  | ShowCreateGroupDialog callbacks => showCreateGroupDialog callbacks c
  | ShowEditGroupDialog group => showEditGroupDialog group c
  | Input vm =>
      mkController (objects c) (_serverGroupDialog c) (_callbacks c) (_group c) vm
                   (effects c)
  | AddServerGroup => handleOnAddServerGroup c
  | Close => handleOnClose c
  end.

End Controller.

(** A controller that has not been used. *)
Definition initial (objects : list GroupFields) : Controller :=
  mkController objects false false None (mkViewModel "" None None) [].

Definition is_render (e : Effect) : bool :=
  match e with DialogRendered => true | _ => false end.

Definition is_show (x : Call) : bool :=
  match x with
  | ShowCreateGroupDialog _ | ShowEditGroupDialog _ => true
  | _ => false
  end.

End ServerGroupController.

(** ** Notions of the properties *)

(** [InForest root g]: the group [g] is in the list [root] or below one of
    its groups. *)
Inductive InForest : list ConnectionProfileGroup → ConnectionProfileGroup → Prop :=
| InForest_here root g :
    g ∈ root → InForest root g
| InForest_below root parent l g :
    parent ∈ root → children_of parent = Some l → InForest l g → InForest root g.

(** Depth-first search for a non-empty connection list, by recursion on the
    tree. *)
Fixpoint registeredIn (g : ConnectionProfileGroup) : bool :=
  match g with
  | mkGroup _ cs ch =>
      match cs with
      | Some (_ :: _) => true
      | _ => match ch with
             | Some l => existsb registeredIn l
             | None => false
             end
      end
  end.

(** The search below a group. *)
Definition childrenRegistered (g : ConnectionProfileGroup) : bool :=
  match children_of g with
  | Some l => existsb registeredIn l
  | None => false
  end.

(** [same_but_secrets p p' keys]: the profile [p'] is [p] but for the
    entries of its option bag under [keys] and for its password. The class
    of the profiles is not in the sources at hand, so whether its
    [password] is read off the option bag is not known; nothing is said of
    the password here. *)
Definition same_but_secrets (p p' : ConnectionProfile) (keys : list string) : Prop :=
  providerName p' = providerName p ∧ serverName p' = serverName p
  ∧ authenticationType p' = authenticationType p ∧ userName p' = userName p
  ∧ databaseName p' = databaseName p
  ∧ groupId p' = groupId p ∧ azureTenantId p' = azureTenantId p
  ∧ savePassword p' = savePassword p ∧ saveProfile p' = saveProfile p
  ∧ ∀ k, k ∉ keys → options p' !! k = options p !! k.

(** ** Reasoning about runs *)

(** From a world that satisfies [P], the run of [m] ends in a world that
    satisfies [Q], however it settles. *)
Definition hoare {A : Type} (P : World → Prop) (m : Async A) (Q : World → Prop) : Prop :=
  ∀ w, P w → Q (snd (m w)).

Definition preserves {A : Type} (I : World → Prop) (m : Async A) : Prop := hoare I m I.

(** The same with a postcondition [Q] for the runs that are fulfilled and
    one, [E], for the others. *)
Definition triple {A : Type} (P : World → Prop) (m : Async A) (Q E : World → Prop) : Prop :=
  ∀ w, P w → match m w with
             | (Fulfilled _, w') => Q w'
             | (_, w') => E w'
             end.

(** A run that never stops for lack of fuel. *)
Definition total {A : Type} (m : Async A) : Prop := ∀ w, fst (m w) ≠ OutOfFuel.

(** An update of a profile that leaves its authentication type and its
    token option alone. *)
Definition benign (f : ConnectionProfile → ConnectionProfile) : Prop :=
  ∀ p, authenticationType (f p) = authenticationType p
       ∧ bag_get (options (f p)) "azureAccountToken"
         = bag_get (options p) "azureAccountToken".

(** Properties of worlds that events other than dispatches, changes of the
    registry and benign updates of profiles do not affect. *)
Record stable (I : World → Prop) : Prop := mkStable {
  stable_trace : ∀ w e, is_dispatch e = false →
                        I w → I (mkWorld (heap w) (connections w) (trace w ++ [e]));
  stable_connections : ∀ w reg, I w → I (with_connections w reg);
  stable_update : ∀ w l p f, heap w !! l = Some p → benign f →
                             I w → I (with_heap w (<[l := f p]> (heap w)))
}.

(** The registry holds no record but deleted ones. *)
Definition noLiveRecord (reg : Registry) : Prop :=
  ∀ uri r, reg !! uri = Some r → deleted r = true.

(** The profile once [connectWithOptions] has stamped the derived options
    on it. *)
Definition stamped (p : ConnectionProfile) : ConnectionProfile :=
  set_option "databaseDisplayName" (databaseName p) (set_option "groupId" (groupId p) p).

(** The trace once [onConnectStart] has been called, if it is defined. *)
Definition started (callbacks : IConnectionCallbacks) (t : list Event) : list Event :=
  if onConnectStart callbacks then t ++ [OnConnectStart] else t.

(** The run from [w] to [w'] has deleted no group from the configuration. *)
Definition configurationUntouched (w w' : World) : Prop :=
  ∀ g, GroupDeletedFromConfiguration g ∈ trace w' →
       GroupDeletedFromConfiguration g ∈ trace w.

(** The calls of [onConnectSuccess] and [onConnectReject]. *)
Definition is_report (e : Event) : bool :=
  match e with
  | OnConnectSuccess | OnConnectReject _ => true
  | _ => false
  end.

(** The calls of the two outcome callbacks recorded in a trace, in order. *)
Definition reports (t : list Event) : list Event := filter (λ e, is_report e = true) t.

(** A run that calls neither outcome callback. *)
Definition unreported {A : Type} (m : Async A) : Prop :=
  ∀ w, reports (trace (snd (m w))) = reports (trace w).

(** What a fulfilled attempt owes the outcome callbacks: one call of
    [onConnectSuccess] when its result is connected, one call of
    [onConnectReject] when it is not, if the callback is defined. *)
Definition outcomeReport (callbacks : IConnectionCallbacks) (r : IConnectionResult)
  : list Event :=
  if connected r
  then (if onConnectSuccess callbacks then [OnConnectSuccess] else [])
  else (if onConnectReject callbacks
        then [OnConnectReject connectionNotAcceptedError] else []).

(** Induction on groups *)

Section GroupInduction.

Variable P : ConnectionProfileGroup → Prop.
Hypothesis P_leaf : ∀ n cs, P (mkGroup n cs None).
Hypothesis P_node : ∀ n cs l, Forall P l → P (mkGroup n cs (Some l)).

(** Induction on a group with the hypothesis for all its children. *)
Fixpoint group_ind' (g : ConnectionProfileGroup) : P g :=
  match g with
  | mkGroup n cs None => P_leaf n cs
  | mkGroup n cs (Some l) =>
      P_node n cs l
        ((fix all (l : list ConnectionProfileGroup) : Forall P l :=
            match l return Forall P l with
            | [] => List.Forall_nil P
            | x :: t => @List.Forall_cons _ P x t (group_ind' x) (all t)
            end) l)
  end.

End GroupInduction.

(** ** Scenarios *)

Module Scenario.

(** Utils.generateUri, as far as the scenarios need it. *)
Definition uriOf (p : ConnectionProfile) (purpose : option Purpose) : string :=
  String.append
    (match purpose with
     | Some forDashboard => "dashboard:"
     | Some forInsights => "insights:"
     | Some forNotebook => "notebook:"
     | _ => "connection:"
     end)
    (String.append (providerName p)
       (String.append ":" (String.append (serverName p)
          (String.append ":" (userName p))))).

Definition azure : Platform :=
  {| azureMFA := "AzureMFA";
     generateUri := uriOf;
     getOriginalOwnerUri := λ _ uri, uri;
     updateConnectionProfile := λ reg _ id, (reg, id);
     showDialog := λ _, true |}.

(** One account, two tenants. *)
Definition oneAccount : IAccountManagementService :=
  {| getAccountsForProvider := λ _, Some [mkAccount "u" false];
     refreshAccount := λ a, Some a;
     getSecurityToken := λ _, [("tenantA", "tokenA"); ("tenantB", "tokenB")] |}.

(** No account at all. *)
Definition noAccount : IAccountManagementService :=
  {| getAccountsForProvider := λ _, Some [];
     refreshAccount := λ a, Some a;
     getSecurityToken := λ _, [] |}.

(** Every error can be remediated, and remediation succeeds. *)
Definition remediates : IResourceProviderService :=
  {| handleFirewallRule := λ _ _ _, mkFirewallResponse true "10.0.0.1" "azure";
     showFirewallRuleDialog := λ _ _ _, true |}.

(** A store that finds no credential and requires none. *)
Definition plainStore : ConnectionStore :=
  {| addSavedPassword := λ h l, Some (h, l, false);
     isPasswordRequired := λ _, false;
     store_saveProfile := λ _, true;
     store_savePassword := λ _, true;
     addRecentConnection := λ _, None;
     getConnectionProfileGroups := [];
     deleteConnectionFromConfiguration := λ _, true;
     deleteGroupFromConfiguration := λ _, true |}.

(** A provider that answers every dispatch with a firewall error; no
    disconnect succeeds, none throws. *)
Definition firewalled : ConnectionProvider :=
  {| connectionComplete := λ _ _, mkCompletion false (Some "firewall") (Some 40615%Z) None;
     inFlightDeletes := λ _, [];
     disconnectSettles := λ _, FulfilledWith false |}.

(** A provider that accepts every connection. *)
Definition accepts : ConnectionProvider :=
  {| connectionComplete := λ _ _, mkCompletion true None None None;
     inFlightDeletes := λ _, [];
     disconnectSettles := λ _, FulfilledWith true |}.

(** A provider that answers the first dispatch with a firewall error and
    accepts the next ones. *)
Definition firewalledOnce : ConnectionProvider :=
  {| connectionComplete :=
       λ n _, match n with
              | O => mkCompletion false (Some "firewall") (Some 40615%Z) None
              | S _ => mkCompletion true None None None
              end;
     inFlightDeletes := λ _, [];
     disconnectSettles := λ _, FulfilledWith true |}.

(** A provider that connects, while the deletion of the URI is requested
    in flight. *)
Definition deletedInFlight : ConnectionProvider :=
  {| connectionComplete := λ _ _, mkCompletion true None None None;
     inFlightDeletes := λ _, ["connection:pgsql:db1:u"];
     disconnectSettles := λ _, FulfilledWith true |}.

Definition passwordProfile : ConnectionProfile :=
  mkProfile "pgsql" "db1" "password" "u" (Some "p") None None None false false
            {[ "azureAccountToken" := Some "stale" ]}.

Definition federatedProfile : ConnectionProfile :=
  mkProfile "MSSQL" "db1" "AzureMFA" "u" None None None (Some "tenantB") false false ∅.

Definition world (p : ConnectionProfile) : World :=
  mkWorld {[ 0 := p ]} ∅ [].

(** The profile is connected already. *)
Definition connectedWorld (p : ConnectionProfile) : World :=
  mkWorld {[ 0 := p ]} {[ uriOf p None := mkInfo 0 false false None ]} [].

Definition oneServer : ConnectionProfileGroup :=
  mkGroup "servers" (Some [passwordProfile]) None.

End Scenario.

(** * Further cases *)

Module Cases.

(** One account that is stale, and a refresh the user cancels. *)
Definition cancelledRefresh : IAccountManagementService :=
  {| getAccountsForProvider := λ _, Some [mkAccount "u" true];
     refreshAccount := λ _, None;
     getSecurityToken := λ _, [("tenantA", "tokenA")] |}.

(** A provider whose disconnects are rejected. *)
Definition refusesDisconnect : ConnectionProvider :=
  {| connectionComplete := λ _ _, mkCompletion true None None None;
     inFlightDeletes := λ _, [];
     disconnectSettles := λ _, RejectedWith (CollaboratorError "disconnect") |}.


(** A profile whose password has not been entered. *)
Definition blankProfile : ConnectionProfile :=
  mkProfile "pgsql" "db1" "password" "u" None None None None false false ∅.


(** Two saved servers in nested groups, one of them also the active
    connection and one also among the recent ones. *)
Definition otherProfile : ConnectionProfile :=
  mkProfile "pgsql" "db2" "password" "v" (Some "p") None None None false false ∅.

Definition nestedServers : ConnectionProfileGroup :=
  mkGroup "root" (Some [Scenario.passwordProfile])
          (Some [mkGroup "inner" (Some [otherProfile; blankProfile]) None]).

Definition savesNested : ConnectionStore :=
  {| addSavedPassword := λ h l, Some (h, l, false);
     isPasswordRequired := λ _, false;
     store_saveProfile := λ _, true;
     store_savePassword := λ _, true;
     addRecentConnection := λ _, None;
     getConnectionProfileGroups := [nestedServers];
     deleteConnectionFromConfiguration := λ _, true;
     deleteGroupFromConfiguration := λ _, true |}.

(** The id of a profile is taken to be its server name. *)
Definition byServer : ProfileSources :=
  {| profileId := serverName;
     getActiveConnections := [Scenario.passwordProfile];
     getRecentConnections := [otherProfile; Scenario.passwordProfile] |}.

(** The store refuses every edit of a group. *)
Definition refusesEdits : ServerGroupController.GroupServices :=
  {| ServerGroupController.newViewModel :=
       λ g, match g with
            | Some g => ServerGroupController.mkViewModel
                          (ServerGroupController.cpg_name g)
                          (ServerGroupController.cpg_color g)
                          (ServerGroupController.cpg_description g)
            | None => ServerGroupController.mkViewModel "" None None
            end;
     ServerGroupController.editGroup := λ _, Some (CollaboratorError "editGroup");
     ServerGroupController.saveProfileGroup := λ _, None |}.

(** A store that resolves with a copy of the profile, which it makes at
    the reference 1; it finds no credential and requires none. *)
Definition copyingStore : ConnectionStore :=
  {| addSavedPassword :=
       λ h l, match h !! l with
              | Some p => Some (<[1 := p]> h, 1, false)
              | None => None
              end;
     isPasswordRequired := λ _, false;
     store_saveProfile := λ _, true;
     store_savePassword := λ _, true;
     addRecentConnection := λ _, None;
     getConnectionProfileGroups := [];
     deleteConnectionFromConfiguration := λ _, true;
     deleteGroupFromConfiguration := λ _, true |}.

(** A store whose credential lookup rejects. *)
Definition rejectingStore : ConnectionStore :=
  {| addSavedPassword := λ _ _, None;
     isPasswordRequired := λ _, false;
     store_saveProfile := λ _, true;
     store_savePassword := λ _, true;
     addRecentConnection := λ _, None;
     getConnectionProfileGroups := [];
     deleteConnectionFromConfiguration := λ _, true;
     deleteGroupFromConfiguration := λ _, true |}.

(** One account of the user, which yields no tokens. *)
Definition noTokens : IAccountManagementService :=
  {| getAccountsForProvider := λ _, Some [mkAccount "u" false];
     refreshAccount := λ a, Some a;
     getSecurityToken := λ _, [] |}.

(** A federated profile whose configured tenant is the name of a property
    every object inherits. *)
Definition inheritedTenantProfile : ConnectionProfile :=
  mkProfile "MSSQL" "db1" "AzureMFA" "u" None None None (Some "constructor") false false ∅.

End Cases.

(** * Properties *)

(** ** Profile queries *)

Section Queries.

Context {platform : Platform}.

(** C10: [isProfileConnected] and [isProfileConnecting] are never both
    true, and each is true only for a profile that has a record in the
    registry: [isProfileConnecting] exactly when the record has its
    connecting flag set, [isProfileConnected] exactly when the record has
    the flag unset. *)
Theorem profile_connected_connecting_exclusive
    (reg : Registry) (connectionProfile : ConnectionProfile) :
  ¬ (isProfileConnected reg connectionProfile = Some true
     ∧ isProfileConnecting reg connectionProfile = Some true)
  ∧ (isProfileConnecting reg connectionProfile = Some true
     ↔ ∃ r, findConnectionProfile reg connectionProfile = Some r ∧ connecting r = true)
  ∧ (isProfileConnected reg connectionProfile = Some true
     ↔ ∃ r, findConnectionProfile reg connectionProfile = Some r ∧ connecting r = false).
Proof.
  unfold isProfileConnected, isProfileConnecting, js_and_obj.
  destruct (findConnectionProfile reg connectionProfile) as [r|] eqn:Hfind.
  - destruct (connecting r) eqn:Hc; simpl.
    + split; [intros [H _]; discriminate|].
      split; split; try discriminate; eauto.
      intros (r' & Hr' & Hc'). congruence.
    + split; [intros [_ H]; discriminate|].
      split; split; try discriminate; eauto.
      intros (r' & Hr' & Hc'). congruence.
  - split; [intros [H _]; discriminate|].
    split; split; try discriminate; intros (r' & Hr' & _); discriminate.
Qed.

End Queries.

(** ** Registered servers *)

Lemma registeredIn_unfold (g : ConnectionProfileGroup) :
  registeredIn g = has_connections g || childrenRegistered g.
Proof.
  destruct g as [n cs ch]. unfold has_connections, childrenRegistered; simpl.
  by destruct cs as [[|c cs']|].
Qed.

Lemma InForest_found (l : list ConnectionProfileGroup) (g : ConnectionProfileGroup) :
  InForest l g →
  (∀ x, x ∈ l → registeredIn x = true
                ↔ has_connections x = true
                  ∨ ∃ l' g', children_of x = Some l' ∧ InForest l' g'
                             ∧ has_connections g' = true) →
  has_connections g = true →
  ∃ x, In x l ∧ registeredIn x = true.
Proof.
  intros Hin IH Hh. destruct Hin as [l g Hin | l parent l2 g Hpar Hch Hin].
  - exists g. split; [by apply list_elem_of_In|]. apply IH; [done|]. by left.
  - exists parent. split; [by apply list_elem_of_In|].
    apply IH; [done|]. right. eauto.
Qed.

Lemma registeredIn_group (g : ConnectionProfileGroup) :
  registeredIn g = true
  ↔ has_connections g = true
    ∨ ∃ l g', children_of g = Some l ∧ InForest l g' ∧ has_connections g' = true.
Proof.
  induction g as [n cs | n cs l IH] using group_ind';
    rewrite registeredIn_unfold, orb_true_iff; unfold childrenRegistered; simpl.
  - split; [intros [H|H]; [by left|discriminate]|].
    intros [H | (l & g' & H & _)]; [by left|discriminate].
  - rewrite Forall_forall in IH. rewrite existsb_exists. split.
    + intros [H | (x & Hx & Hreg)]; [by left|]. right. exists l.
      apply list_elem_of_In in Hx.
      apply (IH x Hx) in Hreg as [Hh | (l' & g' & Hch & Hin & Hh)].
      * exists x. split; [done|]. split; [by apply InForest_here|done].
      * exists g'. split; [done|]. split; [|done]. by eapply InForest_below.
    + intros [H | (l' & g' & Hl & Hin & Hh)]; [by left|]. right.
      injection Hl as <-. by eapply InForest_found.
Qed.

(** [registeredIn] finds a group exactly when one with connections is in the
    forest. *)
Lemma registeredIn_InForest (root : list ConnectionProfileGroup) :
  existsb registeredIn root = true
  ↔ ∃ g, InForest root g ∧ has_connections g = true.
Proof.
  rewrite existsb_exists. split.
  - intros (x & Hx & Hreg). apply list_elem_of_In in Hx.
    apply registeredIn_group in Hreg as [Hh | (l & g' & Hch & Hin & Hh)].
    + exists x. split; [by apply InForest_here|done].
    + exists g'. split; [by eapply InForest_below|done].
  - intros (g & Hin & Hh). eapply InForest_found; [done| |done].
    intros x _. apply registeredIn_group.
Qed.

Lemma registeredLoop_searches (rec : option (list ConnectionProfileGroup) → option bool)
    (root : list ConnectionProfileGroup) (steps i : nat) :
  (∀ item, item ∈ root → rec (children_of item) = Some (childrenRegistered item)) →
  length root - i < steps →
  registeredLoop rec root steps i = Some (existsb registeredIn (drop i root)).
Proof.
  intros Hrec. revert i. induction steps as [|steps IH]; intros i Hlt; [lia|].
  simpl. destruct (root !! i) as [item|] eqn:Hi.
  - rewrite (drop_S _ _ _ Hi). simpl. rewrite registeredIn_unfold.
    destruct (has_connections item); [done|]. simpl.
    rewrite Hrec by (by eapply list_elem_of_lookup_2).
    destruct (childrenRegistered item); [done|].
    apply IH. apply lookup_lt_Some in Hi. lia.
  - apply lookup_ge_None in Hi. by rewrite drop_ge.
Qed.

Lemma doHasRegisteredServers_forest (root : list ConnectionProfileGroup) :
  Forall (λ g, ∃ n : nat, ∀ m : nat, n ≤ m →
               doHasRegisteredServers m (children_of g) = Some (childrenRegistered g)) root →
  ∃ n : nat, ∀ m : nat, n ≤ m →
       doHasRegisteredServers m (Some root) = Some (existsb registeredIn root).
Proof.
  intros Hall.
  assert (∃ N : nat, ∀ g, g ∈ root → ∀ m : nat, N ≤ m →
            doHasRegisteredServers m (children_of g) = Some (childrenRegistered g))
    as [N HN].
  { induction Hall as [|g l [n Hn] _ [N HN]].
    - exists 0. intros g Hg. by apply elem_of_nil in Hg.
    - exists (n `max` N). intros g' Hg' m Hm.
      apply elem_of_cons in Hg' as [-> | Hg'].
      + apply Hn. lia.
      + apply HN; [done|lia]. }
  exists (S (N `max` S (length root))). intros [|m] Hm; [lia|].
  simpl. destruct root as [|g root']; [done|].
  rewrite registeredLoop_searches; [by rewrite drop_0| |].
  - intros item Hitem. apply HN; [done|lia].
  - simpl in *. lia.
Qed.

Lemma doHasRegisteredServers_terminates (root : list ConnectionProfileGroup) :
  ∃ n : nat, ∀ m : nat, n ≤ m →
       doHasRegisteredServers m (Some root) = Some (existsb registeredIn root).
Proof.
  apply doHasRegisteredServers_forest. apply Forall_forall. intros g _. clear root.
  induction g as [n cs | n cs l IH] using group_ind'.
  - exists 1. intros [|m] Hm; [lia|done].
  - apply doHasRegisteredServers_forest in IH as [k Hk]. exists k. apply Hk.
Qed.

Section RegisteredServers.

Context {store : ConnectionStore}.

(** C9: [hasRegisteredServers] returns, for every forest of connection
    groups the store holds, a boolean that is true exactly when some group
    of the forest, a root or a group below one, has a non-empty list of
    connections. The loop whose condition is [root.length] ends at the
    first index past the list. *)
Theorem hasRegisteredServers_searches_forest :
  ∃ b, (∃ n : nat, ∀ m : nat, n ≤ m → hasRegisteredServers m = Some b)
       ∧ (b = true
          ↔ ∃ g, InForest getConnectionProfileGroups g ∧ has_connections g = true).
Proof.
  exists (existsb registeredIn getConnectionProfileGroups). split.
  - apply doHasRegisteredServers_terminates.
  - apply registeredIn_InForest.
Qed.

End RegisteredServers.

(** ** Federated token resolution *)

Section TokenResolution.

Context {accounts : IAccountManagementService} {platform : Platform}.

Lemma update_eq (l : loc) (f : ConnectionProfile → ConnectionProfile) (w : World)
    (p : ConnectionProfile) :
  heap w !! l = Some p →
  update l f w = (Fulfilled tt, with_heap w (<[l := f p]> (heap w))).
Proof. intros H. unfold update. by rewrite H. Qed.

(** [fillInOrClearAzureToken] as a function of the profile it is given. *)
Lemma fillInOrClearAzureToken_eq (l : loc) (w : World) :
  fillInOrClearAzureToken l w =
  match heap w !! l with
  | None => (Rejected TypeError, w)
  | Some p =>
      if negb (String.eqb (authenticationType p) azureMFA) then
        (Fulfilled true,
         with_heap w (<[l := set_option "azureAccountToken" None p]> (heap w)))
      else if truthy_str (bag_get (options p) "azureAccountToken") then
        (Fulfilled true, w)
      else
        match fetchToken p with
        | None => (Fulfilled false, w)
        | Some token =>
            (Fulfilled true,
             with_heap w (<[l := set_option "password" (Some "")
                                   (set_option "azureAccountToken" token p)]>
                            (heap w)))
        end
  end.
Proof.
  unfold fillInOrClearAzureToken, mbind, Async_bind, bind, deref.
  destruct (heap w !! l) as [p|] eqn:Hp; [|done].
  destruct (negb (String.eqb (authenticationType p) azureMFA)).
  { by rewrite (update_eq _ _ _ _ Hp). }
  destruct (truthy_str (bag_get (options p) "azureAccountToken")); [done|].
  unfold fetchToken.
  destruct (getAccountsForProvider "azurePublicCloud") as [[|a rest]|]; try done.
  destruct (list_find _ (a :: rest)) as [[i account]|]; [|done].
  destruct (if isStale account then refreshAccount account else Some account)
    as [account'|]; [|done].
  destruct (pickToken _ _) as [token|]; [|done].
  rewrite (update_eq _ _ _ _ Hp).
  erewrite update_eq by (simpl; apply lookup_insert_eq).
  unfold resolve, with_heap; simpl. by rewrite insert_insert_eq.
Qed.

End TokenResolution.

Lemma truthy_str_Some (s : string) : truthy_str (Some s) = true ↔ s ≠ "".
Proof.
  simpl. rewrite negb_true_iff. split.
  - intros H ->. discriminate.
  - intros H. by apply String.eqb_neq.
Qed.

Lemma list_find_first {A : Type} (P : A → Prop) `{∀ x, Decision (P x)}
    (l1 : list A) (a : A) (l2 : list A) :
  Forall (λ x, ¬ P x) l1 → P a →
  list_find P (l1 ++ a :: l2) = Some (length l1, a).
Proof.
  intros Hl1 Ha. induction Hl1 as [|x l1 Hx _ IH]; simpl.
  - by rewrite decide_True.
  - rewrite decide_False by done. by rewrite IH.
Qed.

Lemma pickToken_tenant (t : string) (toks1 : list (string * string)) (tok : string)
    (toks2 : list (string * string)) :
  t ≠ "" → Forall (λ kv, fst kv ≠ t) toks1 →
  pickToken (Some t) (toks1 ++ (t, tok) :: toks2) = Some (Some tok).
Proof.
  intros Ht Hfirst. unfold pickToken.
  assert (truthy_str (Some t) = true) as -> by by apply truthy_str_Some.
  by rewrite (list_find_first (λ kv, fst kv = t)).
Qed.

Lemma inheritedKeys_truthy (t : string) : t ∈ inheritedKeys → truthy_str (Some t) = true.
Proof.
  intros Hin. apply truthy_str_Some. intros ->.
  apply list_elem_of_In in Hin. simpl in Hin. intuition discriminate.
Qed.

(** A tenant that names an inherited property, and has no entry of its own,
    chooses [undefined], whatever the token set holds. *)
Lemma pickToken_inherited (t : string) (toks : list (string * string)) :
  t ∈ inheritedKeys → Forall (λ kv, fst kv ≠ t) toks →
  pickToken (Some t) toks = Some None.
Proof.
  intros Hin Hnone. unfold pickToken. rewrite (inheritedKeys_truthy t Hin).
  apply (list_find_None (λ kv, fst kv = t)) in Hnone. rewrite Hnone.
  by rewrite bool_decide_eq_true_2.
Qed.

(** A tenant that chooses nothing leaves the choice to the first entry. *)
Lemma pickToken_unconfigured (tenantId : option string) (toks : list (string * string)) :
  tenantId = None ∨ tenantId = Some ""
  ∨ (∃ t, tenantId = Some t ∧ (t ∉ inheritedKeys) ∧ Forall (λ kv, fst kv ≠ t) toks) →
  pickToken tenantId toks
  = match toks with
    | [] => None
    | (_, token) :: _ => Some (Some token)
    end.
Proof.
  intros [-> | [-> | (t & -> & Hnot & Hnone)]]; try done.
  unfold pickToken. destruct (truthy_str (Some t)); [|done].
  apply (list_find_None (λ kv, fst kv = t)) in Hnone. rewrite Hnone.
  by rewrite bool_decide_eq_false_2.
Qed.

Section TokenResolutionSpec.

Context {accounts : IAccountManagementService} {platform : Platform}.

Lemma fetchToken_matched (p : ConnectionProfile) (l1 : list Account) (a : Account)
    (l2 : list Account) (a' : Account) :
  getAccountsForProvider "azurePublicCloud" = Some (l1 ++ a :: l2) →
  Forall (λ x, accountId x ≠ userName p) l1 →
  accountId a = userName p →
  refreshed a a' →
  fetchToken p = pickToken (azureTenantId p) (getSecurityToken a').
Proof.
  intros Hacc Hl1 Ha Hre. unfold fetchToken. rewrite Hacc.
  assert (list_find (λ account, accountId account = userName p) (l1 ++ a :: l2)
          = Some (length l1, a)) as Hfind by by apply list_find_first.
  destruct (l1 ++ a :: l2) as [|x xs] eqn:E; [by destruct l1|].
  rewrite Hfind. by destruct Hre as [[-> ->] | [-> ->]].
Qed.

(** X21: what [fillInOrClearAzureToken] does, case by case, for a profile
    [p] and the accounts the delegate knows. A profile that is not
    federated gets its token option cleared and the result is true; a
    cached token gives true; no accounts or no account of the user name
    give false. For the matched account, the token stored is the one of
    the configured tenant when the token set has an entry for it; when the
    configured tenant has no entry but is the name of a property every
    object inherits, [undefined] is stored and the result is true, even
    for an empty token set; otherwise an empty token set gives false and
    the first token of the set is stored. *)
Theorem fillInOrClearAzureToken_cases (w : World) (connection : loc)
    (p : ConnectionProfile) (Hp : heap w !! connection = Some p) :
  let stored token :=
    with_heap w (<[connection := set_option "password" (Some "")
                         (set_option "azureAccountToken" token p)]> (heap w)) in
  (authenticationType p ≠ azureMFA →
     fillInOrClearAzureToken connection w
     = (Fulfilled true,
        with_heap w (<[connection := set_option "azureAccountToken" None p]> (heap w))))
  ∧ (authenticationType p = azureMFA →
     truthy_str (bag_get (options p) "azureAccountToken") = true →
     fillInOrClearAzureToken connection w = (Fulfilled true, w))
  ∧ (authenticationType p = azureMFA →
     truthy_str (bag_get (options p) "azureAccountToken") = false →
     (getAccountsForProvider "azurePublicCloud" = None
      ∨ getAccountsForProvider "azurePublicCloud" = Some [] →
      fillInOrClearAzureToken connection w = (Fulfilled false, w))
     ∧ (∀ l, getAccountsForProvider "azurePublicCloud" = Some l →
             Forall (λ a, accountId a ≠ userName p) l →
             fillInOrClearAzureToken connection w = (Fulfilled false, w))
     ∧ (∀ l1 a l2 a',
          getAccountsForProvider "azurePublicCloud" = Some (l1 ++ a :: l2) →
          Forall (λ x, accountId x ≠ userName p) l1 →
          accountId a = userName p →
          refreshed a a' →
          (∀ t toks1 tok toks2,
             azureTenantId p = Some t → t ≠ "" →
             getSecurityToken a' = toks1 ++ (t, tok) :: toks2 →
             Forall (λ kv, fst kv ≠ t) toks1 →
             fillInOrClearAzureToken connection w = (Fulfilled true, stored (Some tok)))
          ∧ (∀ t,
               azureTenantId p = Some t → t ∈ inheritedKeys →
               Forall (λ kv, fst kv ≠ t) (getSecurityToken a') →
               fillInOrClearAzureToken connection w = (Fulfilled true, stored None))
          ∧ (azureTenantId p = None ∨ azureTenantId p = Some ""
             ∨ (∃ t, azureTenantId p = Some t ∧ (t ∉ inheritedKeys)
                     ∧ Forall (λ kv, fst kv ≠ t) (getSecurityToken a')) →
             (getSecurityToken a' = [] →
              fillInOrClearAzureToken connection w = (Fulfilled false, w))
             ∧ (∀ t0 tok0 rest,
                  getSecurityToken a' = (t0, tok0) :: rest →
                  fillInOrClearAzureToken connection w
                  = (Fulfilled true, stored (Some tok0)))))).
Proof.
  intros stored. rewrite fillInOrClearAzureToken_eq, Hp. split; [|split].
  - intros Hauth. apply String.eqb_neq in Hauth. by rewrite Hauth.
  - intros Hauth Htok. apply String.eqb_eq in Hauth. by rewrite Hauth, Htok.
  - intros Hauth Htok. apply String.eqb_eq in Hauth. rewrite Hauth, Htok. simpl.
    split; [|split].
    + unfold fetchToken. by intros [-> | ->].
    + intros l Hl Hnone. unfold fetchToken. rewrite Hl.
      destruct l as [|a rest]; [done|].
      apply (list_find_None (λ a, accountId a = userName p)) in Hnone.
      by rewrite Hnone.
    + intros l1 a l2 a' Hacc Hl1 Ha Hre.
      rewrite (fetchToken_matched p l1 a l2 a' Hacc Hl1 Ha Hre).
      split; [|split].
      * intros t toks1 tok toks2 Htenant Ht -> Hfirst.
        by rewrite Htenant, pickToken_tenant.
      * intros t Htenant Hin Hnone. by rewrite Htenant, pickToken_inherited.
      * intros Hcase. rewrite (pickToken_unconfigured _ _ Hcase). split.
        -- by intros ->.
        -- by intros t0 tok0 rest ->.
Qed.

End TokenResolutionSpec.

(** C5, on the code: the resolver reads [tokensByTenant[tenantId]] off a
    plain object, which answers the names of inherited properties too. For
    a profile whose configured tenant is "constructor" the look-up is
    truthy though the token set has no such tenant: with a matched account
    that yields no tokens the result is true, not false, and with tokens
    of other tenants the first of them is not picked; in both cases
    [undefined] is stored as the token and the password option is
    blanked. [connectWithOptions] then goes on to dispatch the connection
    instead of failing with the token error. *)
Theorem fillInOrClearAzureToken_inherited_tenant :
  let p := Cases.inheritedTenantProfile in
  let w := Scenario.world p in
  let blanked := set_option "password" (Some "") (set_option "azureAccountToken" None p) in
  getSecurityToken (IAccountManagementService := Cases.noTokens) (mkAccount "u" false) = []
  ∧ @fillInOrClearAzureToken Cases.noTokens Scenario.azure 0 w
    = (Fulfilled true, with_heap w (<[0 := blanked]> (heap w)))
  ∧ getSecurityToken (IAccountManagementService := Scenario.oneAccount)
      (mkAccount "u" false)
    = [("tenantA", "tokenA"); ("tenantB", "tokenB")]
  ∧ @fillInOrClearAzureToken Scenario.oneAccount Scenario.azure 0 w
    = (Fulfilled true, with_heap w (<[0 := blanked]> (heap w)))
  ∧ bag_get (options blanked) "azureAccountToken" = None
  ∧ dispatches
      (trace (snd (@connectWithOptions Cases.noTokens Scenario.remediates
                     Scenario.plainStore Scenario.accepts Scenario.azure
                     2 0 None None None w)))
    = 1.
Proof. repeat split; vm_compute; reflexivity. Qed.

Section TokenResolutionFrame.

Context {accounts : IAccountManagementService} {platform : Platform}.

Lemma same_but_secrets_refl (p : ConnectionProfile) (keys : list string) :
  same_but_secrets p p keys.
Proof. by repeat split. Qed.

Lemma same_but_secrets_set (p p' : ConnectionProfile) (keys : list string)
    (k : string) (v : option string) :
  k ∈ keys → same_but_secrets p p' keys → same_but_secrets p (set_option k v p') keys.
Proof.
  intros Hk (?&?&?&?&?&?&?&?&?&Hopts). repeat split; simpl; try done.
  intros k' Hk'. rewrite lookup_insert_ne; [by apply Hopts|].
  intros ->. done.
Qed.

(** C7, as the code has it: [fillInOrClearAzureToken] updates the object it
    is given, in place, and returns the success flag only; there is no
    copy. All it changes is confined to that object: every other object,
    the registry and the trace are as before. Of the object itself the
    option bag entries "azureAccountToken" and "password" may change, the
    second being how the code blanks the password; its fields other than
    the password and its other option entries are as before. *)
Theorem fillInOrClearAzureToken_frame (w : World) (connection : loc) :
  let w' := snd (fillInOrClearAzureToken connection w) in
  connections w' = connections w
  ∧ trace w' = trace w
  ∧ (∀ l, l ≠ connection → heap w' !! l = heap w !! l)
  ∧ match heap w !! connection with
    | None => heap w' !! connection = None
    | Some p =>
        ∃ p', heap w' !! connection = Some p'
              ∧ same_but_secrets p p' ["azureAccountToken"; "password"]
    end.
Proof.
  intros w'. subst w'. rewrite fillInOrClearAzureToken_eq.
  destruct (heap w !! connection) as [p|] eqn:Hp; [|done].
  destruct (negb _).
  { simpl. repeat split; try done.
    - intros l Hl. by rewrite lookup_insert_ne.
    - eexists. split; [apply lookup_insert_eq|].
      apply same_but_secrets_set; [set_solver|apply same_but_secrets_refl]. }
  destruct (truthy_str _).
  { simpl. repeat split; try done. exists p. split; [done|].
    apply same_but_secrets_refl. }
  destruct (fetchToken p) as [token|]; simpl.
  - repeat split; try done.
    + intros l Hl. by rewrite lookup_insert_ne.
    + eexists. split; [apply lookup_insert_eq|].
      do 2 (apply same_but_secrets_set; [set_solver|]). apply same_but_secrets_refl.
  - repeat split; try done. exists p. split; [done|]. apply same_but_secrets_refl.
Qed.

End TokenResolutionFrame.

(** C7, as stated, fails: the object passed to [fillInOrClearAzureToken] is
    the one that is changed. A password profile that carries a token has it
    cleared in place. *)
Lemma fillInOrClearAzureToken_mutates_argument :
  let w := Scenario.world Scenario.passwordProfile in
  let w' := snd (@fillInOrClearAzureToken Scenario.noAccount Scenario.azure 0 w) in
  (p ← heap w !! 0; options p !! "azureAccountToken") = Some (Some "stale")
  ∧ (p ← heap w' !! 0; options p !! "azureAccountToken") = Some None
  ∧ heap w' !! 0 ≠ heap w !! 0.
Proof.
  split; [by vm_compute|]. split; [by vm_compute|].
  intros H.
  assert ((p ← heap (snd (@fillInOrClearAzureToken Scenario.noAccount Scenario.azure 0
                            (Scenario.world Scenario.passwordProfile))) !! 0;
           options p !! "azureAccountToken")
          = (p ← heap (Scenario.world Scenario.passwordProfile) !! 0;
             options p !! "azureAccountToken")) as H' by by rewrite H.
  vm_compute in H'. discriminate.
Qed.

(** ** Runs of the service *)

Section Runs.

Context {A B : Type}.

Lemma hoare_weaken (P P' Q Q' : World → Prop) (m : Async A) :
  (∀ w, P' w → P w) → (∀ w, Q w → Q' w) → hoare P m Q → hoare P' m Q'.
Proof. intros HP HQ H w Hw. apply HQ, H, HP, Hw. Qed.

Lemma hoare_bind (P Q R : World → Prop) (m : Async A) (k : A → Async B) :
  (∀ w, Q w → R w) →
  hoare P m Q → (∀ a, hoare Q (k a) R) → hoare P (m ≫= k) R.
Proof.
  intros HQR Hm Hk w Hw. unfold mbind, Async_bind, bind.
  specialize (Hm w Hw). destruct (m w) as [[a|e|] w']; simpl in *; auto.
  by apply Hk.
Qed.

Lemma preserves_bind (I : World → Prop) (m : Async A) (k : A → Async B) :
  preserves I m → (∀ a, preserves I (k a)) → preserves I (m ≫= k).
Proof. by apply hoare_bind. Qed.

Lemma hoare_catch (P Q R : World → Prop) (m : Async A) (h : Thrown → Async A) :
  (∀ w, Q w → R w) →
  hoare P m Q → (∀ e, hoare Q (h e) R) → hoare P (catch m h) R.
Proof.
  intros HQR Hm Hh w Hw. unfold catch.
  specialize (Hm w Hw). destruct (m w) as [[a|e|] w']; simpl in *; auto.
  by apply Hh.
Qed.

Lemma preserves_catch (I : World → Prop) (m : Async A) (h : Thrown → Async A) :
  preserves I m → (∀ e, preserves I (h e)) → preserves I (catch m h).
Proof. by apply hoare_catch. Qed.

Lemma preserves_resolve (I : World → Prop) (a : A) : preserves I (resolve a).
Proof. by intros w Hw. Qed.

Lemma preserves_mret (I : World → Prop) (a : A) : preserves I (mret a).
Proof. by intros w Hw. Qed.

Lemma preserves_throw (I : World → Prop) (e : Thrown) : preserves I (@throw A e).
Proof. by intros w Hw. Qed.

Lemma preserves_out_of_fuel (I : World → Prop) : preserves I (@out_of_fuel A).
Proof. by intros w Hw. Qed.

End Runs.

Lemma preserves_get_world (I : World → Prop) : preserves I get_world.
Proof. by intros w Hw. Qed.

Lemma preserves_deref (I : World → Prop) (l : loc) : preserves I (deref l).
Proof. intros w Hw. unfold deref. by destruct (heap w !! l). Qed.

Lemma preserves_emit (I : World → Prop) (e : Event) :
  stable I → is_dispatch e = false → preserves I (emit e).
Proof. intros HI He w Hw. by apply (stable_trace I HI). Qed.

Lemma preserves_call_if (I : World → Prop) (b : bool) (e : Event) :
  stable I → is_dispatch e = false → preserves I (call_if b e).
Proof.
  intros HI He. destruct b; [by apply preserves_emit|apply preserves_resolve].
Qed.

Lemma preserves_set_connections (I : World → Prop) (reg : Registry) :
  stable I → preserves I (set_connections reg).
Proof. intros HI w Hw. by apply (stable_connections I HI). Qed.

Lemma preserves_update (I : World → Prop) (l : loc)
    (f : ConnectionProfile → ConnectionProfile) :
  stable I → benign f → preserves I (update l f).
Proof.
  intros HI Hf w Hw. unfold update.
  destruct (heap w !! l) as [p|] eqn:Hp; [|done].
  by apply (stable_update I HI).
Qed.

Lemma benign_set_option (k : string) (v : option string) :
  k ≠ "azureAccountToken" → benign (set_option k v).
Proof.
  intros Hk p. split; [done|]. unfold bag_get; simpl. by rewrite lookup_insert_ne.
Qed.

Lemma benign_set_saveProfile (b : bool) : benign (set_saveProfile b).
Proof. by intros p. Qed.

Lemma benign_set_password (v : option string) : benign (set_password v).
Proof. by intros p. Qed.

(** Steps that every stable property survives. *)
Ltac quiet :=
  repeat first
    [ match goal with |- ∀ _, _ => intro end
    | progress cbv zeta
    | match goal with |- hoare ?P ?m ?Q => change (preserves P m) end
    | match goal with
      | |- preserves _ (mbind _ _) => apply preserves_bind
      | |- preserves _ (catch _ _) => apply preserves_catch
      | |- preserves _ (resolve _) => apply preserves_resolve
      | |- preserves _ (mret _) => apply preserves_mret
      | |- preserves _ (throw _) => apply preserves_throw
      | |- preserves _ out_of_fuel => apply preserves_out_of_fuel
      | |- preserves _ get_world => apply preserves_get_world
      | |- preserves _ (deref _) => apply preserves_deref
      | |- preserves _ (set_connections _) =>
          apply preserves_set_connections; [assumption]
      | |- preserves _ (emit _) => apply preserves_emit; [assumption|reflexivity]
      | |- preserves _ (call_if _ _) => apply preserves_call_if; [assumption|reflexivity]
      | |- preserves _ (update _ _) =>
          apply preserves_update;
            [assumption
            |first [apply benign_set_saveProfile | apply benign_set_password
                   |apply benign_set_option; discriminate]]
      | |- preserves _ (if ?b then _ else _) => destruct b
      | |- preserves _ (match ?x with _ => _ end) => destruct x
      end
    | assumption ].

Section QuietSteps.

Context {accounts : IAccountManagementService}
        {resources : IResourceProviderService}
        {store : ConnectionStore}
        {provider : ConnectionProvider}
        {platform : Platform}.

Variable I : World → Prop.
Hypothesis I_stable : stable I.

Lemma preserves_callConnectHandler (h : Handler) (c : Completion) :
  preserves I (callConnectHandler h c).
Proof. unfold callConnectHandler. quiet. Qed.

Lemma preserves_recallConnectHandler (info : option ConnectionManagementInfo)
    (c : Completion) :
  preserves I (recallConnectHandler info c).
Proof.
  unfold recallConnectHandler. quiet; apply preserves_callConnectHandler.
Qed.

Lemma preserves_tryAddActiveConnection (info : option ConnectionManagementInfo)
    (newConnection : loc) (addToMru : bool) :
  preserves I (tryAddActiveConnection info newConnection addToMru).
Proof.
  unfold tryAddActiveConnection. quiet; apply preserves_recallConnectHandler.
Qed.

Lemma preserves_saveToSettings (id : string) (connection : loc) :
  preserves I (saveToSettings id connection).
Proof. unfold saveToSettings. quiet. Qed.

Lemma preserves_doActionsAfterConnectionComplete (uri : string)
    (opts : IConnectionCompletionOptions) :
  preserves I (doActionsAfterConnectionComplete uri opts).
Proof. unfold doActionsAfterConnectionComplete. quiet. Qed.

Lemma preserves_afterConnected (connection : loc) (uri : string)
    (opts : IConnectionCompletionOptions) (callbacks : IConnectionCallbacks)
    (connectionResult : IConnectionResult) :
  preserves I (afterConnected connection uri opts callbacks connectionResult).
Proof.
  unfold afterConnected.
  quiet; first [apply preserves_tryAddActiveConnection
               |apply preserves_saveToSettings
               |apply preserves_doActionsAfterConnectionComplete].
Qed.

Lemma preserves_showConnectionDialogOnError (connection : loc)
    (owner : IConnectableInput) (connectionResult : IConnectionResult)
    (opts : option IConnectionCompletionOptions) :
  preserves I (showConnectionDialogOnError connection owner connectionResult opts).
Proof. unfold showConnectionDialogOnError. quiet. Qed.

End QuietSteps.

(** ** Counting dispatches *)

Lemma dispatches_snoc (t : list Event) (e : Event) :
  dispatches (t ++ [e]) = dispatches t + (if is_dispatch e then 1 else 0).
Proof.
  unfold dispatches. rewrite filter_app, length_app. f_equal.
  by destruct e.
Qed.

Lemma stable_dispatches (P : nat → Prop) : stable (λ w, P (dispatches (trace w))).
Proof.
  split; simpl; try done.
  intros w e He Hw. rewrite dispatches_snoc, He. by rewrite Nat.add_0_r.
Qed.

Section TokenInvariants.

Context {accounts : IAccountManagementService} {platform : Platform}.

Lemma stable_HasAuth (l : loc) (a : string) : stable (HasAuth l a).
Proof.
  split; simpl; try done.
  intros w l' p f Hp Hf (q & Hq & Hauth). unfold HasAuth; simpl.
  destruct (decide (l' = l)) as [->|Hne].
  - exists (f p). rewrite lookup_insert_eq. split; [done|].
    destruct (Hf p) as [-> _]. congruence.
  - exists q. by rewrite lookup_insert_ne.
Qed.

Lemma stable_Cleared (l : loc) : stable (Cleared l).
Proof.
  split; simpl; try done.
  intros w l' p f Hp Hf (q & Hq & Hauth & Htok). unfold Cleared; simpl.
  destruct (decide (l' = l)) as [->|Hne].
  - exists (f p). rewrite lookup_insert_eq. split; [done|].
    destruct (Hf p) as [-> ->]. split; congruence.
  - exists q. by rewrite lookup_insert_ne.
Qed.

Lemma Cleared_HasAuth (l : loc) (w : World) :
  Cleared l w → ∃ a, a ≠ azureMFA ∧ HasAuth l a w.
Proof. intros (p & Hp & Hauth & _). exists (authenticationType p). split; [done|by exists p]. Qed.

Lemma fillInOrClearAzureToken_trace (l : loc) (w : World) :
  trace (snd (fillInOrClearAzureToken l w)) = trace w
  ∧ connections (snd (fillInOrClearAzureToken l w)) = connections w.
Proof.
  rewrite fillInOrClearAzureToken_eq.
  destruct (heap w !! l) as [p|]; [|done].
  destruct (negb _); [done|]. destruct (truthy_str _); [done|].
  by destruct (fetchToken p).
Qed.

Lemma preserves_fill_dispatches (P : nat → Prop) (l : loc) :
  preserves (λ w, P (dispatches (trace w))) (fillInOrClearAzureToken l).
Proof.
  intros w Hw. by destruct (fillInOrClearAzureToken_trace l w) as [-> _].
Qed.

(** A profile that is not federated has its token cleared. *)
Lemma fill_clears (l : loc) (a : string) :
  a ≠ azureMFA → hoare (HasAuth l a) (fillInOrClearAzureToken l) (Cleared l).
Proof.
  intros Ha w (p & Hp & Hauth). subst a. rewrite fillInOrClearAzureToken_eq, Hp.
  apply String.eqb_neq in Ha as Hauth'. rewrite Hauth'.
  unfold Cleared, with_heap; simpl.
  exists (set_option "azureAccountToken" None p). rewrite lookup_insert_eq.
  split; [done|]. split; [done|]. unfold bag_get; simpl. by rewrite lookup_insert_eq.
Qed.

Lemma preserves_fill_Cleared (l l' : loc) :
  preserves (Cleared l) (fillInOrClearAzureToken l').
Proof.
  intros w Hw. destruct (decide (l' = l)) as [->|Hne].
  - destruct (Cleared_HasAuth _ _ Hw) as (a & Ha & Hauth). by eapply fill_clears.
  - destruct Hw as (q & Hq & Hauth & Htok). exists q. split; [|done].
    rewrite fillInOrClearAzureToken_eq.
    destruct (heap w !! l') as [p|]; [|done].
    destruct (negb _); [by simpl; rewrite lookup_insert_ne|].
    destruct (truthy_str _); [done|].
    destruct (fetchToken p); [by simpl; rewrite lookup_insert_ne|done].
Qed.

(** The authentication type of a profile is never changed. *)
Lemma preserves_fill_HasAuth (l l' : loc) (a : string) :
  preserves (HasAuth l a) (fillInOrClearAzureToken l').
Proof.
  intros w (q & Hq & Hauth). unfold HasAuth.
  rewrite fillInOrClearAzureToken_eq.
  destruct (heap w !! l') as [p|] eqn:Hp; [|by exists q].
  destruct (decide (l' = l)) as [->|Hne].
  - assert (p = q) as -> by congruence.
    destruct (negb _); [simpl; rewrite lookup_insert_eq; by eexists|].
    destruct (truthy_str _); [by exists q|].
    destruct (fetchToken q); [simpl; rewrite lookup_insert_eq; by eexists|by exists q].
  - destruct (negb _); [simpl; rewrite lookup_insert_ne by done; by exists q|].
    destruct (truthy_str _); [by exists q|].
    destruct (fetchToken p); [simpl; rewrite lookup_insert_ne by done|]; by exists q.
Qed.

End TokenInvariants.

Section ConnectRuns.

Context {accounts : IAccountManagementService}
        {resources : IResourceProviderService}
        {store : ConnectionStore}
        {provider : ConnectionProvider}
        {platform : Platform}.

(** [createNewConnection] keeps what no event, registry change or benign
    update affects. *)
Lemma preserves_createNewConnection (I : World → Prop) (uri : string) (connection : loc) :
  stable I →
  (∀ w e, I w → I (mkWorld (heap w) (connections w) (trace w ++ [e]))) →
  preserves I (createNewConnection uri connection).
Proof.
  intros HI Htrace. unfold createNewConnection, sendConnectRequest.
  quiet; first [by apply preserves_callConnectHandler
               |intros w Hw; by apply Htrace].
Qed.

(** [createNewConnection] dispatches at most once. *)
Lemma createNewConnection_dispatches (d : nat) (uri : string) (connection : loc) :
  hoare (λ w, dispatches (trace w) ≤ d) (createNewConnection uri connection)
        (λ w, dispatches (trace w) ≤ d + 1).
Proof.
  pose proof (stable_dispatches (λ n, n ≤ d)) as Hd.
  pose proof (stable_dispatches (λ n, n ≤ d + 1)) as Hd1.
  unfold createNewConnection, sendConnectRequest.
  apply (hoare_bind _ (λ w, dispatches (trace w) ≤ d)); [simpl; lia|quiet|].
  intros w0. cbv beta.
  destruct (ConnectionStatusManager.addConnection _ _ _) as [[reg info]|].
  - apply (hoare_bind _ (λ w, dispatches (trace w) ≤ d)); [simpl; lia|quiet|].
    intros _.
    apply (hoare_bind _ (λ w, dispatches (trace w) ≤ d + 1)); [done| |].
    + intros w Hw. simpl. rewrite dispatches_snoc. simpl. lia.
    + quiet. by apply preserves_callConnectHandler.
  - intros w Hw. simpl. lia.
Qed.

Lemma connectWithOptions_S (fuel : nat) (connection : loc) (uri : option string)
    (opts : option IConnectionCompletionOptions) (cbs : option IConnectionCallbacks) :
  connectWithOptions (S fuel) connection uri opts cbs =
  (p0 ← deref connection;
   update connection (set_option "groupId" (groupId p0));;
   update connection (set_option "databaseDisplayName" (databaseName p0));;
   p1 ← deref connection;
   w ← get_world;
   let uri := if truthy_str uri then default "" uri else generateUri p1 None in
   let uri := getOriginalOwnerUri (connections w) uri in
   let callbacks := default defaultCallbacks cbs in
   let opts := default defaultOptions opts in
   call_if (onConnectStart callbacks) OnConnectStart;;
   connectResolved (connectWithOptions fuel) connection uri opts callbacks).
Proof. reflexivity. Qed.

(** [handleConnectionError] runs [retry] or nothing that matters. *)
Lemma hoare_handleConnectionError (I : World → Prop)
    (retry : loc → option string → option IConnectionCompletionOptions →
             option IConnectionCallbacks → Async IConnectionResult)
    (connection : loc) (uri : string) (opts : IConnectionCompletionOptions)
    (callbacks : IConnectionCallbacks) (connectionResult : IConnectionResult) :
  stable I →
  (showFirewallRuleOnError opts = true →
   preserves I (retry connection (Some uri) (Some (set_showFirewallRuleOnError false opts))
                      (Some callbacks))) →
  preserves I (handleConnectionError retry connection uri opts callbacks connectionResult).
Proof.
  intros HI Hretry. unfold handleConnectionError.
  destruct (showFirewallRuleOnError opts); simpl; quiet. by apply Hretry.
Qed.

(** What [connectResolved] does once the token is resolved. *)
Lemma hoare_connectResolved (P I : World → Prop)
    (retry : loc → option string → option IConnectionCompletionOptions →
             option IConnectionCallbacks → Async IConnectionResult)
    (connection : loc) (uri : string) (opts : IConnectionCompletionOptions)
    (callbacks : IConnectionCallbacks) :
  stable I →
  (∀ w e, I w → I (mkWorld (heap w) (connections w) (trace w ++ [e]))) →
  hoare P (fillInOrClearAzureToken connection) I →
  (showFirewallRuleOnError opts = true →
   preserves I (retry connection (Some uri) (Some (set_showFirewallRuleOnError false opts))
                      (Some callbacks))) →
  hoare P (connectResolved retry connection uri opts callbacks) I.
Proof.
  intros HI Htrace Hfill Hretry. unfold connectResolved.
  apply (hoare_bind _ I); [done|done|].
  quiet; first [by apply preserves_createNewConnection
               |by apply preserves_afterConnected
               |by apply hoare_handleConnectionError].
Qed.

(** [connectWithOptions] keeps what its parts keep. *)
Lemma preserves_connectWithOptions (I : World → Prop) (fuel : nat) (connection : loc)
    (uri : option string) (opts : option IConnectionCompletionOptions)
    (cbs : option IConnectionCallbacks) :
  stable I →
  (∀ w e, I w → I (mkWorld (heap w) (connections w) (trace w ++ [e]))) →
  (∀ l, preserves I (fillInOrClearAzureToken l)) →
  preserves I (connectWithOptions fuel connection uri opts cbs).
Proof.
  intros HI Htrace Hfill. revert uri opts cbs.
  induction fuel as [|fuel IH]; intros uri opts cbs; [apply preserves_out_of_fuel|].
  rewrite connectWithOptions_S.
  quiet. apply hoare_connectResolved; [done|done|apply Hfill|intros _; apply IH].
Qed.

End ConnectRuns.

Section ConnectWithOptions.

Context {accounts : IAccountManagementService}
        {resources : IResourceProviderService}
        {store : ConnectionStore}
        {provider : ConnectionProvider}
        {platform : Platform}.

(** The steps of [connectWithOptions] before the token is resolved. *)
Lemma connectWithOptions_run (fuel : nat) (connection : loc) (uri : option string)
    (opts : option IConnectionCompletionOptions) (cbs : option IConnectionCallbacks)
    (w : World) (p : ConnectionProfile) :
  heap w !! connection = Some p →
  connectWithOptions (S fuel) connection uri opts cbs w =
  connectResolved (connectWithOptions fuel) connection
    (getOriginalOwnerUri (connections w)
       (if truthy_str uri then default "" uri else generateUri (stamped p) None))
    (default defaultOptions opts) (default defaultCallbacks cbs)
    (mkWorld (<[connection := stamped p]> (heap w)) (connections w)
             (started (default defaultCallbacks cbs) (trace w))).
Proof.
  intros Hp. rewrite connectWithOptions_S.
  unfold mbind, Async_bind, bind, deref. rewrite Hp.
  rewrite (update_eq _ _ _ _ Hp).
  erewrite update_eq by (simpl; apply lookup_insert_eq).
  simpl. rewrite lookup_insert_eq, insert_insert_eq.
  unfold started, call_if. by destruct (onConnectStart (default defaultCallbacks cbs)).
Qed.

Lemma fill_outcome (l : loc) (w : World) (p : ConnectionProfile) :
  heap w !! l = Some p →
  fst (fillInOrClearAzureToken l w) = Fulfilled (fillSucceeds p).
Proof.
  intros Hp. rewrite fillInOrClearAzureToken_eq, Hp. unfold fillSucceeds.
  destruct (negb _); [done|]. destruct (truthy_str _); [done|].
  by destruct (fetchToken p).
Qed.

Lemma fill_fails (l : loc) (w : World) (p : ConnectionProfile) :
  heap w !! l = Some p → fillSucceeds p = false →
  fillInOrClearAzureToken l w = (Fulfilled false, w).
Proof.
  intros Hp. rewrite fillInOrClearAzureToken_eq, Hp. unfold fillSucceeds.
  destruct (negb _); [done|]. destruct (truthy_str _); [done|].
  by destruct (fetchToken p).
Qed.

Lemma fillSucceeds_stamped (p : ConnectionProfile) :
  fillSucceeds (stamped p) = fillSucceeds p.
Proof.
  unfold fillSucceeds, fetchToken, stamped, bag_get; simpl.
  by rewrite !lookup_insert_ne by done.
Qed.

(** C4: when the token resolution of a connect attempt fails,
    [connectWithOptions] rejects with the token error; nothing is
    dispatched and the registry is as before, so no record is added for
    the URI. *)
Theorem connectWithOptions_token_failure (fuel : nat) (connection : loc)
    (uri : option string) (opts : option IConnectionCompletionOptions)
    (cbs : option IConnectionCallbacks) (w : World) (p : ConnectionProfile)
    (Hp : heap w !! connection = Some p)
    (Hfill : fst (fillInOrClearAzureToken connection w) = Fulfilled false) :
  let run := connectWithOptions (S fuel) connection uri opts cbs w in
  fst run = Rejected AuthTokenError
  ∧ dispatches (trace (snd run)) = dispatches (trace w)
  ∧ filter (λ e, is_dispatch e = true) (trace (snd run))
    = filter (λ e, is_dispatch e = true) (trace w)
  ∧ connections (snd run) = connections w.
Proof.
  intros run. subst run. rewrite (connectWithOptions_run _ _ _ _ _ _ _ Hp).
  rewrite (fill_outcome _ _ _ Hp) in Hfill. injection Hfill as Hfill.
  unfold connectResolved, mbind, Async_bind, bind.
  rewrite (fill_fails _ _ (stamped p));
    [|simpl; apply lookup_insert_eq|by rewrite fillSucceeds_stamped].
  simpl. unfold started, dispatches.
  destruct (onConnectStart _); rewrite ?filter_app; simpl; by rewrite ?app_nil_r.
Qed.

End ConnectWithOptions.

(** ** Runs that cannot fail early *)

Section Triples.

Context {A B : Type}.

Lemma triple_bind (P Q R E : World → Prop) (m : Async A) (k : A → Async B) :
  triple P m Q E → (∀ a, triple Q (k a) R E) → triple P (m ≫= k) R E.
Proof.
  intros Hm Hk w Hw. unfold mbind, Async_bind, bind.
  specialize (Hm w Hw). destruct (m w) as [[a|e|] w']; simpl in *; auto.
  by apply Hk.
Qed.

Lemma triple_of_hoare (P Q : World → Prop) (m : Async A) :
  hoare P m Q → triple P m Q Q.
Proof. intros H w Hw. specialize (H w Hw). by destruct (m w) as [[a|e|] w']. Qed.

Lemma hoare_of_triple (P Q E R : World → Prop) (m : Async A) :
  triple P m Q E → (∀ w, Q w → R w) → (∀ w, E w → R w) → hoare P m R.
Proof.
  intros H HQ HE w Hw. specialize (H w Hw).
  destruct (m w) as [[a|e|] w']; simpl; auto.
Qed.

Lemma triple_resolve (P E : World → Prop) (a : A) : triple P (resolve a) P E.
Proof. by intros w Hw. Qed.

End Triples.

Lemma triple_get_world (P E : World → Prop) : triple P get_world P E.
Proof. by intros w Hw. Qed.

Lemma triple_deref (P E : World → Prop) (l : loc) :
  (∀ w, P w → is_Some (heap w !! l)) → triple P (deref l) P E.
Proof.
  intros Hl w Hw. unfold deref. by destruct (Hl w Hw) as [p ->].
Qed.

Lemma triple_update (P E : World → Prop) (l : loc)
    (f : ConnectionProfile → ConnectionProfile) :
  stable P → benign f → (∀ w, P w → is_Some (heap w !! l)) → triple P (update l f) P E.
Proof.
  intros HP Hf Hl w Hw. unfold update. destruct (Hl w Hw) as [p Hp]. rewrite Hp.
  by apply (stable_update P HP).
Qed.

Lemma stable_and (I J : World → Prop) : stable I → stable J → stable (λ w, I w ∧ J w).
Proof.
  intros [I1 I2 I3] [J1 J2 J3]. split.
  - intros w e He [HI HJ]. split; auto.
  - intros w reg [HI HJ]. split; auto.
  - intros w l p f Hp Hf [HI HJ]. split; eauto.
Qed.

Lemma stable_allocated (l : loc) : stable (λ w, is_Some (heap w !! l)).
Proof.
  split; simpl; try done.
  intros w l' p f Hp Hf Hl. destruct (decide (l' = l)) as [->|Hne].
  - rewrite lookup_insert_eq. by eexists.
  - by rewrite lookup_insert_ne.
Qed.

Section TokenCleared.

Context {accounts : IAccountManagementService}
        {resources : IResourceProviderService}
        {store : ConnectionStore}
        {provider : ConnectionProvider}
        {platform : Platform}.

Lemma TokenSettled_intro (l : loc) (p : ConnectionProfile) (w : World) :
  HasAuth l (authenticationType p) w →
  (authenticationType p ≠ azureMFA → Cleared l w) →
  TokenSettled l p w.
Proof.
  intros (p' & Hp' & Hauth) Hclear. exists p'. split; [done|]. split; [done|].
  intros Hne. destruct (Hclear Hne) as (q & Hq & _ & Htok). congruence.
Qed.

Lemma Cleared_trace (l : loc) (w : World) (e : Event) :
  Cleared l w → Cleared l (mkWorld (heap w) (connections w) (trace w ++ [e])).
Proof. done. Qed.

Lemma HasAuth_trace (l : loc) (a : string) (w : World) (e : Event) :
  HasAuth l a w → HasAuth l a (mkWorld (heap w) (connections w) (trace w ++ [e])).
Proof. done. Qed.

Lemma connectWithOptions_HasAuth (l : loc) (a : string) (fuel : nat) (connection : loc)
    (uri : option string) (opts : option IConnectionCompletionOptions)
    (cbs : option IConnectionCallbacks) :
  preserves (HasAuth l a) (connectWithOptions fuel connection uri opts cbs).
Proof.
  apply preserves_connectWithOptions.
  - apply stable_HasAuth.
  - apply HasAuth_trace.
  - intros l'. apply preserves_fill_HasAuth.
Qed.

Lemma connectWithOptions_Cleared (l : loc) (fuel : nat) (connection : loc)
    (uri : option string) (opts : option IConnectionCompletionOptions)
    (cbs : option IConnectionCallbacks) :
  preserves (Cleared l) (connectWithOptions fuel connection uri opts cbs).
Proof.
  apply preserves_connectWithOptions.
  - apply stable_Cleared.
  - apply Cleared_trace.
  - intros l'. apply preserves_fill_Cleared.
Qed.

(** [connectWithOptions] clears the token of a profile that is not
    federated. *)
Lemma connectWithOptions_clears (fuel : nat) (connection : loc) (uri : option string)
    (opts : option IConnectionCompletionOptions) (cbs : option IConnectionCallbacks)
    (a : string) :
  a ≠ azureMFA →
  hoare (HasAuth connection a) (connectWithOptions (S fuel) connection uri opts cbs)
        (Cleared connection).
Proof.
  intros Ha w (p & Hp & Hauth). rewrite (connectWithOptions_run _ _ _ _ _ _ _ Hp).
  apply (hoare_connectResolved (HasAuth connection a)).
  - apply stable_Cleared.
  - apply Cleared_trace.
  - by apply fill_clears.
  - intros _. apply connectWithOptions_Cleared.
  - exists (stamped p). simpl. by rewrite lookup_insert_eq.
Qed.

Lemma tryConnectWith_HasAuth (l : loc) (a : string) (fuel : nat) (connection : loc)
    (owner : IConnectableInput) (opts : option IConnectionCompletionOptions)
    (newConnection : loc) (savedCred : bool) :
  preserves (HasAuth l a)
            (tryConnectWith fuel connection owner opts newConnection savedCred).
Proof.
  pose proof (stable_HasAuth l a) as HI. unfold tryConnectWith.
  quiet; first [apply preserves_fill_HasAuth
               |by apply preserves_showConnectionDialogOnError
               |apply connectWithOptions_HasAuth].
Qed.

(** [tryConnect]'s continuation clears the token of the profile it connects
    with, when that profile is not federated. *)
Lemma tryConnectWith_clears (a : string) (fuel : nat) (connection : loc)
    (owner : IConnectableInput) (opts : option IConnectionCompletionOptions)
    (newConnection : loc) (savedCred : bool) :
  a ≠ azureMFA →
  hoare (λ w, HasAuth newConnection a w ∧ is_Some (heap w !! connection))
        (tryConnectWith fuel connection owner opts newConnection savedCred)
        (Cleared newConnection).
Proof.
  intros Ha.
  set (Pre := λ w, HasAuth newConnection a w ∧ is_Some (heap w !! connection)).
  assert (stable Pre) as HPre
    by (apply stable_and; [apply stable_HasAuth|apply stable_allocated]).
  assert (∀ w, Pre w → is_Some (heap w !! newConnection)) as Hnew
    by (intros w [(p & Hp & _) _]; by eexists).
  assert (∀ w, Pre w → is_Some (heap w !! connection)) as Hold by (by intros w [_ H]).
  pose proof (stable_Cleared newConnection) as HI.
  unfold tryConnectWith.
  apply (hoare_of_triple _ (Cleared newConnection) (Cleared newConnection)); [|done|done].
  apply (triple_bind _ Pre); [by apply triple_deref|]. intros p.
  apply (triple_bind _ Pre).
  { destruct (negb savedCred && isPasswordRequired p); [|apply triple_resolve].
    apply (triple_bind _ Pre); [by apply triple_deref|]. intros c.
    apply (triple_bind _ Pre); [apply triple_get_world|]. intros w.
    destruct (findConnectionProfile _ _) as [existing|]; [|apply triple_resolve].
    destruct (heap w !! _) as [e|]; [|apply triple_resolve].
    apply (triple_bind _ Pre); [|intros; apply triple_resolve].
    apply triple_update; [done|apply benign_set_password|done]. }
  intros foundPassword. apply triple_of_hoare.
  apply (hoare_bind _ (Cleared newConnection)); [done| |].
  - apply (hoare_weaken (HasAuth newConnection a) _ (Cleared newConnection));
      [by intros w [H _]|done|by apply fill_clears].
  - quiet; first [by apply preserves_showConnectionDialogOnError
                 |apply connectWithOptions_Cleared].
Qed.

Lemma tryConnect_settles (fuel : nat) (connection : loc) (owner : IConnectableInput)
    (opts : option IConnectionCompletionOptions) (w : World)
    (h : gmap loc ConnectionProfile) (newConnection : loc) (savedCred : bool)
    (p : ConnectionProfile) :
  addSavedPassword (heap w) connection = Some (h, newConnection, savedCred) →
  h !! newConnection = Some p →
  is_Some (h !! connection) →
  TokenSettled newConnection p (snd (tryConnect fuel connection owner opts w)).
Proof.
  intros Hstore Hp Hc.
  assert (tryConnect fuel connection owner opts w
          = tryConnectWith fuel connection owner opts newConnection savedCred
              (with_heap w h)) as ->.
  { unfold tryConnect, mbind, Async_bind, bind, get_world. by rewrite Hstore. }
  assert (HasAuth newConnection (authenticationType p) (with_heap w h)) as Hauth
    by by exists p.
  apply TokenSettled_intro.
  - by apply tryConnectWith_HasAuth.
  - intros Hne. by apply (tryConnectWith_clears (authenticationType p)).
Qed.

(** C6, as the code has it: after a connect attempt the profile the
    attempt has worked on has
    the authentication type it had, and its "azureAccountToken" option is
    [undefined] unless that type is the federated one; a token is there
    for a federated profile only. For [connectWithOptions] the profile is
    the one passed in; for [tryConnect] and [connect] it is the one the
    credential store resolves with. *)
Theorem token_cleared_unless_federated :
  (∀ fuel connection uri opts cbs w p,
     heap w !! connection = Some p →
     TokenSettled connection p
       (snd (connectWithOptions (S fuel) connection uri opts cbs w)))
  ∧ (∀ fuel connection owner opts w h newConnection savedCred p,
       addSavedPassword (heap w) connection = Some (h, newConnection, savedCred) →
       h !! newConnection = Some p →
       is_Some (h !! connection) →
       TokenSettled newConnection p (snd (tryConnect fuel connection owner opts w)))
  ∧ (∀ fuel connection uri opts callbacks w h newConnection savedCred p,
       is_Some (heap w !! connection) →
       addSavedPassword (heap w) connection = Some (h, newConnection, savedCred) →
       h !! newConnection = Some p →
       is_Some (h !! connection) →
       TokenSettled newConnection p
         (snd (connect fuel connection uri opts callbacks w))).
Proof.
  split; [|split].
  - intros fuel connection uri opts cbs w p Hp.
    assert (HasAuth connection (authenticationType p) w) as Hauth by by exists p.
    apply TokenSettled_intro.
    + by apply connectWithOptions_HasAuth.
    + intros Hne. by apply (connectWithOptions_clears _ _ _ _ _ (authenticationType p)).
  - apply tryConnect_settles.
  - intros fuel connection uri opts callbacks w h newConnection savedCred p
           [c Hc] Hstore Hp Hconn.
    unfold connect, mbind, Async_bind, bind, deref.
    destruct (truthy_str uri); rewrite ?Hc; simpl;
      match goal with
      | |- context [decide ?P] => destruct (decide P)
      end; simpl; by eapply tryConnect_settles.
Qed.

End TokenCleared.

(** C6, as stated, fails for [connect] and [tryConnect]: they resolve the
    token of the profile the credential store resolves with, not of the
    descriptor they are passed. A password profile that carries a token
    keeps it after an accepted [connect] through a store that resolves
    with a copy, and after a [connect] whose credential lookup is
    rejected. *)
Lemma connect_keeps_token_of_caller :
  let w := Scenario.world Scenario.passwordProfile in
  let copied := @connect Scenario.noAccount Scenario.remediates Cases.copyingStore
                  Scenario.accepts Scenario.azure 2 0 None None None w in
  let refused := @connect Scenario.noAccount Scenario.remediates Cases.rejectingStore
                   Scenario.accepts Scenario.azure 2 0 None None None w in
  authenticationType Scenario.passwordProfile ≠ azureMFA (Platform := Scenario.azure)
  ∧ (p ← heap w !! 0; options p !! "azureAccountToken") = Some (Some "stale")
  ∧ (connected <$> match fst copied with Fulfilled r => Some r | _ => None end)
    = Some true
  ∧ (p ← heap (snd copied) !! 0; options p !! "azureAccountToken") = Some (Some "stale")
  ∧ fst refused = Rejected (CollaboratorError "addSavedPassword")
  ∧ (p ← heap (snd refused) !! 0; options p !! "azureAccountToken") = Some (Some "stale").
Proof. repeat split; [discriminate|vm_compute; reflexivity..]. Qed.

(** ** The bound on the recovery *)

Section Totality.

Context {A B : Type}.

Lemma total_bind (m : Async A) (k : A → Async B) :
  total m → (∀ a, total (k a)) → total (m ≫= k).
Proof.
  intros Hm Hk w. unfold mbind, Async_bind, bind.
  specialize (Hm w). destruct (m w) as [[a|e|] w']; simpl in *; try done.
  apply Hk.
Qed.

Lemma total_catch (m : Async A) (h : Thrown → Async A) :
  total m → (∀ e, total (h e)) → total (catch m h).
Proof.
  intros Hm Hh w. unfold catch.
  specialize (Hm w). destruct (m w) as [[a|e|] w']; simpl in *; try done.
  apply Hh.
Qed.

Lemma total_resolve (a : A) : total (resolve a).
Proof. by intros w. Qed.

Lemma total_mret (a : A) : total (mret a).
Proof. by intros w. Qed.

Lemma total_throw (e : Thrown) : total (@throw A e).
Proof. by intros w. Qed.

End Totality.

Lemma total_get_world : total get_world.
Proof. by intros w. Qed.

Lemma total_deref (l : loc) : total (deref l).
Proof. intros w. unfold deref. by destruct (heap w !! l). Qed.

Lemma total_update (l : loc) (f : ConnectionProfile → ConnectionProfile) :
  total (update l f).
Proof. intros w. unfold update. by destruct (heap w !! l). Qed.

Lemma total_emit (e : Event) : total (emit e).
Proof. by intros w. Qed.

Lemma total_call_if (b : bool) (e : Event) : total (call_if b e).
Proof. by destruct b. Qed.

Lemma total_set_connections (reg : Registry) : total (set_connections reg).
Proof. by intros w. Qed.

(** Steps that need no fuel. *)
Ltac fuelless :=
  repeat first
    [ match goal with |- ∀ _, _ => intro end
    | progress cbv zeta
    | match goal with
      | |- total (mbind _ _) => apply total_bind
      | |- total (catch _ _) => apply total_catch
      | |- total (resolve _) => apply total_resolve
      | |- total (mret _) => apply total_mret
      | |- total (throw _) => apply total_throw
      | |- total get_world => apply total_get_world
      | |- total (deref _) => apply total_deref
      | |- total (set_connections _) => apply total_set_connections
      | |- total (emit _) => apply total_emit
      | |- total (call_if _ _) => apply total_call_if
      | |- total (update _ _) => apply total_update
      | |- total (if ?b then _ else _) => destruct b
      | |- total (match ?x with _ => _ end) => destruct x
      end
    | assumption ].

Section Recovery.

Context {accounts : IAccountManagementService}
        {resources : IResourceProviderService}
        {store : ConnectionStore}
        {provider : ConnectionProvider}
        {platform : Platform}.

Lemma total_fill (l : loc) : total (fillInOrClearAzureToken l).
Proof.
  intros w. rewrite fillInOrClearAzureToken_eq.
  destruct (heap w !! l) as [p|]; [|done].
  destruct (negb _); [done|]. destruct (truthy_str _); [done|].
  by destruct (fetchToken p).
Qed.

Lemma total_callConnectHandler (h : Handler) (c : Completion) :
  total (callConnectHandler h c).
Proof. unfold callConnectHandler. fuelless. Qed.

Lemma total_createNewConnection (uri : string) (connection : loc) :
  total (createNewConnection uri connection).
Proof.
  unfold createNewConnection, sendConnectRequest. fuelless.
  apply total_callConnectHandler.
Qed.

Lemma total_afterConnected (connection : loc) (uri : string)
    (opts : IConnectionCompletionOptions) (callbacks : IConnectionCallbacks)
    (connectionResult : IConnectionResult) :
  total (afterConnected connection uri opts callbacks connectionResult).
Proof.
  unfold afterConnected, tryAddActiveConnection, recallConnectHandler, saveToSettings,
    doActionsAfterConnectionComplete.
  fuelless; apply total_callConnectHandler.
Qed.

Lemma total_connectResolved
    (retry : loc → option string → option IConnectionCompletionOptions →
             option IConnectionCallbacks → Async IConnectionResult)
    (connection : loc) (uri : string) (opts : IConnectionCompletionOptions)
    (callbacks : IConnectionCallbacks) :
  (showFirewallRuleOnError opts = true →
   total (retry connection (Some uri) (Some (set_showFirewallRuleOnError false opts))
                (Some callbacks))) →
  total (connectResolved retry connection uri opts callbacks).
Proof.
  intros Hretry. unfold connectResolved, handleConnectionError.
  destruct (showFirewallRuleOnError opts); simpl;
    fuelless; first [apply total_fill
                    |apply total_createNewConnection
                    |apply total_afterConnected
                    |by apply Hretry].
Qed.

(** With the recovery switched off, [connectWithOptions] needs one unit of
    fuel. *)
Lemma total_connectWithOptions_once (fuel : nat) (connection : loc) (uri : option string)
    (opts : IConnectionCompletionOptions) (cbs : option IConnectionCallbacks) :
  showFirewallRuleOnError opts = false →
  total (connectWithOptions (S fuel) connection uri (Some opts) cbs).
Proof.
  intros Hoff. rewrite connectWithOptions_S. fuelless.
  apply total_connectResolved. simpl. congruence.
Qed.

(** Two units are always enough. *)
Lemma total_connectWithOptions (fuel : nat) (connection : loc) (uri : option string)
    (opts : option IConnectionCompletionOptions) (cbs : option IConnectionCallbacks) :
  total (connectWithOptions (S (S fuel)) connection uri opts cbs).
Proof.
  rewrite connectWithOptions_S. fuelless.
  apply total_connectResolved. intros _. by apply total_connectWithOptions_once.
Qed.

End Recovery.

Section DispatchBound.

Context {accounts : IAccountManagementService}
        {resources : IResourceProviderService}
        {store : ConnectionStore}
        {provider : ConnectionProvider}
        {platform : Platform}.

Lemma handleConnectionError_hoare (P Q : World → Prop)
    (retry : loc → option string → option IConnectionCompletionOptions →
             option IConnectionCallbacks → Async IConnectionResult)
    (connection : loc) (uri : string) (opts : IConnectionCompletionOptions)
    (callbacks : IConnectionCallbacks) (connectionResult : IConnectionResult) :
  stable P → (∀ w, P w → Q w) →
  (showFirewallRuleOnError opts = true →
   hoare P (retry connection (Some uri) (Some (set_showFirewallRuleOnError false opts))
                  (Some callbacks)) Q) →
  hoare P (handleConnectionError retry connection uri opts callbacks connectionResult) Q.
Proof.
  intros HP HPQ Hretry. unfold handleConnectionError.
  destruct (showFirewallRuleOnError opts); simpl.
  - destruct (truthy_num _).
    + apply (hoare_bind _ P); [done|quiet|]. intros p.
      destruct (handleFirewallRuleError p connectionResult) as [[|] r].
      * by apply Hretry.
      * apply (hoare_weaken P _ P); [done|done|quiet].
    + apply (hoare_weaken P _ P); [done|done|quiet].
  - apply (hoare_weaken P _ P); [done|done|quiet].
Qed.

Lemma connectResolved_dispatches (d k : nat)
    (retry : loc → option string → option IConnectionCompletionOptions →
             option IConnectionCallbacks → Async IConnectionResult)
    (connection : loc) (uri : string) (opts : IConnectionCompletionOptions)
    (callbacks : IConnectionCallbacks) :
  (showFirewallRuleOnError opts = true →
   hoare (λ w, dispatches (trace w) ≤ d + 1)
         (retry connection (Some uri) (Some (set_showFirewallRuleOnError false opts))
                (Some callbacks))
         (λ w, dispatches (trace w) ≤ d + 1 + k)) →
  hoare (λ w, dispatches (trace w) ≤ d)
        (connectResolved retry connection uri opts callbacks)
        (λ w, dispatches (trace w) ≤ d + 1 + k).
Proof.
  intros Hretry.
  pose proof (stable_dispatches (λ n, n ≤ d + 1)) as Hd1.
  pose proof (stable_dispatches (λ n, n ≤ d + 1 + k)) as Hdk.
  unfold connectResolved.
  apply (hoare_bind _ (λ w, dispatches (trace w) ≤ d)); [simpl; lia| |].
  { apply (preserves_fill_dispatches (λ n, n ≤ d)). }
  intros ok. destruct (negb ok); [intros w Hw; simpl; lia|].
  apply (hoare_catch _ (λ w, dispatches (trace w) ≤ d + 1 + k)); [done| |quiet].
  apply (hoare_bind _ (λ w, dispatches (trace w) ≤ d + 1)); [simpl; lia| |].
  { apply createNewConnection_dispatches. }
  intros r. destruct (connected r).
  - apply (hoare_weaken (λ w, dispatches (trace w) ≤ d + 1) _
                        (λ w, dispatches (trace w) ≤ d + 1)); [done|simpl; lia|].
    by apply preserves_afterConnected.
  - destruct (truthy_str _).
    + apply (hoare_catch _ (λ w, dispatches (trace w) ≤ d + 1 + k)); [done| |quiet].
      apply handleConnectionError_hoare; [done|simpl; lia|done].
    + apply (hoare_weaken (λ w, dispatches (trace w) ≤ d + 1) _
                          (λ w, dispatches (trace w) ≤ d + 1)); [done|simpl; lia|quiet].
Qed.

Lemma connectWithOptions_prelude_dispatches (d k : nat) (fuel : nat) (connection : loc)
    (uri : option string) (opts : option IConnectionCompletionOptions)
    (cbs : option IConnectionCallbacks) :
  (∀ uri', hoare (λ w, dispatches (trace w) ≤ d)
             (connectResolved (connectWithOptions fuel) connection uri'
                              (default defaultOptions opts) (default defaultCallbacks cbs))
             (λ w, dispatches (trace w) ≤ d + k)) →
  hoare (λ w, dispatches (trace w) ≤ d)
        (connectWithOptions (S fuel) connection uri opts cbs)
        (λ w, dispatches (trace w) ≤ d + k).
Proof.
  intros Hrest. pose proof (stable_dispatches (λ n, n ≤ d)) as Hd.
  rewrite connectWithOptions_S.
  do 6 (apply (hoare_bind _ (λ w, dispatches (trace w) ≤ d)); [simpl; lia|quiet|intros ?]).
  cbv zeta. apply Hrest.
Qed.

(** With the recovery switched off there is at most one dispatch. *)
Lemma connectWithOptions_dispatches_once (d : nat) (fuel : nat) (connection : loc)
    (uri : option string) (opts : IConnectionCompletionOptions)
    (cbs : option IConnectionCallbacks) :
  showFirewallRuleOnError opts = false →
  hoare (λ w, dispatches (trace w) ≤ d)
        (connectWithOptions fuel connection uri (Some opts) cbs)
        (λ w, dispatches (trace w) ≤ d + 1).
Proof.
  intros Hoff. destruct fuel as [|fuel]; [intros w Hw; simpl; lia|].
  apply connectWithOptions_prelude_dispatches. intros uri'.
  apply (hoare_weaken (λ w, dispatches (trace w) ≤ d) _
                      (λ w, dispatches (trace w) ≤ d + 1 + 0)); [done|simpl; lia|].
  apply connectResolved_dispatches. simpl. congruence.
Qed.

(** There are never more than two. *)
Lemma connectWithOptions_dispatches (d : nat) (fuel : nat) (connection : loc)
    (uri : option string) (opts : option IConnectionCompletionOptions)
    (cbs : option IConnectionCallbacks) :
  hoare (λ w, dispatches (trace w) ≤ d)
        (connectWithOptions fuel connection uri opts cbs)
        (λ w, dispatches (trace w) ≤ d + 2).
Proof.
  destruct fuel as [|fuel]; [intros w Hw; simpl; lia|].
  apply connectWithOptions_prelude_dispatches. intros uri'.
  apply (hoare_weaken (λ w, dispatches (trace w) ≤ d) _
                      (λ w, dispatches (trace w) ≤ d + 1 + 1)); [done|simpl; lia|].
  apply connectResolved_dispatches. intros _.
  by apply connectWithOptions_dispatches_once.
Qed.

End DispatchBound.

Section FuelEnough.

Context {accounts : IAccountManagementService}
        {resources : IResourceProviderService}
        {store : ConnectionStore}
        {provider : ConnectionProvider}
        {platform : Platform}.

#[local] Arguments connectWithOptions : simpl never.

(** [connectResolved] calls [retry] with the recovery switched off only. *)
Lemma connectResolved_ext
    (retry1 retry2 : loc → option string → option IConnectionCompletionOptions →
                     option IConnectionCallbacks → Async IConnectionResult)
    (connection : loc) (uri : string) (opts : IConnectionCompletionOptions)
    (callbacks : IConnectionCallbacks) (w : World) :
  (showFirewallRuleOnError opts = true →
   ∀ w', retry1 connection (Some uri) (Some (set_showFirewallRuleOnError false opts))
                (Some callbacks) w'
         = retry2 connection (Some uri) (Some (set_showFirewallRuleOnError false opts))
                  (Some callbacks) w') →
  connectResolved retry1 connection uri opts callbacks w
  = connectResolved retry2 connection uri opts callbacks w.
Proof.
  intros Hretry. unfold connectResolved, mbind, Async_bind, bind, catch.
  destruct (fillInOrClearAzureToken connection w) as [[ok|e|] w1]; [|done|done].
  destruct (negb ok); [done|].
  destruct (createNewConnection uri connection w1) as [[r|e|] w2]; [|done|done].
  destruct (connected r); [done|]. destruct (truthy_str (errorMessage r)); [|done].
  unfold handleConnectionError.
  destruct (showFirewallRuleOnError opts); [|done]. simpl.
  destruct (truthy_num (errorCode r)); [|done].
  unfold mbind, Async_bind, bind.
  destruct (deref connection w2) as [[p|e|] w3]; [|done|done].
  destruct (handleFirewallRuleError p r) as [[|] r']; [|done].
  by rewrite Hretry.
Qed.

Lemma connectWithOptions_ext (fuel1 fuel2 : nat) (connection : loc) (uri : option string)
    (opts : option IConnectionCompletionOptions) (cbs : option IConnectionCallbacks)
    (w : World) :
  (showFirewallRuleOnError (default defaultOptions opts) = true →
   ∀ uri' w',
     connectWithOptions fuel1 connection (Some uri')
       (Some (set_showFirewallRuleOnError false (default defaultOptions opts)))
       (Some (default defaultCallbacks cbs)) w'
     = connectWithOptions fuel2 connection (Some uri')
         (Some (set_showFirewallRuleOnError false (default defaultOptions opts)))
         (Some (default defaultCallbacks cbs)) w') →
  connectWithOptions (S fuel1) connection uri opts cbs w
  = connectWithOptions (S fuel2) connection uri opts cbs w.
Proof.
  intros Hretry. rewrite !connectWithOptions_S. unfold mbind, Async_bind, bind.
  destruct (deref connection w) as [[p0|e|] w1]; [|done|done].
  destruct (update connection _ w1) as [[[]|e|] w2]; [|done|done].
  destruct (update connection _ w2) as [[[]|e|] w3]; [|done|done].
  destruct (deref connection w3) as [[p1|e|] w4]; [|done|done].
  simpl. destruct (call_if _ _ w4) as [[[]|e|] w5]; [|done|done].
  apply connectResolved_ext. intros Hon w'. by apply Hretry.
Qed.

(** With the recovery switched off one unit of fuel gives the run. *)
Lemma connectWithOptions_fuel_once (fuel : nat) (connection : loc) (uri : option string)
    (opts : IConnectionCompletionOptions) (cbs : option IConnectionCallbacks) (w : World) :
  showFirewallRuleOnError opts = false →
  connectWithOptions (S fuel) connection uri (Some opts) cbs w
  = connectWithOptions 1 connection uri (Some opts) cbs w.
Proof.
  intros Hoff. apply connectWithOptions_ext. simpl. congruence.
Qed.

(** Two units give the run, whatever else is supplied. *)
Lemma connectWithOptions_fuel_enough (fuel : nat) (connection : loc) (uri : option string)
    (opts : option IConnectionCompletionOptions) (cbs : option IConnectionCallbacks)
    (w : World) :
  connectWithOptions (S (S fuel)) connection uri opts cbs w
  = connectWithOptions 2 connection uri opts cbs w.
Proof.
  apply connectWithOptions_ext. intros _ uri' w'.
  by apply connectWithOptions_fuel_once.
Qed.

End FuelEnough.

Section RecoveryScenario.

Context {accounts : IAccountManagementService}
        {resources : IResourceProviderService}
        {store : ConnectionStore}
        {provider : ConnectionProvider}
        {platform : Platform}.

Import ConnectionStatusManager.

#[local] Arguments connectWithOptions : simpl never.

Lemma noLiveRecord_delete (reg : Registry) (uri : string) :
  noLiveRecord reg → noLiveRecord (delete uri reg).
Proof.
  intros H u r Hr. apply lookup_delete_Some in Hr as [_ Hr]. by eapply H.
Qed.

Lemma addConnection_fresh (reg : Registry) (connection : loc) (uri : string) :
  noLiveRecord reg →
  addConnection reg connection uri
  = Some (<[uri := mkInfo connection true false None]> reg,
          mkInfo connection true false None).
Proof.
  intros Hlive. unfold addConnection.
  destruct (reg !! uri) as [r|] eqn:Hr; [|done]. by rewrite (Hlive _ _ Hr).
Qed.

(** A dispatch that is answered with an error leaves no record. *)
Lemma createNewConnection_fails (uri : string) (connection : loc) (w : World) :
  alwaysFails → nothingInFlight → noLiveRecord (connections w) →
  createNewConnection uri connection w
  = (Fulfilled (mkResult false
                  (c_errorMessage (connectionComplete (dispatches (trace w)) uri))
                  (c_errorCode (connectionComplete (dispatches (trace w)) uri))
                  (c_callStack (connectionComplete (dispatches (trace w)) uri))
                  None (Some connection)),
     mkWorld (heap w) (delete uri (connections w))
             (trace w ++ [ConnectRequest uri connection])).
Proof.
  intros Hfails Hquiet Hlive.
  destruct (Hfails (dispatches (trace w)) uri) as (Hres & Hmsg & _).
  unfold createNewConnection, mbind, Async_bind, bind, get_world.
  rewrite (addConnection_fresh _ _ _ Hlive). simpl.
  rewrite Hquiet. simpl.
  unfold setConnectHandler, onConnectionComplete, callConnectHandler.
  unfold mbind, Async_bind, bind, get_world, findConnection. simpl.
  rewrite !alter_insert_eq, lookup_insert_eq. simpl.
  rewrite Hmsg. simpl. unfold deleteConnection.
  rewrite lookup_insert_eq. simpl. rewrite delete_insert_eq.
  by rewrite Hres.
Qed.


Lemma world_eta (w : World) : mkWorld (heap w) (connections w) (trace w) = w.
Proof. by destruct w. Qed.

(** A token resolution that succeeds, succeeds again. *)
Lemma fill_succeeds_run (l : loc) (w : World) (p : ConnectionProfile) :
  heap w !! l = Some p → fillSucceeds p = true →
  ∃ pf, fillInOrClearAzureToken l w
        = (Fulfilled true, mkWorld (<[l := pf]> (heap w)) (connections w) (trace w))
        ∧ fillSucceeds pf = true.
Proof.
  intros Hp. rewrite fillInOrClearAzureToken_eq, Hp. unfold fillSucceeds.
  destruct (negb (String.eqb (authenticationType p) azureMFA)) eqn:Hauth.
  { intros _. eexists. split; [reflexivity|]. simpl. by rewrite Hauth. }
  destruct (truthy_str (bag_get (options p) "azureAccountToken")) eqn:Htok.
  { intros _. exists p. rewrite insert_id by done. rewrite world_eta.
    split; [done|]. by rewrite Hauth, Htok. }
  destruct (fetchToken p) as [token|] eqn:Hfetch; [|done].
  intros _. eexists. split; [reflexivity|]. simpl. rewrite Hauth.
  unfold bag_get; simpl. rewrite lookup_insert_ne by done. rewrite lookup_insert_eq.
  destruct (truthy_str token); [done|].
  apply bool_decide_eq_true. exists token. by rewrite <- Hfetch.
Qed.

Lemma dispatches_started (callbacks : IConnectionCallbacks) (t : list Event) :
  dispatches (started callbacks t) = dispatches t.
Proof.
  unfold started. destruct (onConnectStart callbacks); [|done].
  rewrite dispatches_snoc. simpl. lia.
Qed.

(** With the recovery switched off, the attempt is dispatched once and
    its error is the result. *)
Lemma connectResolved_fails_once
    (retry : loc → option string → option IConnectionCompletionOptions →
             option IConnectionCallbacks → Async IConnectionResult)
    (connection : loc) (uri : string) (opts : IConnectionCompletionOptions)
    (callbacks : IConnectionCallbacks) (w : World) (p : ConnectionProfile) :
  alwaysFails → nothingInFlight → noLiveRecord (connections w) →
  heap w !! connection = Some p → fillSucceeds p = true →
  showFirewallRuleOnError opts = false →
  ∃ r w', connectResolved retry connection uri opts callbacks w = (Fulfilled r, w')
          ∧ connected r = false
          ∧ dispatches (trace w') = dispatches (trace w) + 1.
Proof.
  intros Hfails Hquiet Hlive Hp Hfill Hoff.
  destruct (fill_succeeds_run _ _ _ Hp Hfill) as (pf & Hrun & _).
  destruct (Hfails (dispatches (trace w)) uri) as (Hres & Hmsg & _).
  unfold connectResolved, mbind, Async_bind, bind, catch. rewrite Hrun. simpl.
  rewrite createNewConnection_fails by done. simpl. rewrite Hmsg.
  unfold handleConnectionError. rewrite Hoff. simpl.
  unfold mbind, Async_bind, bind, call_if.
  destruct (onConnectReject callbacks); simpl;
    (eexists; eexists; split; [reflexivity|]; split; [done|]);
    simpl; rewrite ?dispatches_snoc; simpl; lia.
Qed.

(** With the recovery on, the attempt is dispatched, remediated and
    dispatched once more. *)
Lemma connectResolved_recovers (fuel : nat) (connection : loc) (uri : string)
    (opts : IConnectionCompletionOptions) (callbacks : IConnectionCallbacks)
    (w : World) (p : ConnectionProfile) :
  alwaysFails → nothingInFlight → alwaysRemediates →
  noLiveRecord (connections w) →
  heap w !! connection = Some p → fillSucceeds p = true →
  showFirewallRuleOnError opts = true →
  ∃ r w', connectResolved (connectWithOptions (S fuel)) connection uri opts callbacks w
          = (Fulfilled r, w')
          ∧ connected r = false
          ∧ dispatches (trace w') = dispatches (trace w) + 2.
Proof.
  intros Hfails Hquiet [Hcan Hdialog] Hlive Hp Hfill Hon.
  destruct (fill_succeeds_run _ _ _ Hp Hfill) as (pf & Hrun & Hpf).
  destruct (Hfails (dispatches (trace w)) uri) as (Hres & Hmsg & Hcode).
  unfold connectResolved, mbind, Async_bind, bind, catch. rewrite Hrun. simpl.
  rewrite createNewConnection_fails by done. simpl. rewrite Hmsg.
  unfold handleConnectionError. rewrite Hon. simpl. rewrite Hcode. simpl.
  unfold mbind, Async_bind, bind, deref. simpl. rewrite lookup_insert_eq.
  unfold handleFirewallRuleError. rewrite Hcan, Hdialog.
  erewrite connectWithOptions_run by (simpl; apply lookup_insert_eq).
  match goal with
  | |- context [connectResolved ?retry ?c ?u ?o ?cb ?w3] =>
      destruct (connectResolved_fails_once retry c u o cb w3 (stamped pf))
        as (r & w' & Hrun2 & Hconn & Hcount)
  end; try done.
  { simpl. by apply noLiveRecord_delete. }
  { simpl. apply lookup_insert_eq. }
  { by rewrite fillSucceeds_stamped. }
  rewrite Hrun2. exists r, w'. split; [done|]. split; [done|].
  rewrite Hcount. simpl. rewrite dispatches_started, dispatches_snoc. simpl. lia.
Qed.


(** C2: a connect call runs at most one recovery cycle.
    [connectWithOptions] dispatches at most twice, and at most once when the
    recovery option is off, which it is on the retry; two units of fuel,
    one per nested call, are always enough and give the run whatever more
    is supplied. Against a provider that
    answers every dispatch with an error message and an error code, with a
    remediation that always succeeds and the recovery option on, there are
    exactly two dispatches and the second error is the result. *)
Theorem recovery_runs_at_most_once :
  (∀ fuel connection uri opts cbs w,
     dispatches (trace (snd (connectWithOptions fuel connection uri opts cbs w)))
     ≤ dispatches (trace w) + 2)
  ∧ (∀ fuel connection uri opts cbs w,
       showFirewallRuleOnError opts = false →
       dispatches (trace (snd (connectWithOptions fuel connection uri (Some opts) cbs w)))
       ≤ dispatches (trace w) + 1)
  ∧ (∀ fuel connection uri opts cbs w,
       fst (connectWithOptions (S (S fuel)) connection uri opts cbs w) ≠ OutOfFuel
       ∧ connectWithOptions (S (S fuel)) connection uri opts cbs w
         = connectWithOptions 2 connection uri opts cbs w)
  ∧ (alwaysFails → nothingInFlight → alwaysRemediates →
     ∀ fuel connection uri opts cbs w p,
       heap w !! connection = Some p →
       fst (fillInOrClearAzureToken connection w) = Fulfilled true →
       noLiveRecord (connections w) →
       showFirewallRuleOnError (default defaultOptions opts) = true →
       ∃ r, fst (connectWithOptions (S (S fuel)) connection uri opts cbs w) = Fulfilled r
            ∧ connected r = false
            ∧ dispatches (trace (snd (connectWithOptions (S (S fuel)) connection uri
                                        opts cbs w)))
              = dispatches (trace w) + 2).
Proof.
  split; [|split; [|split]].
  - intros fuel connection uri opts cbs w.
    by apply (connectWithOptions_dispatches (dispatches (trace w))).
  - intros fuel connection uri opts cbs w Hoff.
    by apply (connectWithOptions_dispatches_once (dispatches (trace w))).
  - intros fuel connection uri opts cbs w.
    split; [apply total_connectWithOptions|apply connectWithOptions_fuel_enough].
  - intros Hfails Hquiet Hrem fuel connection uri opts cbs w p Hp Hfill Hlive Hon.
    rewrite (fill_outcome _ _ _ Hp) in Hfill. injection Hfill as Hfill.
    rewrite (connectWithOptions_run _ _ _ _ _ _ _ Hp).
    match goal with
    | |- context [connectResolved ?retry ?c ?u ?o ?cb ?w1] =>
        destruct (connectResolved_recovers fuel c u o cb w1 (stamped p))
          as (r & w' & Hrun & Hconn & Hcount)
    end; try done.
    { simpl. apply lookup_insert_eq. }
    { by rewrite fillSucceeds_stamped. }
    rewrite Hrun. exists r. split; [done|]. split; [done|].
    simpl. rewrite Hcount. simpl. by rewrite dispatches_started.
Qed.

End RecoveryScenario.

(** ** Attempts deleted in flight *)

Section DeletedInFlight.

Context {accounts : IAccountManagementService}
        {resources : IResourceProviderService}
        {store : ConnectionStore}
        {provider : ConnectionProvider}
        {platform : Platform}.

Import ConnectionStatusManager.

Lemma deleteConnection_other (reg : Registry) (uri uri' : string) :
  uri' ≠ uri → deleteConnection reg uri' !! uri = reg !! uri.
Proof.
  intros Hne. unfold deleteConnection.
  destruct (reg !! uri') as [r|]; [|done].
  destruct (connecting r); [by rewrite lookup_insert_ne|by rewrite lookup_delete_ne].
Qed.

Lemma deleteConnection_in_flight (reg : Registry) (uri : string)
    (r : ConnectionManagementInfo) :
  reg !! uri = Some r → connecting r = true →
  deleteConnection reg uri !! uri
  = Some (mkInfo (info_connectionProfile r) true true (connectHandler r)).
Proof.
  intros Hr Hc. unfold deleteConnection. rewrite Hr, Hc. by rewrite lookup_insert_eq.
Qed.

Lemma deleteConnection_settled (reg : Registry) (uri : string)
    (r : ConnectionManagementInfo) :
  reg !! uri = Some r → connecting r = false →
  deleteConnection reg uri = delete uri reg.
Proof. intros Hr Hc. unfold deleteConnection. by rewrite Hr, Hc. Qed.

(** Deletions requested while the attempt of [uri] is in flight leave its
    record in place, marked deleted if one of them is for [uri]. *)
Lemma inFlightDeletes_mark (uris : list string) (reg : Registry) (uri : string)
    (r : ConnectionManagementInfo) :
  reg !! uri = Some r → connecting r = true →
  deleted r = true ∨ uri ∈ uris →
  ∃ r', foldl deleteConnection reg uris !! uri = Some r'
        ∧ connecting r' = true ∧ deleted r' = true.
Proof.
  revert reg r. induction uris as [|uri' uris IH]; intros reg r Hr Hc Hd.
  - destruct Hd as [Hd|Hd]; [by exists r|by apply elem_of_nil in Hd].
  - simpl. destruct (decide (uri' = uri)) as [->|Hne].
    + eapply IH; [by apply deleteConnection_in_flight|done|by left].
    + eapply IH; [by rewrite deleteConnection_other|done|].
      destruct Hd as [Hd|Hd]; [by left|].
      apply elem_of_cons in Hd as [->|Hd]; [done|by right].
Qed.

(** The handler of a record that is marked deleted and no longer in flight
    removes the record and resolves with the error handled. *)
Lemma callConnectHandler_deleted (uri : string) (connection : loc) (c : Completion)
    (w : World) (r : ConnectionManagementInfo) :
  connections w !! uri = Some r → deleted r = true → connecting r = false →
  callConnectHandler (mkHandler uri connection) c w
  = (Fulfilled (mkResult (connectResult c) None None None (Some true) (Some connection)),
     with_connections w (delete uri (connections w))).
Proof.
  intros Hr Hd Hc. unfold callConnectHandler, mbind, Async_bind, bind, get_world.
  simpl. unfold findConnection. rewrite Hr. destruct r as [prof cing del h].
  simpl in *. subst. simpl. by erewrite deleteConnection_settled.
Qed.

(** C1: when the deletion of the owner URI is requested while the attempt
    is in flight, so that its record is marked deleted before the provider's
    completion calls the handler, the promise of [createNewConnection] is
    fulfilled with the provider's connected value and [errorHandled] true,
    and the registry has no record for the URI afterwards. *)
Theorem createNewConnection_deleted_in_flight (uri : string) (connection : loc)
    (w : World)
    (Hfree : ∀ r, connections w !! uri = Some r → deleted r = true)
    (Hdeleted : uri ∈ inFlightDeletes (dispatches (trace w))) :
  let run := createNewConnection uri connection w in
  fst run
  = Fulfilled (mkResult (connectResult (connectionComplete (dispatches (trace w)) uri))
                        None None None (Some true) (Some connection))
  ∧ connections (snd run) !! uri = None.
Proof.
  intros run. subst run.
  unfold createNewConnection, mbind, Async_bind, bind, get_world.
  assert (addConnection (connections w) connection uri
          = Some (<[uri := mkInfo connection true false None]> (connections w),
                  mkInfo connection true false None)) as ->.
  { unfold addConnection. destruct (connections w !! uri) as [r|] eqn:Hr; [|done].
    by rewrite (Hfree r). }
  simpl. unfold setConnectHandler. rewrite alter_insert_eq.
  destruct (inFlightDeletes_mark (inFlightDeletes (dispatches (trace w)))
              (<[uri := mkInfo connection true false
                          (Some (mkHandler uri connection))]> (connections w))
              uri _ (lookup_insert_eq _ _ _) eq_refl (or_intror Hdeleted))
    as (r' & Hr' & Hc' & Hd').
  erewrite callConnectHandler_deleted.
  - split; [reflexivity|]. simpl. apply lookup_delete_eq.
  - simpl. unfold onConnectionComplete. rewrite lookup_alter_eq, Hr'. reflexivity.
  - done.
  - done.
Qed.

End DeletedInFlight.

(** ** The idempotent front door *)

Section FrontDoor.

Context {accounts : IAccountManagementService}
        {resources : IResourceProviderService}
        {store : ConnectionStore}
        {provider : ConnectionProvider}
        {platform : Platform}.

Import ConnectionStatusManager.

(** C3: for a profile whose owner URI is connected in the registry,
    [connectIfNotConnected] is fulfilled with the original owner URI and
    leaves the world as it is, so nothing is dispatched; called twice in
    sequence it gives the same URI both times. When the URI is not
    connected and the connect is fulfilled with a result that is not
    connected, it is rejected with the error message of that result. *)
Theorem connectIfNotConnected_idempotent (fuel : nat) (connection : loc)
    (purpose : option Purpose) (saveConnection : bool) (w : World)
    (p : ConnectionProfile) (Hp : heap w !! connection = Some p) :
  let ownerUri := generateUri p purpose in
  let original := getOriginalOwnerUri (connections w) ownerUri in
  (isConnected (connections w) ownerUri = true →
   connectIfNotConnected fuel connection purpose saveConnection w = (Fulfilled original, w)
   ∧ dispatches (trace (snd (connectIfNotConnected fuel connection purpose
                               saveConnection w)))
     = dispatches (trace w)
   ∧ (first ← connectIfNotConnected fuel connection purpose saveConnection;
      second ← connectIfNotConnected fuel connection purpose saveConnection;
      resolve (first, second)) w
     = (Fulfilled (original, original), w))
  ∧ (isConnected (connections w) ownerUri = false →
     ∀ r w',
       connect fuel connection (Some ownerUri)
         (Some (mkOptions saveConnection true
                  (match purpose with Some forDashboard => true | _ => false end)
                  None true))
         None w = (Fulfilled r, w') →
       connected r = false →
       connectIfNotConnected fuel connection purpose saveConnection w
       = (Rejected (Message (errorMessage r)), w')).
Proof.
  intros ownerUri original.
  assert (isConnected (connections w) ownerUri = true →
          connectIfNotConnected fuel connection purpose saveConnection w
          = (Fulfilled original, w)) as Hconnected.
  { intros Hc. unfold connectIfNotConnected, mbind, Async_bind, bind, deref, get_world.
    rewrite Hp. fold ownerUri. by rewrite Hc. }
  split.
  - intros Hc. split; [by apply Hconnected|]. split.
    + by rewrite Hconnected.
    + unfold mbind, Async_bind, bind. by rewrite !Hconnected.
  - intros Hc r w' Hrun Hr.
    unfold connectIfNotConnected, mbind, Async_bind, bind, deref, get_world.
    rewrite Hp. fold ownerUri. rewrite Hc.
    unfold mbind, Async_bind, bind in Hrun. rewrite Hrun. by rewrite Hr.
Qed.

End FrontDoor.

(** ** Deleting a group *)

Section GroupDeletion.

Context {store : ConnectionStore}
        {provider : ConnectionProvider}
        {platform : Platform}.

Import ConnectionStatusManager.

Lemma doDisconnect_runs (uri : string) (w : World) :
  configurationUntouched w (snd (doDisconnect uri w))
  ∧ match disconnectSettles uri with
    | FulfilledWith b => fst (doDisconnect uri w) = Fulfilled b
    | RejectedWith e => fst (doDisconnect uri w) = Rejected e
    end.
Proof.
  unfold doDisconnect, mbind, Async_bind, bind, configurationUntouched. simpl.
  destruct (disconnectSettles uri) as [[|]|e]; simpl; (split; [|done]);
    intros g Hg; apply elem_of_app in Hg as [Hg|Hg]; try done;
    apply list_elem_of_singleton in Hg; discriminate.
Qed.

(** [Promise.all] over the disconnects of the connected connections. *)
Lemma disconnects_settle (reg : Registry) (cs : list ConnectionProfile) (w : World) :
  let disconnected :=
    omap (λ con, let uri := generateUri con None in
                 if isConnected reg uri then Some (doDisconnect uri) else None) cs in
  configurationUntouched w (snd (promise_all disconnected w))
  ∧ (Forall (λ con, isConnected reg (generateUri con None) = true →
                    ∃ b, disconnectSettles (generateUri con None) = FulfilledWith b) cs →
     ∃ l, fst (promise_all disconnected w) = Fulfilled l)
  ∧ (Exists (λ con, isConnected reg (generateUri con None) = true
                    ∧ ∃ e, disconnectSettles (generateUri con None) = RejectedWith e) cs →
     ∃ e, fst (promise_all disconnected w) = Rejected e).
Proof.
  revert w. induction cs as [|con cs IH]; intros w; simpl.
  - split; [by intros g Hg|]. split; [by eexists|]. intros H. by apply Exists_nil in H.
  - destruct (isConnected reg (generateUri con None)) eqn:Hc; simpl.
    + destruct (doDisconnect_runs (generateUri con None) w) as [Hcfg Hout].
      destruct (doDisconnect (generateUri con None) w) as [[b|e|] w1] eqn:Hrun;
        simpl in *.
      * destruct (IH w1) as (Hcfg1 & Hall & Hex).
        destruct (promise_all _ w1) as [[l|e|] w2] eqn:Hrest; simpl in *.
        -- split; [intros g Hg; by apply Hcfg, Hcfg1|].
           split; [by eexists|]. intros H. apply Exists_cons in H as [[_ [e He]]|H].
           ++ rewrite He in Hout. discriminate.
           ++ destruct (Hex H) as [e He]. discriminate.
        -- split; [intros g Hg; by apply Hcfg, Hcfg1|].
           split; [|by eexists]. intros H. apply Forall_cons in H as [_ H].
           destruct (Hall H) as [l Hl]. discriminate.
        -- split; [intros g Hg; by apply Hcfg, Hcfg1|].
           split.
           ++ intros H. apply Forall_cons in H as [_ H].
              destruct (Hall H) as [l Hl]. discriminate.
           ++ intros H. apply Exists_cons in H as [[_ [e He]]|H].
              ** rewrite He in Hout. discriminate.
              ** destruct (Hex H) as [e He]. discriminate.
      * destruct (IH w1) as (Hcfg1 & _ & _).
        split; [intros g Hg; by apply Hcfg, Hcfg1|].
        split; [|by eexists]. intros H. apply Forall_cons in H as [H _].
        destruct (H Hc) as [b Hb]. rewrite Hb in Hout. discriminate.
      * by destruct (disconnectSettles (generateUri con None)).
    + destruct (IH w) as (Hcfg1 & Hall & Hex). split; [done|]. split.
      * intros H. apply Forall_cons in H as [_ H]. by apply Hall.
      * intros H. apply Exists_cons in H as [[Hc' _]|H]; [congruence|by apply Hex].
Qed.

(** The part of C8 that the code keeps: when the disconnect of a connected
    connection of the group is rejected, [deleteConnectionGroup] is
    fulfilled with [false] and does not delete the group from the
    configuration. *)
Lemma deleteConnectionGroup_rejected_disconnect (group : ConnectionProfileGroup) (w : World) :
  Exists (λ con, isConnected (connections w) (generateUri con None) = true
                 ∧ ∃ e, disconnectSettles (generateUri con None) = RejectedWith e)
         (getConnectionsInGroup group) →
  fst (deleteConnectionGroup group w) = Fulfilled false
  ∧ configurationUntouched w (snd (deleteConnectionGroup group w)).
Proof.
  intros Hex. unfold deleteConnectionGroup, mbind, Async_bind, bind, get_world, catch.
  destruct (disconnects_settle (connections w) (getConnectionsInGroup group) w)
    as (Hcfg & _ & Hrej).
  specialize (Hrej Hex). destruct Hrej as [e He]. cbv zeta in *.
  destruct (promise_all _ w) as [o w1]. simpl in *. by subst o.
Qed.

(** When every disconnect is fulfilled, whatever its value, the group is
    deleted from the configuration and the result is [true]. *)
Lemma deleteConnectionGroup_fulfilled_disconnects (group : ConnectionProfileGroup)
    (w : World) :
  Forall (λ con, isConnected (connections w) (generateUri con None) = true →
                 ∃ b, disconnectSettles (generateUri con None) = FulfilledWith b)
         (getConnectionsInGroup group) →
  deleteGroupFromConfiguration group = true →
  fst (deleteConnectionGroup group w) = Fulfilled true
  ∧ GroupDeletedFromConfiguration group ∈ trace (snd (deleteConnectionGroup group w)).
Proof.
  intros Hall Hcfg. unfold deleteConnectionGroup, mbind, Async_bind, bind, get_world, catch.
  destruct (disconnects_settle (connections w) (getConnectionsInGroup group) w)
    as (_ & Hful & _).
  specialize (Hful Hall). destruct Hful as [l Hl]. cbv zeta in *.
  destruct (promise_all _ w) as [o w1]. simpl in *. subst o. rewrite Hcfg. simpl.
  split; [done|]. set_solver.
Qed.

End GroupDeletion.

(** C8 at a failing input: a group with one connected connection whose
    disconnect is fulfilled with [false]. [deleteConnectionGroup] deletes the
    group from the configuration and is fulfilled with [true];
    [deleteConnection], on the same connection, leaves the configuration
    alone and is fulfilled with [false]. *)
Theorem deleteConnectionGroup_ignores_failed_disconnect :
  let w := Scenario.connectedWorld Scenario.passwordProfile in
  let group_run :=
    @deleteConnectionGroup Scenario.plainStore Scenario.firewalled Scenario.azure
      Scenario.oneServer w in
  let single_run :=
    @deleteConnection Scenario.plainStore Scenario.firewalled Scenario.azure
      Scenario.passwordProfile w in
  fst group_run = Fulfilled true
  ∧ trace (snd group_run)
    = [DisconnectRequest "connection:pgsql:db1:u";
       GroupDeletedFromConfiguration Scenario.oneServer;
       DeleteConnectionProfileFired]
  ∧ fst single_run = Fulfilled false
  ∧ trace (snd single_run) = [DisconnectRequest "connection:pgsql:db1:u"].
Proof. repeat split; vm_compute; reflexivity. Qed.

(** ** The theorems at the scenarios *)

Lemma createNewConnection_deleted_in_flight_witness :
  let w := Scenario.world Scenario.passwordProfile in
  let run := @createNewConnection Scenario.deletedInFlight "connection:pgsql:db1:u" 0 w in
  fst run = Fulfilled (mkResult true None None None (Some true) (Some 0))
  ∧ connections (snd run) !! "connection:pgsql:db1:u" = None.
Proof.
  apply (@createNewConnection_deleted_in_flight Scenario.deletedInFlight
           "connection:pgsql:db1:u" 0 (Scenario.world Scenario.passwordProfile)).
  - intros r Hr. vm_compute in Hr. discriminate.
  - vm_compute. constructor.
Defined.

Lemma recovery_runs_at_most_once_witness :
  let w := Scenario.world Scenario.passwordProfile in
  let run := @connectWithOptions Scenario.noAccount Scenario.remediates Scenario.plainStore
               Scenario.firewalled Scenario.azure 2 0 None None None w in
  ∃ r, fst run = Fulfilled r ∧ connected r = false
       ∧ dispatches (trace (snd run)) = dispatches (trace w) + 2.
Proof.
  apply (proj2 (proj2 (proj2
           (@recovery_runs_at_most_once Scenario.noAccount Scenario.remediates
              Scenario.plainStore Scenario.firewalled Scenario.azure))))
    with (p := Scenario.passwordProfile).
  - intros n uri. repeat split; reflexivity.
  - intros n. reflexivity.
  - split; intros; reflexivity.
  - vm_compute. reflexivity.
  - vm_compute. reflexivity.
  - intros uri r Hr. vm_compute in Hr. discriminate.
  - reflexivity.
Defined.

Lemma connectIfNotConnected_idempotent_witness :
  (let w := Scenario.connectedWorld Scenario.passwordProfile in
   @connectIfNotConnected Scenario.noAccount Scenario.remediates Scenario.plainStore
     Scenario.firewalled Scenario.azure 2 0 None false w
   = (Fulfilled "connection:pgsql:db1:u", w))
  ∧ (let w := Scenario.world Scenario.passwordProfile in
     fst (@connectIfNotConnected Scenario.noAccount Scenario.remediates Scenario.plainStore
            Scenario.firewalled Scenario.azure 2 0 None false w)
     = Rejected (Message (Some "firewall"))).
Proof.
  split.
  - apply (@connectIfNotConnected_idempotent Scenario.noAccount Scenario.remediates
             Scenario.plainStore Scenario.firewalled Scenario.azure 2 0 None false
             (Scenario.connectedWorld Scenario.passwordProfile) Scenario.passwordProfile).
    + vm_compute. reflexivity.
    + vm_compute. reflexivity.
  - intros w.
    rewrite (proj2 (@connectIfNotConnected_idempotent Scenario.noAccount
                      Scenario.remediates Scenario.plainStore Scenario.firewalled
                      Scenario.azure 2 0 None false w Scenario.passwordProfile
                      ltac:(vm_compute; reflexivity))
               ltac:(vm_compute; reflexivity)
               (mkResult false (Some "firewall") (Some 40615%Z) None None (Some 0))
               (snd (@connect Scenario.noAccount Scenario.remediates Scenario.plainStore
                       Scenario.firewalled Scenario.azure 2 0
                       (Some "connection:pgsql:db1:u")
                       (Some (mkOptions false true false None true)) None w))
               ltac:(vm_compute; reflexivity) ltac:(reflexivity)).
    reflexivity.
Defined.

Lemma connectWithOptions_token_failure_witness :
  let w := Scenario.world Scenario.federatedProfile in
  let run := @connectWithOptions Scenario.noAccount Scenario.remediates Scenario.plainStore
               Scenario.firewalled Scenario.azure 1 0 None None None w in
  fst run = Rejected AuthTokenError
  ∧ dispatches (trace (snd run)) = dispatches (trace w)
  ∧ filter (λ e, is_dispatch e = true) (trace (snd run))
    = filter (λ e, is_dispatch e = true) (trace w)
  ∧ connections (snd run) = connections w.
Proof.
  apply (@connectWithOptions_token_failure Scenario.noAccount Scenario.remediates
           Scenario.plainStore Scenario.firewalled Scenario.azure 0 0 None None None
           (Scenario.world Scenario.federatedProfile) Scenario.federatedProfile).
  - vm_compute. reflexivity.
  - vm_compute. reflexivity.
Defined.

Lemma fillInOrClearAzureToken_cases_witness :
  let w := Scenario.world Scenario.federatedProfile in
  @fillInOrClearAzureToken Scenario.oneAccount Scenario.azure 0 w
  = (Fulfilled true,
     with_heap w (<[0 := set_option "password" (Some "")
                           (set_option "azureAccountToken" (Some "tokenB")
                                       Scenario.federatedProfile)]> (heap w))).
Proof.
  intros w.
  destruct (@fillInOrClearAzureToken_cases Scenario.oneAccount Scenario.azure w 0
              Scenario.federatedProfile ltac:(vm_compute; reflexivity))
    as (_ & _ & Hfederated).
  destruct (Hfederated ltac:(reflexivity) ltac:(reflexivity)) as (_ & _ & Hmatched).
  destruct (Hmatched [] (mkAccount "u" false) [] (mkAccount "u" false)
              ltac:(reflexivity) ltac:(constructor) ltac:(reflexivity)
              ltac:(left; split; reflexivity))
    as (Htenant & _).
  apply (Htenant "tenantB" [("tenantA", "tokenA")] "tokenB" []).
  - reflexivity.
  - discriminate.
  - reflexivity.
  - constructor; [discriminate|constructor].
Defined.

Lemma token_cleared_unless_federated_witness :
  let w := Scenario.world Scenario.passwordProfile in
  TokenSettled (platform := Scenario.azure) 0 Scenario.passwordProfile
    (snd (@connectWithOptions Scenario.noAccount Scenario.remediates Scenario.plainStore
            Scenario.firewalled Scenario.azure 2 0 None None None w))
  ∧ TokenSettled (platform := Scenario.azure) 0 Scenario.passwordProfile
      (snd (@connect Scenario.noAccount Scenario.remediates Scenario.plainStore
              Scenario.firewalled Scenario.azure 2 0 None None None w)).
Proof.
  intros w.
  destruct (@token_cleared_unless_federated Scenario.noAccount Scenario.remediates
              Scenario.plainStore Scenario.firewalled Scenario.azure)
    as (Hoptions & _ & Hconnect).
  split.
  - apply Hoptions. vm_compute. reflexivity.
  - apply (Hconnect 2 0 None None None w (heap w) 0 false Scenario.passwordProfile).
    + eexists. vm_compute. reflexivity.
    + reflexivity.
    + vm_compute. reflexivity.
    + eexists. vm_compute. reflexivity.
Defined.

(** ** Runs of the scenarios *)

(** A password profile and a provider that accepts: one dispatch, the result
    is connected and so is the URI. *)
Example connect_accepted :
  let run := @connect Scenario.noAccount Scenario.remediates Scenario.plainStore
               Scenario.accepts Scenario.azure 2 0 (Some "connection:pgsql:db1:u")
               None None (Scenario.world Scenario.passwordProfile) in
  (connected <$> match fst run with Fulfilled r => Some r | _ => None end) = Some true
  ∧ dispatches (trace (snd run)) = 1
  ∧ ConnectionStatusManager.isConnected (connections (snd run)) "connection:pgsql:db1:u"
    = true.
Proof. repeat split; vm_compute; reflexivity. Qed.

(** A firewall error that is remediated: two dispatches, the result is
    connected. *)
Example connect_after_remediation :
  let run := @connect Scenario.noAccount Scenario.remediates Scenario.plainStore
               Scenario.firewalledOnce Scenario.azure 2 0 (Some "connection:pgsql:db1:u")
               None None (Scenario.world Scenario.passwordProfile) in
  (connected <$> match fst run with Fulfilled r => Some r | _ => None end) = Some true
  ∧ dispatches (trace (snd run)) = 2.
Proof. repeat split; vm_compute; reflexivity. Qed.

(** A federated profile and no account: [connectWithOptions] rejects
    before any dispatch, while [connect] resolves with a result that is not
    connected. *)
Example connect_without_account :
  let w := Scenario.world Scenario.federatedProfile in
  fst (@connectWithOptions Scenario.noAccount Scenario.remediates Scenario.plainStore
         Scenario.accepts Scenario.azure 2 0 None None None w)
  = Rejected AuthTokenError
  ∧ fst (@connect Scenario.noAccount Scenario.remediates Scenario.plainStore
           Scenario.accepts Scenario.azure 2 0 None None None w)
    = Fulfilled (mkResult false None None None None None)
  ∧ dispatches (trace (snd (@connect Scenario.noAccount Scenario.remediates
                              Scenario.plainStore Scenario.accepts Scenario.azure
                              2 0 None None None w))) = 0.
Proof. repeat split; vm_compute; reflexivity. Qed.

(** * Further properties *)

(** ** Token resolution, once more *)

Section TokenResolutionMore.

Context {accounts : IAccountManagementService} {platform : Platform}.

Lemma fetchToken_set_option (p : ConnectionProfile) (k : string) (v : option string) :
  fetchToken (set_option k v p) = fetchToken p.
Proof. reflexivity. Qed.

(** X1: resolving the token of a profile a second time changes nothing: the
    second run has the outcome of the first and leaves its world as it
    is. *)
Theorem fillInOrClearAzureToken_idempotent (connection : loc) (w : World) :
  fillInOrClearAzureToken connection (snd (fillInOrClearAzureToken connection w))
  = fillInOrClearAzureToken connection w.
Proof.
  rewrite (fillInOrClearAzureToken_eq connection w).
  destruct (heap w !! connection) as [p|] eqn:Hp.
  2:{ simpl. by rewrite fillInOrClearAzureToken_eq, Hp. }
  destruct (negb (String.eqb (authenticationType p) azureMFA)) eqn:Hauth.
  { simpl. rewrite fillInOrClearAzureToken_eq. simpl. rewrite lookup_insert_eq. simpl.
    rewrite Hauth. unfold with_heap, set_option; simpl.
    by rewrite !insert_insert_eq. }
  destruct (truthy_str (bag_get (options p) "azureAccountToken")) eqn:Htok.
  { simpl. by rewrite fillInOrClearAzureToken_eq, Hp, Hauth, Htok. }
  destruct (fetchToken p) as [token|] eqn:Hfetch.
  2:{ simpl. by rewrite fillInOrClearAzureToken_eq, Hp, Hauth, Htok, Hfetch. }
  simpl. rewrite fillInOrClearAzureToken_eq. simpl. rewrite lookup_insert_eq. simpl.
  rewrite Hauth. unfold bag_get at 1. simpl.
  rewrite lookup_insert_ne by done. rewrite lookup_insert_eq.
  destruct (truthy_str token) eqn:Htt.
  { reflexivity. }
  rewrite !fetchToken_set_option, Hfetch.
  unfold with_heap, set_option; simpl. rewrite insert_insert_eq. do 3 f_equal.
  f_equal. apply map_eq. intros k.
  rewrite !lookup_insert. repeat case_decide; congruence.
Qed.

(** X2: a token resolution that gives [false] has changed nothing; the
    profile is a federated one without a token. *)
Theorem fillInOrClearAzureToken_false_unchanged (connection : loc) (w : World)
    (Hfalse : fst (fillInOrClearAzureToken connection w) = Fulfilled false) :
  snd (fillInOrClearAzureToken connection w) = w
  ∧ ∃ p, heap w !! connection = Some p
         ∧ authenticationType p = azureMFA
         ∧ truthy_str (bag_get (options p) "azureAccountToken") = false.
Proof.
  rewrite fillInOrClearAzureToken_eq in *.
  destruct (heap w !! connection) as [p|] eqn:Hp; [|done].
  destruct (negb (String.eqb (authenticationType p) azureMFA)) eqn:Hauth; [done|].
  destruct (truthy_str (bag_get (options p) "azureAccountToken")) eqn:Htok; [done|].
  destruct (fetchToken p) as [token|]; [done|].
  split; [done|]. exists p. split; [done|]. split; [|done].
  apply negb_false_iff in Hauth. by apply String.eqb_eq.
Qed.

(** X3: when the account of the user name is stale and its refresh is
    cancelled, the resolution gives [false] and the profile is left as it
    is, whatever tokens the account has. *)
Theorem fillInOrClearAzureToken_refresh_cancelled (connection : loc) (w : World)
    (p : ConnectionProfile) (l1 : list Account) (a : Account) (l2 : list Account)
    (Hp : heap w !! connection = Some p)
    (Hauth : authenticationType p = azureMFA)
    (Htoken : truthy_str (bag_get (options p) "azureAccountToken") = false)
    (Haccounts : getAccountsForProvider "azurePublicCloud" = Some (l1 ++ a :: l2))
    (Hfirst : Forall (λ x, accountId x ≠ userName p) l1)
    (Hmatch : accountId a = userName p)
    (Hstale : isStale a = true)
    (Hcancel : refreshAccount a = None) :
  fillInOrClearAzureToken connection w = (Fulfilled false, w).
Proof.
  rewrite fillInOrClearAzureToken_eq, Hp.
  apply String.eqb_eq in Hauth. rewrite Hauth, Htoken. simpl.
  unfold fetchToken. rewrite Haccounts.
  assert (list_find (λ account, accountId account = userName p) (l1 ++ a :: l2)
          = Some (length l1, a)) as Hfind by by apply list_find_first.
  destruct (l1 ++ a :: l2) as [|x xs] eqn:E; [by destruct l1|].
  by rewrite Hfind, Hstale, Hcancel.
Qed.

End TokenResolutionMore.

Lemma fillInOrClearAzureToken_false_unchanged_witness :
  let w := Scenario.world Scenario.federatedProfile in
  snd (@fillInOrClearAzureToken Scenario.noAccount Scenario.azure 0 w) = w
  ∧ ∃ p, heap w !! 0 = Some p
         ∧ authenticationType p = @azureMFA Scenario.azure
         ∧ truthy_str (bag_get (options p) "azureAccountToken") = false.
Proof.
  apply (@fillInOrClearAzureToken_false_unchanged Scenario.noAccount Scenario.azure 0
           (Scenario.world Scenario.federatedProfile)).
  vm_compute. reflexivity.
Defined.

Lemma fillInOrClearAzureToken_refresh_cancelled_witness :
  let w := Scenario.world Scenario.federatedProfile in
  @fillInOrClearAzureToken Cases.cancelledRefresh Scenario.azure 0 w = (Fulfilled false, w).
Proof.
  apply (@fillInOrClearAzureToken_refresh_cancelled Cases.cancelledRefresh Scenario.azure
           0 (Scenario.world Scenario.federatedProfile) Scenario.federatedProfile
           [] (mkAccount "u" true) []).
  - vm_compute. reflexivity.
  - reflexivity.
  - reflexivity.
  - reflexivity.
  - constructor.
  - reflexivity.
  - reflexivity.
  - reflexivity.
Defined.

(** ** Groups and their connections *)

(** The groups at or below a group. *)
Lemma getConnectionsInGroup_unfold (g : ConnectionProfileGroup) :
  getConnectionsInGroup g
  = default [] (connections_of g)
    ++ flat_map getConnectionsInGroup (default [] (children_of g)).
Proof. destruct g as [n [[|c cs]|] [[|ch chs]|]]; simpl; by rewrite ?app_nil_r. Qed.

(** X4: [getConnectionsInGroup] collects the connections of the group and of
    every group below it, and nothing else. *)
Theorem getConnectionsInGroup_collects (g : ConnectionProfileGroup) (c : ConnectionProfile) :
  c ∈ getConnectionsInGroup g
  ↔ ∃ g', (g' = g ∨ ∃ l, children_of g = Some l ∧ InForest l g')
          ∧ ∃ cs, connections_of g' = Some cs ∧ c ∈ cs.
Proof.
  revert c. induction g as [n cs | n cs l IH] using group_ind'; intros c;
    rewrite getConnectionsInGroup_unfold; simpl.
  - rewrite app_nil_r. split.
    + intros Hc. exists (mkGroup n cs None). split; [by left|].
      destruct cs as [cs|]; [by exists cs|by apply elem_of_nil in Hc].
    + intros (g' & [-> | (l & Hl & _)] & cs' & Hcs & Hc); [|discriminate].
      simpl in Hcs. by subst cs.
  - rewrite Forall_forall in IH. rewrite elem_of_app. split.
    + intros [Hc | Hc].
      * exists (mkGroup n cs (Some l)). split; [by left|].
        destruct cs as [cs|]; [by exists cs|by apply elem_of_nil in Hc].
      * apply list_elem_of_In, in_flat_map in Hc as (child & Hchild & Hc).
        apply list_elem_of_In in Hchild, Hc.
        apply (IH child Hchild) in Hc as (g' & Hg' & Hcs).
        exists g'. split; [|done]. right. exists l. split; [done|].
        destruct Hg' as [-> | (l' & Hl' & Hin)];
          [by apply InForest_here|by eapply InForest_below].
    + intros (g' & [-> | (l' & Hl' & Hin)] & cs' & Hcs & Hc).
      * left. simpl in Hcs. by subst cs.
      * right. injection Hl' as <-. apply list_elem_of_In, in_flat_map.
        destruct Hin as [l g' Hin | l parent l2 g' Hpar Hch Hin].
        -- exists g'. split; [by apply list_elem_of_In|].
           apply list_elem_of_In, IH; [done|]. exists g'. split; [by left|eauto].
        -- exists parent. split; [by apply list_elem_of_In|].
           apply list_elem_of_In, IH; [done|]. exists g'. split; [|eauto].
           right. eauto.
Qed.

Lemma registeredIn_getConnectionsInGroup (g : ConnectionProfileGroup) :
  registeredIn g = true ↔ getConnectionsInGroup g ≠ [].
Proof.
  induction g as [n cs | n cs l IH] using group_ind';
    rewrite registeredIn_unfold, getConnectionsInGroup_unfold, orb_true_iff;
    unfold has_connections, childrenRegistered; simpl.
  - rewrite app_nil_r.
    destruct cs as [[|c cs]|]; simpl;
      (split; [intros [H|H]; done|intros H; first [by left|done]]).
  - rewrite Forall_forall in IH. rewrite existsb_exists. split.
    + intros [H | (x & Hx & Hreg)].
      * destruct cs as [[|c cs]|]; done.
      * apply list_elem_of_In in Hx. apply (IH x Hx) in Hreg.
        intros Hnil. apply app_eq_nil in Hnil as [_ Hnil]. apply Hreg.
        destruct (getConnectionsInGroup x) as [|c rest] eqn:E; [done|].
        assert (In c (flat_map getConnectionsInGroup l)) as Hin.
        { apply in_flat_map. exists x. split; [by apply list_elem_of_In|].
          rewrite E. by left. }
        rewrite Hnil in Hin. done.
    + intros Hne. destruct cs as [[|c cs]|]; simpl in *; [|by left|].
      * right. destruct (flat_map getConnectionsInGroup l) as [|c rest] eqn:E; [done|].
        assert (In c (flat_map getConnectionsInGroup l)) as Hin by (rewrite E; by left).
        apply in_flat_map in Hin as (x & Hx & Hc). exists x. split; [done|].
        apply list_elem_of_In in Hx. apply IH; [done|]. intros Hnil.
        rewrite Hnil in Hc. done.
      * right. destruct (flat_map getConnectionsInGroup l) as [|c rest] eqn:E; [done|].
        assert (In c (flat_map getConnectionsInGroup l)) as Hin by (rewrite E; by left).
        apply in_flat_map in Hin as (x & Hx & Hc). exists x. split; [done|].
        apply list_elem_of_In in Hx. apply IH; [done|]. intros Hnil.
        rewrite Hnil in Hc. done.
Qed.

Section RegisteredAndSaved.

Context {store : ConnectionStore}.

(** X5: [hasRegisteredServers] and [getConnectionsInGroup] agree: there are
    registered servers exactly when some group of the store has a
    connection to give. *)
Theorem hasRegisteredServers_getConnectionsInGroup :
  ∃ b, (∃ n : nat, ∀ m : nat, n ≤ m → hasRegisteredServers m = Some b)
       ∧ (b = true
          ↔ ∃ g, g ∈ getConnectionProfileGroups ∧ getConnectionsInGroup g ≠ []).
Proof.
  exists (existsb registeredIn getConnectionProfileGroups). split.
  - apply doHasRegisteredServers_terminates.
  - rewrite existsb_exists. split.
    + intros (g & Hg & Hreg). exists g. split; [by apply list_elem_of_In|].
      by apply registeredIn_getConnectionsInGroup.
    + intros (g & Hg & Hne). exists g. split; [by apply list_elem_of_In|].
      by apply registeredIn_getConnectionsInGroup.
Qed.

End RegisteredAndSaved.

(** ** Deleting connections and groups, once more *)

Section DeletionMore.

Context {store : ConnectionStore}
        {provider : ConnectionProvider}
        {platform : Platform}.



(** X6: [deleteConnection] asks for a disconnect exactly when the URI of the
    connection is connected or connecting; the connection is deleted from
    the configuration exactly when the call is fulfilled with [true], and
    for a connection that had to be disconnected that is only after a
    disconnect fulfilled with [true]. *)
Theorem deleteConnection_settles (c : ConnectionProfile) (w : World) :
  let uri := generateUri c None in
  let live := ConnectionStatusManager.isConnected (connections w) uri || ConnectionStatusManager.isConnecting (connections w) uri in
  let run := deleteConnection c w in
  ∃ added, trace (snd run) = trace w ++ added
    ∧ (DisconnectRequest uri ∈ added ↔ live = true)
    ∧ (ConnectionDeletedFromConfiguration c ∈ added ↔ fst run = Fulfilled true)
    ∧ (fst run = Fulfilled true → live = true →
       disconnectSettles uri = FulfilledWith true).
Proof.
  intros uri live run. subst run.
  unfold deleteConnection, mbind, Async_bind, bind, get_world. fold uri. fold live.
  destruct live.
  - unfold doDisconnect, mbind, Async_bind, bind. simpl.
    destruct (disconnectSettles uri) as [[|]|e]; simpl.
    + destruct (deleteConnectionFromConfiguration c); simpl.
      * exists [DisconnectRequest uri; ConnectionDeletedFromConfiguration c;
                DeleteConnectionProfileFired].
        split; [by rewrite <- !app_assoc|]. split; [set_solver|]. split; [set_solver|done].
      * exists [DisconnectRequest uri]. split; [done|]. split; [set_solver|].
        split; [|done]. split; [|done]. intros H. apply list_elem_of_singleton in H.
        discriminate.
    + exists [DisconnectRequest uri]. split; [done|]. split; [set_solver|].
      split; [|done]. split; [|done]. intros H. apply list_elem_of_singleton in H.
      discriminate.
    + exists [DisconnectRequest uri]. split; [done|]. split; [set_solver|].
      split; [|done]. split; [|done]. intros H. apply list_elem_of_singleton in H.
      discriminate.
  - destruct (deleteConnectionFromConfiguration c); simpl.
    + exists [ConnectionDeletedFromConfiguration c; DeleteConnectionProfileFired].
      split; [by rewrite <- !app_assoc|]. split; [|split; [set_solver|done]].
      split; [|done]. intros H. apply elem_of_cons in H as [H|H]; [done|].
      apply list_elem_of_singleton in H. done.
    + exists []. split; [by rewrite app_nil_r|]. split; [|split; [|done]].
      * split; [|done]. intros H. by apply elem_of_nil in H.
      * split; [|done]. intros H. by apply elem_of_nil in H.
Qed.

(** The URIs [deleteConnectionGroup] disconnects: those of the connections
    of the group that are connected. *)
Lemma disconnects_requested (reg : Registry) (cs : list ConnectionProfile) (w : World) :
  let disconnected :=
    omap (λ con, let uri := generateUri con None in
                 if ConnectionStatusManager.isConnected reg uri then Some (doDisconnect uri) else None) cs in
  trace (snd (promise_all disconnected w))
  = trace w
    ++ (DisconnectRequest
          <$> filter (λ uri, ConnectionStatusManager.isConnected reg uri = true)
                     ((λ con, generateUri con None) <$> cs))
  ∧ fst (promise_all disconnected w) ≠ OutOfFuel.
Proof.
  revert w. induction cs as [|con cs IH]; intros w; simpl in *.
  - by rewrite app_nil_r.
  - rewrite filter_cons. destruct (ConnectionStatusManager.isConnected reg (generateUri con None)) eqn:Hc; simpl.
    + assert (trace (snd (doDisconnect (generateUri con None) w))
              = trace w ++ [DisconnectRequest (generateUri con None)]
              ∧ fst (doDisconnect (generateUri con None) w) ≠ OutOfFuel) as [Ht Hf].
      { unfold doDisconnect, mbind, Async_bind, bind. simpl.
        by destruct (disconnectSettles _) as [[|]|e]. }
      destruct (doDisconnect (generateUri con None) w) as [[b|e|] w1]; simpl in *;
        [| |done].
      * destruct (IH w1) as [IHt IHf].
        destruct (promise_all _ w1) as [[l|e|] w2]; simpl in *;
          rewrite IHt, Ht, <- app_assoc; done.
      * destruct (IH w1) as [IHt IHf]. split; [|done].
        etransitivity; [exact IHt|]. by rewrite Ht, <- app_assoc.
    + apply IH.
Qed.

(** X7: [deleteConnectionGroup] never rejects. It asks for the disconnect of
    the connections of the group whose URI is connected, each once and in
    the order of the group, before anything else; it is fulfilled with
    [true] exactly when it has gone on to delete the group from the
    configuration. *)
Theorem deleteConnectionGroup_settles (group : ConnectionProfileGroup) (w : World) :
  let uris := filter (λ uri, ConnectionStatusManager.isConnected (connections w) uri = true)
                     ((λ con, generateUri con None) <$> getConnectionsInGroup group) in
  let run := deleteConnectionGroup group w in
  ∃ b tail,
    fst run = Fulfilled b
    ∧ trace (snd run) = trace w ++ (DisconnectRequest <$> uris) ++ tail
    ∧ (b = true
       ∧ tail = [GroupDeletedFromConfiguration group; DeleteConnectionProfileFired]
       ∨ b = false ∧ tail = []).
Proof.
  intros uris run. subst run.
  unfold deleteConnectionGroup, mbind, Async_bind, bind, get_world, catch.
  destruct (disconnects_requested (connections w) (getConnectionsInGroup group) w)
    as [Ht Hf].
  cbv zeta in *. fold uris in Ht.
  destruct (promise_all _ w) as [[l|e|] w1]; simpl in *; [| |done].
  - destruct (deleteGroupFromConfiguration group); simpl.
    + exists true, [GroupDeletedFromConfiguration group; DeleteConnectionProfileFired].
      split; [done|]. split; [|by left]. rewrite Ht. by rewrite <- !app_assoc.
    + exists false, []. split; [done|]. split; [|by right]. by rewrite Ht, app_nil_r.
  - exists false, []. split; [done|]. split; [|by right]. by rewrite Ht, app_nil_r.
Qed.

(** X8: when the disconnect of a connected connection of the group is
    rejected, [deleteConnectionGroup] is fulfilled with [false] and leaves
    the configuration alone; the connected connections of the group have
    all been asked to disconnect nonetheless, and nothing else has
    happened. *)
Theorem deleteConnectionGroup_failed_disconnect (group : ConnectionProfileGroup)
    (w : World)
    (Hrejected :
       Exists (λ con, ConnectionStatusManager.isConnected (connections w)
                        (generateUri con None) = true
                      ∧ ∃ e, disconnectSettles (generateUri con None) = RejectedWith e)
              (getConnectionsInGroup group)) :
  let uris := filter (λ uri, ConnectionStatusManager.isConnected (connections w) uri = true)
                     ((λ con, generateUri con None) <$> getConnectionsInGroup group) in
  let run := deleteConnectionGroup group w in
  fst run = Fulfilled false
  ∧ configurationUntouched w (snd run)
  ∧ trace (snd run) = trace w ++ (DisconnectRequest <$> uris).
Proof.
  intros uris run. subst run.
  destruct (deleteConnectionGroup_rejected_disconnect group w Hrejected)
    as [Hfalse Hcfg].
  split; [done|]. split; [done|]. revert Hfalse. clear Hcfg.
  unfold deleteConnectionGroup, mbind, Async_bind, bind, get_world, catch.
  destruct (disconnects_requested (connections w) (getConnectionsInGroup group) w)
    as [Ht Hf].
  cbv zeta in *. fold uris in Ht.
  destruct (promise_all _ w) as [[l|e|] w1]; simpl in *; [| |done].
  - destruct (deleteGroupFromConfiguration group); simpl; [done|]. by intros _.
  - by intros _.
Qed.

End DeletionMore.

Lemma deleteConnectionGroup_failed_disconnect_witness :
  let w := Scenario.connectedWorld Scenario.passwordProfile in
  let run := @deleteConnectionGroup Scenario.plainStore Cases.refusesDisconnect
               Scenario.azure Scenario.oneServer w in
  fst run = Fulfilled false
  ∧ configurationUntouched w (snd run)
  ∧ trace (snd run) = [DisconnectRequest "connection:pgsql:db1:u"].
Proof.
  apply (@deleteConnectionGroup_failed_disconnect Scenario.plainStore
           Cases.refusesDisconnect Scenario.azure Scenario.oneServer
           (Scenario.connectedWorld Scenario.passwordProfile)).
  apply Exists_cons. left. split; [vm_compute; reflexivity|].
  eexists. reflexivity.
Defined.

(** ** Attempts that are not dispatched *)

Section NotDispatched.

Context {accounts : IAccountManagementService}
        {resources : IResourceProviderService}
        {store : ConnectionStore}
        {provider : ConnectionProvider}
        {platform : Platform}.

#[local] Arguments connectWithOptions : simpl never.

Lemma bind_run {A B : Type} (m : Async A) (k : A → Async B) (w w' : World) (a : A) :
  m w = (Fulfilled a, w') → (m ≫= k) w = k a w'.
Proof. intros H. unfold mbind, Async_bind, bind. by rewrite H. Qed.

Lemma fillSucceeds_set_password (v : option string) (p : ConnectionProfile) :
  fillSucceeds (set_password v p) = fillSucceeds p.
Proof. done. Qed.




(** X11: when the token resolution fails, [connectWithOptions] rejects
    without calling [onConnectReject]: [onConnectStart] is the only
    callback called, and the profile is left with the [groupId] and
    [databaseDisplayName] options the call has stamped on it. *)
Theorem connectWithOptions_token_failure_unreported (fuel : nat) (connection : loc)
    (uri : option string) (opts : option IConnectionCompletionOptions)
    (cbs : option IConnectionCallbacks) (w : World) (p : ConnectionProfile)
    (Hp : heap w !! connection = Some p)
    (Hfill : fillSucceeds p = false) :
  let run := connectWithOptions (S fuel) connection uri opts cbs w in
  fst run = Rejected AuthTokenError
  ∧ trace (snd run)
    = trace w ++ (if onConnectStart (default defaultCallbacks cbs)
                  then [OnConnectStart] else [])
  ∧ heap (snd run)
    = <[connection := set_option "databaseDisplayName" (databaseName p)
                        (set_option "groupId" (groupId p) p)]> (heap w).
Proof.
  intros run. subst run. rewrite (connectWithOptions_run _ _ _ _ _ _ _ Hp).
  unfold connectResolved, mbind, Async_bind, bind.
  rewrite (fill_fails _ _ (stamped p));
    [|simpl; apply lookup_insert_eq|by rewrite fillSucceeds_stamped].
  simpl. unfold started.
  destruct (onConnectStart _); by rewrite ?app_nil_r.
Qed.

End NotDispatched.



Lemma connectWithOptions_token_failure_unreported_witness :
  let w := Scenario.world Scenario.federatedProfile in
  let run := @connectWithOptions Scenario.noAccount Scenario.remediates Scenario.plainStore
               Scenario.accepts Scenario.azure 1 0 None None None w in
  fst run = Rejected AuthTokenError
  ∧ trace (snd run) = [OnConnectStart]
  ∧ heap (snd run)
    = <[0 := set_option "databaseDisplayName" None
               (set_option "groupId" None Scenario.federatedProfile)]> (heap w).
Proof.
  apply (@connectWithOptions_token_failure_unreported Scenario.noAccount
           Scenario.remediates Scenario.plainStore Scenario.accepts Scenario.azure
           0 0 None None None (Scenario.world Scenario.federatedProfile)
           Scenario.federatedProfile).
  - reflexivity.
  - vm_compute. reflexivity.
Defined.

(** ** The outcome callbacks *)

Section Reports.

Context {A B : Type}.

Lemma bind_fulfilled (m : Async A) (k : A → Async B) (w w' : World) (b : B) :
  (m ≫= k) w = (Fulfilled b, w') →
  ∃ a w1, m w = (Fulfilled a, w1) ∧ k a w1 = (Fulfilled b, w').
Proof.
  unfold mbind, Async_bind, bind. destruct (m w) as [[a|e|] w1]; [eauto|done|done].
Qed.

Lemma catch_fulfilled (m : Async A) (h : Thrown → Async A) (w w' : World) (a : A) :
  catch m h w = (Fulfilled a, w') →
  m w = (Fulfilled a, w') ∨ ∃ e w1, m w = (Rejected e, w1) ∧ h e w1 = (Fulfilled a, w').
Proof.
  unfold catch. destruct (m w) as [[a'|e|] w1]; [by left|right; eauto|done].
Qed.

Lemma catch_rejected (m : Async A) (h : Thrown → Async A) (w : World) (e : Thrown) :
  fst (catch m h w) = Rejected e →
  ∃ e' w1, m w = (Rejected e', w1) ∧ catch m h w = h e' w1.
Proof.
  unfold catch. destruct (m w) as [[a|e'|] w1]; [done|eauto|done].
Qed.

Lemma unreported_bind (m : Async A) (k : A → Async B) :
  unreported m → (∀ a, unreported (k a)) → unreported (m ≫= k).
Proof.
  intros Hm Hk w. unfold mbind, Async_bind, bind. specialize (Hm w).
  destruct (m w) as [[a|e|] w1]; simpl in *; [|done|done].
  by rewrite Hk.
Qed.

Lemma unreported_catch (m : Async A) (h : Thrown → Async A) :
  unreported m → (∀ e, unreported (h e)) → unreported (catch m h).
Proof.
  intros Hm Hh w. unfold catch. specialize (Hm w).
  destruct (m w) as [[a|e|] w1]; simpl in *; [done| |done].
  by rewrite Hh.
Qed.

Lemma unreported_resolve (a : A) : unreported (resolve a).
Proof. done. Qed.

Lemma unreported_mret (a : A) : unreported (mret a).
Proof. done. Qed.

Lemma unreported_throw (e : Thrown) : unreported (@throw A e).
Proof. done. Qed.

End Reports.

Lemma reports_snoc (t : list Event) (e : Event) :
  reports (t ++ [e]) = reports t ++ (if is_report e then [e] else []).
Proof.
  unfold reports. rewrite filter_app. f_equal.
  rewrite filter_cons, filter_nil. by destruct (is_report e).
Qed.

Lemma unreported_get_world : unreported get_world.
Proof. done. Qed.

Lemma unreported_deref (l : loc) : unreported (deref l).
Proof. intros w. unfold deref. by destruct (heap w !! l). Qed.

Lemma unreported_update (l : loc) (f : ConnectionProfile → ConnectionProfile) :
  unreported (update l f).
Proof. intros w. unfold update. by destruct (heap w !! l). Qed.

Lemma unreported_set_connections (reg : Registry) : unreported (set_connections reg).
Proof. done. Qed.

Lemma unreported_emit (e : Event) : is_report e = false → unreported (emit e).
Proof. intros He w. simpl. rewrite reports_snoc, He. by rewrite app_nil_r. Qed.

Lemma unreported_call_if (b : bool) (e : Event) :
  is_report e = false → unreported (call_if b e).
Proof. intros He. destruct b; [by apply unreported_emit|done]. Qed.

(** Steps that call neither outcome callback. *)
Ltac silent :=
  repeat first
    [ match goal with |- ∀ _, _ => intro end
    | progress cbv zeta
    | match goal with
      | |- unreported (mbind _ _) => apply unreported_bind
      | |- unreported (catch _ _) => apply unreported_catch
      | |- unreported (resolve _) => apply unreported_resolve
      | |- unreported (mret _) => apply unreported_mret
      | |- unreported (throw _) => apply unreported_throw
      | |- unreported get_world => apply unreported_get_world
      | |- unreported (deref _) => apply unreported_deref
      | |- unreported (set_connections _) => apply unreported_set_connections
      | |- unreported (update _ _) => apply unreported_update
      | |- unreported (emit _) => apply unreported_emit; reflexivity
      | |- unreported (call_if _ _) => apply unreported_call_if; reflexivity
      | |- unreported (if ?b then _ else _) => destruct b
      | |- unreported (match ?x with _ => _ end) => destruct x
      end ].

Section OutcomeCallbacks.

Context {accounts : IAccountManagementService}
        {resources : IResourceProviderService}
        {store : ConnectionStore}
        {provider : ConnectionProvider}
        {platform : Platform}.

#[local] Arguments connectWithOptions : simpl never.

Lemma unreported_callConnectHandler (h : Handler) (c : Completion) :
  unreported (callConnectHandler h c).
Proof. unfold callConnectHandler. silent. Qed.

Lemma unreported_recallConnectHandler (info : option ConnectionManagementInfo)
    (c : Completion) :
  unreported (recallConnectHandler info c).
Proof. unfold recallConnectHandler. silent; apply unreported_callConnectHandler. Qed.

Lemma unreported_tryAddActiveConnection (info : option ConnectionManagementInfo)
    (newConnection : loc) (addToMru : bool) :
  unreported (tryAddActiveConnection info newConnection addToMru).
Proof. unfold tryAddActiveConnection. silent; apply unreported_recallConnectHandler. Qed.

Lemma unreported_saveToSettings (id : string) (connection : loc) :
  unreported (saveToSettings id connection).
Proof. unfold saveToSettings. silent. Qed.

Lemma unreported_doActionsAfterConnectionComplete (uri : string)
    (opts : IConnectionCompletionOptions) :
  unreported (doActionsAfterConnectionComplete uri opts).
Proof. unfold doActionsAfterConnectionComplete. silent. Qed.

Lemma unreported_createNewConnection (uri : string) (connection : loc) :
  unreported (createNewConnection uri connection).
Proof.
  unfold createNewConnection, sendConnectRequest.
  silent; apply unreported_callConnectHandler.
Qed.

Lemma unreported_fill (l : loc) : unreported (fillInOrClearAzureToken l).
Proof. intros w. by destruct (fillInOrClearAzureToken_trace l w) as [-> _]. Qed.

(** A connected result is handed on as it is, after one call of
    [onConnectSuccess]. *)
Lemma afterConnected_fulfilled (connection : loc) (uri : string)
    (opts : IConnectionCompletionOptions) (callbacks : IConnectionCallbacks)
    (r r' : IConnectionResult) (w w' : World) :
  afterConnected connection uri opts callbacks r w = (Fulfilled r', w') →
  r' = r
  ∧ reports (trace w')
    = reports (trace w) ++ (if onConnectSuccess callbacks then [OnConnectSuccess] else []).
Proof.
  unfold afterConnected. intros H.
  apply bind_fulfilled in H as (w0 & w1 & H1 & H).
  unfold get_world in H1. injection H1 as <- <-.
  apply bind_fulfilled in H as (? & w2 & H2 & H).
  pose proof (unreported_tryAddActiveConnection
                (ConnectionStatusManager.findConnection (connections w) uri)
                connection (saveTheConnection opts) w) as E2.
  rewrite H2 in E2. simpl in E2.
  apply bind_fulfilled in H as (? & w3 & H3 & H).
  assert (reports (trace w3)
          = reports (trace w)
            ++ (if onConnectSuccess callbacks then [OnConnectSuccess] else [])) as E3.
  { unfold call_if in H3. destruct (onConnectSuccess callbacks).
    - injection H3 as _ <-. simpl. by rewrite reports_snoc, E2.
    - injection H3 as _ <-. by rewrite app_nil_r. }
  apply bind_fulfilled in H as (? & w4 & H4 & H).
  assert (reports (trace w4) = reports (trace w3)) as E4.
  { match type of H4 with
    | ?m w3 = _ => assert (unreported m) as Hm
    end.
    { silent; first [apply unreported_saveToSettings
                    |apply unreported_doActionsAfterConnectionComplete]. }
    specialize (Hm w3). by rewrite H4 in Hm. }
  apply bind_fulfilled in H as (p & w5 & H5 & H).
  assert (w5 = w4) as ->.
  { unfold deref in H5. destruct (heap w4 !! connection); by injection H5. }
  destruct (savePassword p).
  - destruct (store_savePassword p); [|done].
    apply bind_fulfilled in H as (? & w6 & H6 & H).
    injection H6 as _ <-. injection H as <- <-.
    simpl. rewrite reports_snoc. simpl. by rewrite app_nil_r, E4, E3.
  - injection H as <- <-. by rewrite E4, E3.
Qed.

(** An error is handed on as it is, after one call of [onConnectReject],
    unless [retry] takes over. *)
Lemma handleConnectionError_fulfilled
    (retry : loc → option string → option IConnectionCompletionOptions →
             option IConnectionCallbacks → Async IConnectionResult)
    (connection : loc) (uri : string) (opts : IConnectionCompletionOptions)
    (callbacks : IConnectionCallbacks) (r r' : IConnectionResult) (w w' : World) :
  handleConnectionError retry connection uri opts callbacks r w = (Fulfilled r', w') →
  retry connection (Some uri) (Some (set_showFirewallRuleOnError false opts))
        (Some callbacks) w = (Fulfilled r', w')
  ∨ (connected r' = connected r
     ∧ reports (trace w')
       = reports (trace w)
         ++ (if onConnectReject callbacks
             then [OnConnectReject connectionNotAcceptedError] else [])).
Proof.
  unfold handleConnectionError. intros H.
  assert (∀ r0 : IConnectionResult, connected r0 = connected r →
            (call_if (onConnectReject callbacks)
                     (OnConnectReject connectionNotAcceptedError);;
             resolve r0) w = (Fulfilled r', w') →
            connected r' = connected r
            ∧ reports (trace w')
              = reports (trace w)
                ++ (if onConnectReject callbacks
                    then [OnConnectReject connectionNotAcceptedError] else [])) as Hgive.
  { intros r0 Hr0 H0. apply bind_fulfilled in H0 as (? & w1 & H1 & H0).
    injection H0 as <- <-. split; [done|].
    unfold call_if in H1. destruct (onConnectReject callbacks).
    - injection H1 as _ <-. simpl. by rewrite reports_snoc.
    - injection H1 as _ <-. by rewrite app_nil_r. }
  destruct (showFirewallRuleOnError opts && truthy_num (errorCode r)).
  - apply bind_fulfilled in H as (p & w1 & H1 & H).
    assert (w1 = w) as ->.
    { unfold deref in H1. destruct (heap w !! connection); by injection H1. }
    unfold handleFirewallRuleError in H.
    destruct (canHandleFirewallRule _).
    + destruct (showFirewallRuleDialog _ _ _); [by left|].
      right. by apply (Hgive (set_errorHandled true r)).
    + right. by apply (Hgive r).
  - right. by apply (Hgive r).
Qed.

Lemma connectResolved_reports
    (retry : loc → option string → option IConnectionCompletionOptions →
             option IConnectionCallbacks → Async IConnectionResult)
    (connection : loc) (uri : string) (opts : IConnectionCompletionOptions)
    (callbacks : IConnectionCallbacks) (r : IConnectionResult) (w w' : World) :
  (∀ u o w1 r1 w1',
     retry connection u o (Some callbacks) w1 = (Fulfilled r1, w1') →
     reports (trace w1') = reports (trace w1) ++ outcomeReport callbacks r1) →
  connectResolved retry connection uri opts callbacks w = (Fulfilled r, w') →
  reports (trace w') = reports (trace w) ++ outcomeReport callbacks r.
Proof.
  intros Hretry H. unfold connectResolved in H.
  apply bind_fulfilled in H as (b & w1 & H1 & H).
  pose proof (unreported_fill connection w) as E1. rewrite H1 in E1. simpl in E1.
  destruct (negb b); [done|].
  apply catch_fulfilled in H as [H|(e & w2 & _ & H)].
  2:{ apply bind_fulfilled in H as (? & w3 & _ & H). done. }
  apply bind_fulfilled in H as (cr & w2 & H2 & H).
  pose proof (unreported_createNewConnection uri connection w1) as E2.
  rewrite H2 in E2. simpl in E2.
  destruct (connected cr) eqn:Hcr.
  - apply afterConnected_fulfilled in H as [-> E3].
    unfold outcomeReport. by rewrite Hcr, E3, E2, E1.
  - destruct (truthy_str (errorMessage cr)).
    + apply catch_fulfilled in H as [H|(e & w3 & _ & H)].
      2:{ apply bind_fulfilled in H as (? & w4 & _ & H). done. }
      apply handleConnectionError_fulfilled in H as [H|[Hr E3]].
      * apply Hretry in H. by rewrite H, E2, E1.
      * unfold outcomeReport. by rewrite Hr, Hcr, E3, E2, E1.
    + apply bind_fulfilled in H as (? & w3 & H3 & H). injection H as <- <-.
      unfold outcomeReport. rewrite Hcr, <- E1, <- E2.
      unfold call_if in H3. destruct (onConnectReject callbacks).
      * injection H3 as _ <-. simpl. by rewrite reports_snoc.
      * injection H3 as _ <-. by rewrite app_nil_r.
Qed.

Lemma reports_started (callbacks : IConnectionCallbacks) (t : list Event) :
  reports (started callbacks t) = reports t.
Proof.
  unfold started. destruct (onConnectStart callbacks); [|done].
  rewrite reports_snoc. simpl. by rewrite app_nil_r.
Qed.

Lemma connectWithOptions_reports_run (fuel : nat) (connection : loc)
    (uri : option string) (opts : option IConnectionCompletionOptions)
    (cbs : option IConnectionCallbacks) (w w' : World) (r : IConnectionResult) :
  connectWithOptions fuel connection uri opts cbs w = (Fulfilled r, w') →
  reports (trace w')
  = reports (trace w) ++ outcomeReport (default defaultCallbacks cbs) r.
Proof.
  revert uri opts cbs w w' r.
  induction fuel as [|fuel IH]; intros uri opts cbs w w' r H; [done|].
  destruct (heap w !! connection) as [p|] eqn:Hp.
  - rewrite (connectWithOptions_run _ _ _ _ _ _ _ Hp) in H.
    apply connectResolved_reports in H.
    + rewrite H. simpl. by rewrite reports_started.
    + intros u o w1 r1 w1' H1. by apply IH in H1.
  - rewrite connectWithOptions_S in H.
    unfold mbind, Async_bind, bind, deref in H. by rewrite Hp in H.
Qed.

(** X12: a fulfilled [connectWithOptions] has called exactly one of the
    outcome callbacks, exactly once, whether or not the attempt was
    retried after a remediation: [onConnectSuccess] when the result is
    connected, [onConnectReject] when it is not, and then always with the
    message "Connection Not Accepted". *)
Theorem connectWithOptions_reports_once (fuel : nat) (connection : loc)
    (uri : option string) (opts : option IConnectionCompletionOptions)
    (cbs : option IConnectionCallbacks) (w : World) (r : IConnectionResult)
    (Hrun : fst (connectWithOptions fuel connection uri opts cbs w) = Fulfilled r) :
  reports (trace (snd (connectWithOptions fuel connection uri opts cbs w)))
  = reports (trace w) ++ outcomeReport (default defaultCallbacks cbs) r.
Proof.
  apply (connectWithOptions_reports_run fuel connection uri opts cbs).
  destruct (connectWithOptions fuel connection uri opts cbs w) as [o w'].
  simpl in *. by subst o.
Qed.

(** X13: when the token of the profile resolves, a rejection of
    [connectWithOptions] is always reported: the last thing the call does
    is to call [onConnectReject] with the error it is rejected with. *)
Theorem connectWithOptions_rejection_reported (fuel : nat) (connection : loc)
    (uri : option string) (opts : option IConnectionCompletionOptions)
    (cbs : option IConnectionCallbacks) (w : World) (p : ConnectionProfile) (e : Thrown)
    (Hp : heap w !! connection = Some p)
    (Hfill : fillSucceeds p = true)
    (Hdefined : onConnectReject (default defaultCallbacks cbs) = true)
    (Hrun : fst (connectWithOptions (S fuel) connection uri opts cbs w) = Rejected e) :
  last (trace (snd (connectWithOptions (S fuel) connection uri opts cbs w)))
  = Some (OnConnectReject e).
Proof.
  set (run := connectWithOptions (S fuel) connection uri opts cbs w) in *.
  assert (∃ body w1,
            run = catch body
                    (λ err, call_if (onConnectReject (default defaultCallbacks cbs))
                                    (OnConnectReject err);;
                            throw err) w1) as (body & w1 & Erun).
  { subst run. rewrite (connectWithOptions_run _ _ _ _ _ _ _ Hp).
    destruct (fill_succeeds_run connection
                (mkWorld (<[connection := stamped p]> (heap w)) (connections w)
                         (started (default defaultCallbacks cbs) (trace w)))
                (stamped p)) as (pf & Hfilled & _).
    { simpl. apply lookup_insert_eq. }
    { by rewrite fillSucceeds_stamped. }
    unfold connectResolved. rewrite (bind_run _ _ _ _ _ Hfilled).
    simpl negb. cbv iota. eexists _, _. reflexivity. }
  clearbody run. subst run.
  destruct (catch_rejected _ _ _ _ Hrun) as (e' & w2 & _ & Hcatch).
  rewrite Hcatch in Hrun |- *. clear Hcatch.
  unfold mbind, Async_bind, bind, call_if in *. rewrite Hdefined in *.
  simpl in *. injection Hrun as ->. by rewrite last_snoc.
Qed.

End OutcomeCallbacks.

Lemma connectWithOptions_reports_once_witness :
  let w := Scenario.world Scenario.passwordProfile in
  let run := @connectWithOptions Scenario.noAccount Scenario.remediates Scenario.plainStore
               Scenario.firewalledOnce Scenario.azure 2 0 None None None w in
  reports (trace (snd run)) = [OnConnectSuccess].
Proof.
  apply (@connectWithOptions_reports_once Scenario.noAccount Scenario.remediates
           Scenario.plainStore Scenario.firewalledOnce Scenario.azure 2 0 None None None
           (Scenario.world Scenario.passwordProfile)
           (mkResult true None None None None (Some 0))).
  vm_compute. reflexivity.
Defined.

Lemma connectWithOptions_rejection_reported_witness :
  let w := Scenario.connectedWorld Scenario.passwordProfile in
  let run := @connectWithOptions Scenario.noAccount Scenario.remediates Scenario.plainStore
               Scenario.accepts Scenario.azure 1 0 None None None w in
  last (trace (snd run)) = Some (OnConnectReject DuplicateAttempt).
Proof.
  apply (@connectWithOptions_rejection_reported Scenario.noAccount Scenario.remediates
           Scenario.plainStore Scenario.accepts Scenario.azure 0 0 None None None
           (Scenario.connectedWorld Scenario.passwordProfile) Scenario.passwordProfile).
  - reflexivity.
  - reflexivity.
  - reflexivity.
  - vm_compute. reflexivity.
Defined.

(** ** The record an attempt leaves *)

Section AttemptRecord.

Context {accounts : IAccountManagementService}
        {resources : IResourceProviderService}
        {store : ConnectionStore}
        {provider : ConnectionProvider}
        {platform : Platform}.

Import ConnectionStatusManager.

Lemma inFlightDeletes_other (uris : list string) (reg : Registry) (uri : string) :
  uri ∉ uris → foldl deleteConnection reg uris !! uri = reg !! uri.
Proof.
  revert reg. induction uris as [|uri' uris IH]; intros reg Hnot; [done|].
  simpl. apply not_elem_of_cons in Hnot as [Hne Hnot].
  rewrite IH by done. by apply deleteConnection_other.
Qed.

(** X14: an attempt on a URI that has no live record is dispatched once
    and is always fulfilled, with the provider's connected value. It
    leaves a record for the URI, no longer connecting, exactly when the
    provider's completion carries no error message and the deletion of the
    URI was not requested in flight; otherwise the URI is free again. *)
Theorem createNewConnection_record (uri : string) (connection : loc) (w : World)
    (Hfree : ∀ r, connections w !! uri = Some r → deleted r = true) :
  let n := dispatches (trace w) in
  let run := createNewConnection uri connection w in
  (∃ r, fst run = Fulfilled r
        ∧ connected r = connectResult (connectionComplete n uri)
        ∧ connectionProfile r = Some connection)
  ∧ trace (snd run) = trace w ++ [ConnectRequest uri connection]
  ∧ connections (snd run) !! uri
    = if bool_decide (uri ∈ inFlightDeletes n)
         || truthy_str (c_errorMessage (connectionComplete n uri))
      then None
      else Some (mkInfo connection false false (Some (mkHandler uri connection))).
Proof.
  intros n run. subst run.
  unfold createNewConnection, mbind, Async_bind, bind, get_world.
  assert (addConnection (connections w) connection uri
          = Some (<[uri := mkInfo connection true false None]> (connections w),
                  mkInfo connection true false None)) as ->.
  { unfold addConnection. destruct (connections w !! uri) as [r|] eqn:Hr; [|done].
    by rewrite (Hfree r). }
  simpl. fold n. unfold setConnectHandler. rewrite alter_insert_eq.
  pose proof (lookup_insert_eq (connections w) uri
                (mkInfo connection true false (Some (mkHandler uri connection))))
    as Hreg.
  destruct (decide (uri ∈ inFlightDeletes n)) as [Hin|Hnot].
  - rewrite (bool_decide_eq_true_2 _ Hin). simpl.
    destruct (inFlightDeletes_mark (inFlightDeletes n) _ uri _
                Hreg eq_refl (or_intror Hin))
      as (r' & Hr' & Hc' & Hd').
    erewrite callConnectHandler_deleted.
    + simpl. split; [by eexists|]. split; [done|]. apply lookup_delete_eq.
    + simpl. unfold onConnectionComplete. rewrite lookup_alter_eq, Hr'. reflexivity.
    + done.
    + done.
  - rewrite (bool_decide_eq_false_2 _ Hnot). simpl.
    unfold callConnectHandler, mbind, Async_bind, bind, get_world. simpl.
    unfold findConnection, onConnectionComplete.
    rewrite lookup_alter_eq, (inFlightDeletes_other _ _ _ Hnot), Hreg. simpl.
    destruct (truthy_str (c_errorMessage (connectionComplete n uri))); simpl.
    + split; [by eexists|]. split; [done|].
      unfold deleteConnection.
      rewrite lookup_alter_eq, (inFlightDeletes_other _ _ _ Hnot), Hreg. simpl.
      apply lookup_delete_eq.
    + split; [by eexists|]. split; [done|].
      by rewrite lookup_alter_eq, (inFlightDeletes_other _ _ _ Hnot), Hreg.
Qed.

End AttemptRecord.

Lemma createNewConnection_record_witness :
  let w := Scenario.world Scenario.passwordProfile in
  let run := @createNewConnection Scenario.firewalled "connection:pgsql:db1:u" 0 w in
  (∃ r, fst run = Fulfilled r ∧ connected r = false ∧ connectionProfile r = Some 0)
  ∧ trace (snd run) = [ConnectRequest "connection:pgsql:db1:u" 0]
  ∧ connections (snd run) !! "connection:pgsql:db1:u" = None.
Proof.
  apply (@createNewConnection_record Scenario.firewalled "connection:pgsql:db1:u" 0
           (Scenario.world Scenario.passwordProfile)).
  intros r Hr. vm_compute in Hr. discriminate.
Defined.

(** ** Known connections *)

Section KnownConnectionsProperties.

Context {store : ConnectionStore} {sources : ProfileSources}.

Lemma connectionExists_spec (connections : list ConnectionProfile)
    (conn : ConnectionProfile) :
  connectionExists connections conn = true
  ↔ profileId conn ∈ profileId <$> connections.
Proof.
  unfold connectionExists.
  destruct (list_find _ connections) as [[i c]|] eqn:Hfind.
  - apply list_find_Some in Hfind as (Hi & Hc & _). split; [intros _|done].
    rewrite <- Hc. apply list_elem_of_fmap. exists c. split; [done|].
    by eapply list_elem_of_lookup_2.
  - split; [done|]. intros Hin. apply list_elem_of_fmap in Hin as (c & Hc & Hin).
    rewrite list_find_None in Hfind. rewrite Forall_forall in Hfind.
    by destruct (Hfind c Hin).
Qed.

(** What pushing the connections of [l] that do not exist yet adds. *)
Lemma pushUnlessExists_foldl (l connections : list ConnectionProfile) :
  ∃ rest, foldl pushUnlessExists connections l = connections ++ rest
          ∧ NoDup (profileId <$> rest)
          ∧ (∀ c, c ∈ rest → profileId c ∉ profileId <$> connections)
          ∧ (∀ c, c ∈ rest → c ∈ l)
          ∧ (∀ c, c ∈ l → profileId c ∈ profileId <$> (connections ++ rest)).
Proof.
  revert connections. induction l as [|c l IH]; intros connections.
  - exists []. rewrite app_nil_r. repeat split; try done.
    + constructor.
    + intros c Hc. by apply elem_of_nil in Hc.
    + intros c Hc. by apply elem_of_nil in Hc.
  - simpl. unfold pushUnlessExists at 2.
    destruct (connectionExists connections c) eqn:Hex.
    + destruct (IH connections) as (rest & Heq & Hnd & Hnew & Hfrom & Hall).
      exists rest. repeat split; try done.
      * intros c' Hc'. apply elem_of_cons. right. by apply Hfrom.
      * intros c' Hc'. apply elem_of_cons in Hc' as [->|Hc']; [|by apply Hall].
        apply connectionExists_spec in Hex. rewrite fmap_app.
        apply elem_of_app. by left.
    + destruct (IH (connections ++ [c])) as (rest & Heq & Hnd & Hnew & Hfrom & Hall).
      assert (profileId c ∉ profileId <$> connections) as Hc.
      { intros Hin. apply connectionExists_spec in Hin. congruence. }
      exists (c :: rest). rewrite Heq, <- app_assoc. repeat split; try done.
      * rewrite fmap_cons. constructor; [|done].
        intros Hin. apply list_elem_of_fmap in Hin as (c' & Hid & Hc').
        apply (Hnew c' Hc'). rewrite <- Hid, fmap_app. apply elem_of_app. right.
        simpl. apply list_elem_of_singleton. done.
      * intros c' Hc'. apply elem_of_cons in Hc' as [->|Hc']; [done|].
        intros Hin. apply (Hnew c' Hc'). rewrite fmap_app. apply elem_of_app. by left.
      * intros c' Hc'. apply elem_of_cons in Hc' as [->|Hc'];
          [by apply elem_of_cons; left|].
        apply elem_of_cons. right. by apply Hfrom.
      * intros c' Hc'. rewrite <- app_assoc in Hall. simpl in Hall.
        apply elem_of_cons in Hc' as [->|Hc']; [|by apply Hall].
        rewrite fmap_app, fmap_cons. apply elem_of_app. right.
        apply elem_of_cons. by left.
Qed.

(** The connections of the groups are pushed as one list. *)
Lemma pushUnlessExists_groups (groups : list ConnectionProfileGroup)
    (connections : list ConnectionProfile) :
  foldl (λ connections group,
           foldl pushUnlessExists connections (getConnectionsInGroup group))
        connections groups
  = foldl pushUnlessExists connections (flat_map getConnectionsInGroup groups).
Proof.
  revert connections. induction groups as [|g groups IH]; intros connections; [done|].
  simpl. by rewrite foldl_app, IH.
Qed.

Lemma getConnections_all :
  getConnections None
  = foldl pushUnlessExists getActiveConnections
          (getRecentConnections ++ flat_map getConnectionsInGroup getConnectionProfileGroups).
Proof.
  unfold getConnections. simpl. rewrite foldl_app.
  destruct getConnectionProfileGroups as [|g groups] eqn:Hg; [done|].
  by rewrite pushUnlessExists_groups.
Qed.

Lemma getConnections_falsy (activeConnectionsOnly : option bool) :
  truthy_bool activeConnectionsOnly = false →
  getConnections activeConnectionsOnly = getConnections None.
Proof. intros H. unfold getConnections. by rewrite H. Qed.

(** X15: [getConnections] lists the active connections first, as the
    registry gives them, and then connections with ids that are new: no
    id occurs twice among the ones it adds, and none of them has the id of
    an active connection. *)
Theorem getConnections_ids_unique (activeConnectionsOnly : option bool) :
  ∃ rest, getConnections activeConnectionsOnly = getActiveConnections ++ rest
          ∧ NoDup (profileId <$> rest)
          ∧ ∀ c, c ∈ rest → profileId c ∉ profileId <$> getActiveConnections.
Proof.
  destruct (truthy_bool activeConnectionsOnly) eqn:Honly.
  - exists []. unfold getConnections. rewrite Honly. simpl. rewrite app_nil_r.
    repeat split; [constructor|]. intros c Hc. by apply elem_of_nil in Hc.
  - rewrite getConnections_falsy, getConnections_all by done.
    destruct (pushUnlessExists_foldl
                (getRecentConnections
                 ++ flat_map getConnectionsInGroup getConnectionProfileGroups)
                getActiveConnections) as (rest & Heq & Hnd & Hnew & _).
    by exists rest.
Qed.

(** X16: unless only the active connections are asked for,
    [getConnections] returns nothing but active, recent and saved
    connections, and every recent connection and every connection of a
    saved group, at whatever depth, is represented in it by a connection
    with the same id. *)
Theorem getConnections_covers (activeConnectionsOnly : option bool)
    (Hall : truthy_bool activeConnectionsOnly = false) :
  (∀ c, c ∈ getConnections activeConnectionsOnly →
        c ∈ getActiveConnections ∨ c ∈ getRecentConnections
        ∨ ∃ g, g ∈ getConnectionProfileGroups ∧ c ∈ getConnectionsInGroup g)
  ∧ (∀ c, c ∈ getRecentConnections
          ∨ (∃ g, g ∈ getConnectionProfileGroups ∧ c ∈ getConnectionsInGroup g) →
          ∃ c', c' ∈ getConnections activeConnectionsOnly ∧ profileId c' = profileId c).
Proof.
  rewrite getConnections_falsy, getConnections_all by done.
  destruct (pushUnlessExists_foldl
              (getRecentConnections
               ++ flat_map getConnectionsInGroup getConnectionProfileGroups)
              getActiveConnections) as (rest & Heq & _ & _ & Hfrom & Hcover).
  rewrite Heq. split.
  - intros c Hc. apply elem_of_app in Hc as [Hc|Hc]; [by left|].
    right. apply Hfrom in Hc. apply elem_of_app in Hc as [Hc|Hc]; [by left|].
    right. apply list_elem_of_In, in_flat_map in Hc as (g & Hg & Hc).
    exists g. split; by apply list_elem_of_In.
  - intros c Hc.
    assert (c ∈ getRecentConnections
                ++ flat_map getConnectionsInGroup getConnectionProfileGroups) as Hin.
    { apply elem_of_app. destruct Hc as [Hc|(g & Hg & Hc)]; [by left|].
      right. apply list_elem_of_In, in_flat_map. exists g.
      split; by apply list_elem_of_In. }
    apply Hcover, list_elem_of_fmap in Hin as (c' & Hid & Hc'). by exists c'.
Qed.

End KnownConnectionsProperties.

Lemma getConnections_covers_witness :
  (∀ c, c ∈ @getConnections Cases.savesNested Cases.byServer None →
        c ∈ @getActiveConnections Cases.byServer
        ∨ c ∈ @getRecentConnections Cases.byServer
        ∨ ∃ g, g ∈ @getConnectionProfileGroups Cases.savesNested
               ∧ c ∈ getConnectionsInGroup g)
  ∧ (∀ c, c ∈ @getRecentConnections Cases.byServer
          ∨ (∃ g, g ∈ @getConnectionProfileGroups Cases.savesNested
                  ∧ c ∈ getConnectionsInGroup g) →
          ∃ c', c' ∈ @getConnections Cases.savesNested Cases.byServer None
                ∧ @profileId Cases.byServer c' = @profileId Cases.byServer c).
Proof.
  apply (@getConnections_covers Cases.savesNested Cases.byServer None).
  reflexivity.
Defined.

(** The known connections of the scenario: the active one, then the recent
    one that is new; the saved servers are both known already. *)
Example getConnections_nested :
  @getConnections Cases.savesNested Cases.byServer None
  = [Scenario.passwordProfile; Cases.otherProfile].
Proof. vm_compute. reflexivity. Qed.

(** ** Registered servers and known connections *)

Section RegisteredAndKnown.

Context {store : ConnectionStore} {sources : ProfileSources}.

(** X17: [hasRegisteredServers] and [getConnections] agree: when there are
    registered servers the list of known connections is not empty, and
    when there are none it holds active and recent connections only. *)
Theorem hasRegisteredServers_getConnections :
  ∃ b, (∃ n : nat, ∀ m : nat, n ≤ m → hasRegisteredServers m = Some b)
       ∧ (b = true → getConnections None ≠ [])
       ∧ (b = false →
          ∀ c, c ∈ getConnections None →
               c ∈ getActiveConnections ∨ c ∈ getRecentConnections).
Proof.
  exists (existsb registeredIn getConnectionProfileGroups). split; [|split].
  - apply doHasRegisteredServers_terminates.
  - rewrite existsb_exists. intros (g & Hg & Hreg).
    apply registeredIn_getConnectionsInGroup in Hreg.
    destruct (getConnectionsInGroup g) as [|c rest] eqn:Hcs; [done|].
    rewrite getConnections_all.
    destruct (pushUnlessExists_foldl
                (getRecentConnections
                 ++ flat_map getConnectionsInGroup getConnectionProfileGroups)
                getActiveConnections) as (rest' & Heq & _ & _ & _ & Hcover).
    assert (c ∈ getRecentConnections
                ++ flat_map getConnectionsInGroup getConnectionProfileGroups) as Hin.
    { apply elem_of_app. right. apply list_elem_of_In, in_flat_map. exists g.
      split; [done|]. rewrite Hcs. by left. }
    apply Hcover in Hin. rewrite Heq. intros Hnil. rewrite Hnil in Hin.
    by apply elem_of_nil in Hin.
  - intros Hnone c Hc. rewrite getConnections_all in Hc.
    destruct (pushUnlessExists_foldl
                (getRecentConnections
                 ++ flat_map getConnectionsInGroup getConnectionProfileGroups)
                getActiveConnections) as (rest' & Heq & _ & _ & Hfrom & _).
    rewrite Heq in Hc. apply elem_of_app in Hc as [Hc|Hc]; [by left|].
    apply Hfrom, elem_of_app in Hc as [Hc|Hc]; [by right|].
    apply list_elem_of_In, in_flat_map in Hc as (g & Hg & Hc).
    assert (registeredIn g = true) as Hreg.
    { apply registeredIn_getConnectionsInGroup. intros Hnil. by rewrite Hnil in Hc. }
    assert (existsb registeredIn getConnectionProfileGroups = true) as Hex
      by (apply existsb_exists; eauto).
    congruence.
Qed.

End RegisteredAndKnown.

(** ** The front door *)

Section FrontDoorBound.

Context {accounts : IAccountManagementService}
        {resources : IResourceProviderService}
        {store : ConnectionStore}
        {provider : ConnectionProvider}
        {platform : Platform}.

#[local] Arguments connectWithOptions : simpl never.

Lemma tryConnectWith_dispatches (d : nat) (fuel : nat) (connection : loc)
    (owner : IConnectableInput) (opts : option IConnectionCompletionOptions)
    (newConnection : loc) (savedCred : bool) :
  hoare (λ w, dispatches (trace w) ≤ d)
        (tryConnectWith fuel connection owner opts newConnection savedCred)
        (λ w, dispatches (trace w) ≤ d + 2).
Proof.
  pose proof (stable_dispatches (λ n, n ≤ d)) as Hd.
  pose proof (stable_dispatches (λ n, n ≤ d + 2)) as Hd2.
  unfold tryConnectWith.
  apply (hoare_bind _ (λ w, dispatches (trace w) ≤ d)); [simpl; lia|quiet|intros p].
  apply (hoare_bind _ (λ w, dispatches (trace w) ≤ d)); [simpl; lia|quiet|intros found].
  apply (hoare_bind _ (λ w, dispatches (trace w) ≤ d)); [simpl; lia| |intros ok].
  { apply (preserves_fill_dispatches (λ n, n ≤ d)). }
  apply (hoare_bind _ (λ w, dispatches (trace w) ≤ d)); [simpl; lia|quiet|intros p'].
  destruct (_ || _).
  - apply (hoare_weaken (λ w, dispatches (trace w) ≤ d) _
                        (λ w, dispatches (trace w) ≤ d)); [done|simpl; lia|].
    by apply preserves_showConnectionDialogOnError.
  - apply (hoare_bind _ (λ w, dispatches (trace w) ≤ d + 2)); [done| |intros r].
    + apply connectWithOptions_dispatches.
    + destruct (_ && _); [by apply preserves_showConnectionDialogOnError|quiet].
Qed.

Lemma tryConnect_dispatches (d : nat) (fuel : nat) (connection : loc)
    (owner : IConnectableInput) (opts : option IConnectionCompletionOptions) :
  hoare (λ w, dispatches (trace w) ≤ d) (tryConnect fuel connection owner opts)
        (λ w, dispatches (trace w) ≤ d + 2).
Proof.
  intros w Hw. unfold tryConnect, mbind, Async_bind, bind, get_world.
  destruct (addSavedPassword (heap w) connection) as [[[h newConnection] savedCred]|];
    [|simpl; lia].
  simpl. by apply tryConnectWith_dispatches.
Qed.

Lemma connect_dispatches (d : nat) (fuel : nat) (connection : loc) (uri : option string)
    (opts : option IConnectionCompletionOptions) (callbacks : option IConnectionCallbacks) :
  hoare (λ w, dispatches (trace w) ≤ d) (connect fuel connection uri opts callbacks)
        (λ w, dispatches (trace w) ≤ d + 2).
Proof.
  pose proof (stable_dispatches (λ n, n ≤ d)) as Hd.
  unfold connect.
  apply (hoare_bind _ (λ w, dispatches (trace w) ≤ d)); [simpl; lia|quiet|intros u].
  cbv zeta.
  apply (hoare_bind _ (λ w, dispatches (trace w) ≤ d)); [simpl; lia|quiet|intros _].
  apply tryConnect_dispatches.
Qed.

Lemma total_showConnectionDialogOnError (connection : loc) (owner : IConnectableInput)
    (r : IConnectionResult) (opts : option IConnectionCompletionOptions) :
  total (showConnectionDialogOnError connection owner r opts).
Proof. unfold showConnectionDialogOnError. fuelless. Qed.

Lemma total_tryConnect (fuel : nat) (connection : loc) (owner : IConnectableInput)
    (opts : option IConnectionCompletionOptions) :
  total (tryConnect (S (S fuel)) connection owner opts).
Proof.
  intros w. unfold tryConnect, mbind, Async_bind, bind, get_world.
  destruct (addSavedPassword (heap w) connection) as [[[h newConnection] savedCred]|];
    [|done].
  simpl.
  assert (total (tryConnectWith (S (S fuel)) connection owner opts newConnection
                   savedCred)) as Htotal; [|apply Htotal].
  unfold tryConnectWith.
  fuelless; first [apply total_fill
                  |apply total_showConnectionDialogOnError
                  |apply total_connectWithOptions].
Qed.

Lemma total_connect (fuel : nat) (connection : loc) (uri : option string)
    (opts : option IConnectionCompletionOptions) (callbacks : option IConnectionCallbacks) :
  total (connect (S (S fuel)) connection uri opts callbacks).
Proof. unfold connect. fuelless. apply total_tryConnect. Qed.

(** X18: the bound on the dispatches of [connectWithOptions] holds at the
    front door: [connect], [connectAndSaveProfile] and
    [connectIfNotConnected] dispatch at most twice, whatever the store,
    the provider and the remediation do, and two units of fuel are enough
    for them to settle. *)
Theorem front_door_dispatches_at_most_twice :
  (∀ fuel connection uri opts callbacks w,
     dispatches (trace (snd (connect fuel connection uri opts callbacks w)))
     ≤ dispatches (trace w) + 2)
  ∧ (∀ fuel connection uri opts callbacks w,
       dispatches (trace (snd (connectAndSaveProfile fuel connection uri opts
                                 callbacks w)))
       ≤ dispatches (trace w) + 2)
  ∧ (∀ fuel connection purpose saveConnection w,
       dispatches (trace (snd (connectIfNotConnected fuel connection purpose
                                 saveConnection w)))
       ≤ dispatches (trace w) + 2)
  ∧ (∀ fuel connection uri opts callbacks w,
       fst (connect (S (S fuel)) connection uri opts callbacks w) ≠ OutOfFuel)
  ∧ (∀ fuel connection purpose saveConnection w,
       fst (connectIfNotConnected (S (S fuel)) connection purpose saveConnection w)
       ≠ OutOfFuel).
Proof.
  split; [|split; [|split; [|split]]].
  - intros fuel connection uri opts callbacks w.
    by apply (connect_dispatches (dispatches (trace w))).
  - intros fuel connection uri opts callbacks w. unfold connectAndSaveProfile.
    by apply (connectWithOptions_dispatches (dispatches (trace w))).
  - intros fuel connection purpose saveConnection w.
    assert (hoare (λ w', dispatches (trace w') ≤ dispatches (trace w))
                  (connectIfNotConnected fuel connection purpose saveConnection)
                  (λ w', dispatches (trace w') ≤ dispatches (trace w) + 2)) as H;
      [|by apply H].
    pose proof (stable_dispatches (λ n, n ≤ dispatches (trace w))) as Hd.
    pose proof (stable_dispatches (λ n, n ≤ dispatches (trace w) + 2)) as Hd2.
    unfold connectIfNotConnected.
    apply (hoare_bind _ (λ w', dispatches (trace w') ≤ dispatches (trace w)));
      [simpl; lia|quiet|intros p].
    cbv zeta.
    apply (hoare_bind _ (λ w', dispatches (trace w') ≤ dispatches (trace w)));
      [simpl; lia|quiet|intros w0].
    destruct (ConnectionStatusManager.isConnected _ _).
    + intros w' Hw'. simpl. lia.
    + apply (hoare_bind _ (λ w', dispatches (trace w') ≤ dispatches (trace w) + 2));
        [done|apply connect_dispatches|intros r; quiet].
  - intros fuel connection uri opts callbacks w. apply total_connect.
  - intros fuel connection purpose saveConnection w.
    assert (total (connectIfNotConnected (S (S fuel)) connection purpose
                     saveConnection)) as H; [|apply H].
    unfold connectIfNotConnected. fuelless. apply total_connect.
Qed.

End FrontDoorBound.

(** ** The server group controller *)

Section ServerGroupControllerProperties.

Import ServerGroupController.

Context {services : GroupServices}.

(** X19: when the edit of a group is rejected, what the controller calls a
    rollback restores nothing in the group that was edited: the object the
    caller passed keeps the name, the colour and the description of the
    dialog, and the controller goes on with a copy that has the old
    values, after showing the error. *)
Theorem failed_edit_keeps_changes (c : Controller) (g : gref) (group : GroupFields)
    (err : Thrown)
    (Hgroup : _group c = Some g)
    (Hobject : objects c !! g = Some group)
    (Hrejected : editGroup (mkGroupFields (groupName (_viewModel c)) (cpg_parent group)
                              (cpg_id group) (groupColor (_viewModel c))
                              (groupDescription (_viewModel c)))
                 = Some err) :
  let c' := handleOnAddServerGroup c in
  objects c' !! g
  = Some (mkGroupFields (groupName (_viewModel c)) (cpg_parent group) (cpg_id group)
                        (groupColor (_viewModel c)) (groupDescription (_viewModel c)))
  ∧ (∃ tempGroup, _group c' = Some tempGroup ∧ tempGroup ≠ g
                  ∧ objects c' !! tempGroup = Some group)
  ∧ last (effects c') = Some (ErrorShown err).
Proof.
  intros c'. subst c'. unfold handleOnAddServerGroup.
  rewrite Hgroup, Hobject. cbv zeta. rewrite Hrejected. simpl.
  pose proof (lookup_lt_Some _ _ _ Hobject) as Hlt.
  split; [|split].
  - apply list_lookup_insert_eq. rewrite length_app. simpl. lia.
  - exists (length (objects c)). split; [done|]. split; [lia|].
    rewrite list_lookup_insert_ne by lia.
    rewrite lookup_app_r by lia. rewrite Nat.sub_diag.
    by destruct group.
  - by rewrite last_snoc.
Qed.

Lemma renders_snoc (t : list Effect) (e : Effect) :
  length (filter (λ e, is_render e = true) (t ++ [e]))
  = length (filter (λ e, is_render e = true) t) + (if is_render e then 1 else 0).
Proof.
  rewrite filter_app, length_app. f_equal.
  rewrite filter_cons, filter_nil. by destruct (is_render e).
Qed.

(** A call keeps the dialog, and renders it when it creates it. *)
Lemma call_renders (c : Controller) (x : Call) :
  length (filter (λ e, is_render e = true) (effects c))
  = (if _serverGroupDialog c then 1 else 0) →
  length (filter (λ e, is_render e = true) (effects (call c x)))
  = (if _serverGroupDialog (call c x) then 1 else 0)
  ∧ _serverGroupDialog (call c x) = _serverGroupDialog c || is_show x.
Proof.
  intros Hinv. destruct x as [callbacks|group|vm| |]; simpl.
  - unfold showCreateGroupDialog, openServerGroupDialog. simpl.
    destruct (_serverGroupDialog c); simpl.
    + by rewrite renders_snoc, Hinv.
    + rewrite filter_app, length_app, Hinv. done.
  - unfold showEditGroupDialog, openServerGroupDialog. simpl.
    destruct (_serverGroupDialog c); simpl.
    + by rewrite renders_snoc, Hinv.
    + rewrite filter_app, length_app, Hinv. done.
  - by rewrite orb_false_r.
  - rewrite orb_false_r. unfold handleOnAddServerGroup.
    destruct (_group c) as [g|].
    + destruct (objects c !! g) as [group|]; [|done]. cbv zeta.
      destruct (editGroup _); [|destruct (_serverGroupDialog c) eqn:Hd]; simpl;
        rewrite ?renders_snoc; simpl; rewrite ?Nat.add_0_r; (split; [|done]).
      all: first [rewrite Hd; exact Hinv|exact Hinv].
    + cbv zeta.
      destruct (saveProfileGroup _);
        [|destruct (_serverGroupDialog c) eqn:Hd; [destruct (_callbacks c)|]]; simpl;
        rewrite ?app_nil_r, ?filter_app, ?length_app; simpl;
        rewrite ?Nat.add_0_r; (split; [|done]);
        first [rewrite Hd; exact Hinv|exact Hinv].
  - rewrite orb_false_r. unfold handleOnClose.
    destruct (_callbacks c); simpl; [|done].
    rewrite renders_snoc, Hinv; simpl. by rewrite Nat.add_0_r.
Qed.

(** X20: however often the dialog is shown, and whatever happens between,
    the controller creates and renders it once: there is a dialog as soon
    as one of the two show methods has been called, and it has been
    rendered exactly once then. *)
Theorem dialog_rendered_once (objs : list GroupFields) (calls : list Call) :
  let c := foldl call (initial objs) calls in
  _serverGroupDialog c = existsb is_show calls
  ∧ length (filter (λ e, is_render e = true) (effects c))
    = if existsb is_show calls then 1 else 0.
Proof.
  cbv zeta.
  assert (∀ c0, length (filter (λ e, is_render e = true) (effects c0))
                = (if _serverGroupDialog c0 then 1 else 0) →
                _serverGroupDialog (foldl call c0 calls)
                = _serverGroupDialog c0 || existsb is_show calls
                ∧ length (filter (λ e, is_render e = true)
                                 (effects (foldl call c0 calls)))
                  = if _serverGroupDialog c0 || existsb is_show calls then 1 else 0)
    as Hgen.
  { induction calls as [|x calls IH]; intros c0 Hinv; simpl.
    - by rewrite orb_false_r.
    - destruct (call_renders c0 x Hinv) as [Hinv' Hd].
      destruct (IH _ Hinv') as [IH1 IH2].
      rewrite IH1, IH2, Hd, !orb_assoc. done. }
  by apply (Hgen (initial objs)).
Qed.

End ServerGroupControllerProperties.

Lemma failed_edit_keeps_changes_witness :
  let old := ServerGroupController.mkGroupFields "staging" None (Some "g1") None None in
  let c := foldl (@ServerGroupController.call Cases.refusesEdits)
                 (ServerGroupController.initial [old])
                 [ServerGroupController.ShowEditGroupDialog 0;
                  ServerGroupController.Input
                    (ServerGroupController.mkViewModel "production" (Some "red") None)] in
  let c' := @ServerGroupController.handleOnAddServerGroup Cases.refusesEdits c in
  ServerGroupController.objects c' !! 0
  = Some (ServerGroupController.mkGroupFields "production" None (Some "g1")
            (Some "red") None)
  ∧ (∃ tempGroup, ServerGroupController._group c' = Some tempGroup ∧ tempGroup ≠ 0
                  ∧ ServerGroupController.objects c' !! tempGroup = Some old)
  ∧ last (ServerGroupController.effects c')
    = Some (ServerGroupController.ErrorShown (CollaboratorError "editGroup")).
Proof.
  intros old c.
  apply (@failed_edit_keeps_changes Cases.refusesEdits c 0 old
           (CollaboratorError "editGroup")).
  - reflexivity.
  - reflexivity.
  - reflexivity.
Defined.
